(** * HierarchyTable: a shallow embedding of the hierarchical table controller

    The development follows [src/significantChangesAlerts/significantChangesAlerts.js]
    (class [HierarchyTable]; the class [SignificantChangesAlerts] of the same
    file is modelled in the module [Alerts]).  JavaScript objects that are mutated in place (the
    table element, its rows, the [data] array and the [meta] object of every
    row) live in one explicit state, the record [HierarchyTable]; a method is a
    state transformer that either completes normally or throws.  The state
    reached at a [Throw] is kept: an exception does not undo the DOM writes made
    before it. *)

From Stdlib Require Import ZArith String Ascii List Bool Lia.
From stdpp Require Import base option list gmap strings pretty.

Local Open Scope Z_scope.
Local Open Scope nat_scope.

(** ** Completions and the state monad *)

(** Exceptions of the host language that the code can raise. *)
Inductive exn :=
| TypeError
| ReferenceError
| NamedError (name : string).

(** Ways in which an evaluation leaves the model (none of them is a
    JavaScript behaviour). *)
Inductive limit :=
| OutOfFuel           (* the recursion budget of a recursive method is used up *)
| UnsupportedPattern  (* a search string that is not a plain literal *)
| Dangling.           (* an index that denotes no record *)

Inductive completion (A : Type) :=
| Normal (a : A)
| Throw (e : exn)
| Beyond (l : limit).
Arguments Normal {A} a.
Arguments Throw {A} e.
Arguments Beyond {A} l.

Definition JS (S A : Type) : Type := S -> completion A * S.

Definition ret {S A} (a : A) : JS S A := fun s => (Normal a, s).
Definition throw {S A} (e : exn) : JS S A := fun s => (Throw e, s).
Definition beyond {S A} (l : limit) : JS S A := fun s => (Beyond l, s).
Definition bind {S A B} (m : JS S A) (k : A -> JS S B) : JS S B :=
  fun s => match m s with
           | (Normal a, s') => k a s'
           | (Throw e, s') => (Throw e, s')
           | (Beyond l, s') => (Beyond l, s')
           end.
Definition get {S} : JS S S := fun s => (Normal s, s).
Definition modify {S} (f : S -> S) : JS S unit := fun s => (Normal tt, f s).

Notation "'let*' x ':=' m 'in' k" := (bind m (fun x => k))
  (at level 10, x name, m at level 100, k at level 200).
Notation "m ';;' k" := (bind m (fun _ => k))
  (at level 100, k at level 200, right associativity).

Definition when {S} (b : bool) (m : JS S unit) : JS S unit :=
  if b then m else ret tt.

(** [arr.forEach(f)]: the callbacks run in order, a throw stops the loop. *)
Fixpoint forEach {S A} (f : A -> JS S unit) (l : list A) : JS S unit :=
  match l with
  | [] => ret tt
  | x :: l' => f x ;; forEach f l'
  end.

(** ** Strings *)

Definition is_space (c : ascii) : bool :=
  let n := nat_of_ascii c in ((9 <=? n) && (n <=? 13)) || (n =? 32).

Fixpoint trim_start (s : string) : string :=
  match s with
  | String c s' => if is_space c then trim_start s' else s
  | EmptyString => EmptyString
  end.

Fixpoint trim_end (s : string) : string :=
  match s with
  | String c s' =>
      match trim_end s' with
      | EmptyString => if is_space c then EmptyString else String c EmptyString
      | t => String c t
      end
  | EmptyString => EmptyString
  end.

(** [str.trim()], on the ASCII white space characters. *)
Definition trim (s : string) : string := trim_end (trim_start s).

(** [str.split(sep)] for a one-character separator; never the empty list. *)
Fixpoint split (sep : ascii) (s : string) : list string :=
  match s with
  | EmptyString => [EmptyString]
  | String c s' =>
      if Ascii.eqb c sep then EmptyString :: split sep s'
      else match split sep s' with
           | seg :: segs => String c seg :: segs
           | [] => [String c EmptyString]
           end
  end.

(** [item.name.split('/').reverse()[0].trim()] *)
Definition last_label (flatName : string) : string :=
  trim (hd EmptyString (rev (split "/" flatName))).

(** *** [new RegExp(str,'gi')] restricted to literal patterns

    The search string is compiled as a regular expression.  The model covers
    the patterns without a metacharacter: such a pattern matches a label iff it
    occurs in it as a substring, letters compared without case.  Every other
    search string leaves the model ([UnsupportedPattern]). *)

Definition metachar (c : ascii) : bool :=
  existsb (Ascii.eqb c)
    ["\"; "^"; "$"; "."; "|"; "?"; "*"; "+"; "("; ")"; "["; "]"; "{"; "}"]%char.

Definition literal_char (c : ascii) : bool :=
  let n := nat_of_ascii c in (32 <=? n) && (n <=? 126) && negb (metachar c).

Fixpoint literal_pattern (p : string) : bool :=
  match p with
  | EmptyString => true
  | String c p' => literal_char c && literal_pattern p'
  end.

Definition upcase (c : ascii) : ascii :=
  let n := nat_of_ascii c in
  if (97 <=? n) && (n <=? 122) then ascii_of_nat (n - 32) else c.

Fixpoint match_here (p s : string) : bool :=
  match p, s with
  | EmptyString, _ => true
  | String _ _, EmptyString => false
  | String a p', String b s' => Ascii.eqb (upcase a) (upcase b) && match_here p' s'
  end.

(** Truthiness of [s.match(regexp)] for the literal pattern [p]. *)
Fixpoint str_match (p s : string) : bool :=
  match_here p s ||
  match s with
  | EmptyString => false
  | String _ s' => str_match p s'
  end.

(** ** The document *)

(** Child nodes of a table cell: text, a drill-down link [<a>text</a>], or the
    collapse button inserted by [addCollapseButton]. *)
Inductive cnode :=
| NText (s : string)
| NLink (s : string)
| NButton.

Record cell := Cell {
  c_classes : list string;
  c_nodes : list cnode
}.

Record tr := Tr {
  r_attrs : list (string * string);
  r_classes : list string;
  r_cells : list cell
}.

(** Child nodes of [tbody]: a text node or a row, the row named by its
    position in the store [t_rows].  A table has its [tbody] or none:
    [t_body] is [None] when [querySelector("tbody")] finds nothing. *)
Inductive bnode :=
| BText
| BRow (r : nat).

(** Target of a dispatched event. *)
Inductive target :=
| OnTable
| OnRow (r : nat).

Record table := Table {
  t_classes : list string;
  t_rows : list tr;
  t_body : option (list bnode);
  t_events : list (string * target)
}.

Definition classList_contains (c : string) (l : list string) : bool :=
  existsb (String.eqb c) l.
Definition classList_add (c : string) (l : list string) : list string :=
  if classList_contains c l then l else l ++ [c].
Definition classList_remove (c : string) (l : list string) : list string :=
  List.filter (fun x => negb (String.eqb c x)) l.
Definition classList_toggle (c : string) (l : list string) : list string :=
  if classList_contains c l then classList_remove c l else classList_add c l.

Fixpoint setAttribute (k v : string) (l : list (string * string))
  : list (string * string) :=
  match l with
  | [] => [(k, v)]
  | (k', v') :: l' =>
      if String.eqb k k' then (k, v) :: l' else (k', v') :: setAttribute k v l'
  end.

(** [coll[i]]: [undefined] outside the collection. *)
Definition at_index {A} (l : list A) (i : Z) : option A :=
  if (i <? 0)%Z then None else l !! Z.to_nat i.

(** [coll.item(i)]: the argument is an [unsigned long], so it wraps modulo
    [2^32] before the collection is read. *)
Definition NodeList_item {A} (l : list A) (i : Z) : option A :=
  l !! Z.to_nat (i mod 4294967296)%Z.

Definition text_of (n : cnode) : string :=
  match n with
  | NText s => s
  | NLink s => s
  | NButton => EmptyString
  end.

Definition is_element (n : cnode) : bool :=
  match n with NText _ => false | _ => true end.

Definition textContent (c : cell) : string :=
  fold_right String.append EmptyString (map text_of (c_nodes c)).

Fixpoint first_link (ns : list cnode) : option string :=
  match ns with
  | [] => None
  | NLink s :: _ => Some s
  | _ :: ns' => first_link ns'
  end.

(** [el.textContent = s] replaces the children by one text node, by none when
    [s] is empty. *)
Definition set_textContent (s : string) (c : cell) : cell :=
  Cell (c_classes c) (if String.eqb s EmptyString then [] else [NText s]).

(** ** The hierarchy and the rows of [data] *)

Unset Elimination Schemes.
Inductive node := Node {
  n_id : string;
  n_name : string;
  n_parent : string;
  n_children : list node
}.
Set Elimination Schemes.

(** Values stored in a row of [data]. *)
Inductive cellval :=
| VNull
| VScalar (s : string)       (* [_isNumber(s)] for a non-empty [s] *)
| VHtml (ns : list cnode)    (* [td.innerHTML] *)
| VString (s : string)       (* a label *)
| VHole.

(** The object returned by [setupMeta]; [m_hidden] and [m_collapsed] are the
    closure variables [_hidden] and [_collapsed] behind the accessors, and
    [None] is [undefined]. *)
Record meta := Meta {
  m_row : nat;
  m_id : string;
  m_flatName : string;
  m_name : string;
  m_parent : string;
  m_level : nat;
  m_hasChildren : bool;
  m_hidden : bool;
  m_collapsed : option bool
}.

Record record := Rec {
  cells : list cellval;
  rmeta : meta
}.

Record searchObj := SearchObj {
  s_timeout : Z;
  s_enabled : bool;
  s_immediate : bool;
  s_query : string;
  s_searching : bool
}.

Record HierarchyTable := HT {
  source : table;
  hierarchy : list node;
  rowheaders : gmap string Z;
  data : option (list record);
  column : Z;
  _flat : bool;
  search : option searchObj
}.

Abbreviation M := (JS HierarchyTable).

Definition truthy (v : option bool) : bool :=
  match v with Some true => true | _ => false end.

(** ** State access *)

Definition with_source (f : table -> table) (this : HierarchyTable) : HierarchyTable :=
  HT (f (source this)) (hierarchy this) (rowheaders this) (data this)
     (column this) (_flat this) (search this).
Definition with_data (d : option (list record)) (this : HierarchyTable) : HierarchyTable :=
  HT (source this) (hierarchy this) (rowheaders this) d
     (column this) (_flat this) (search this).
Definition with_flat (b : bool) (this : HierarchyTable) : HierarchyTable :=
  HT (source this) (hierarchy this) (rowheaders this) (data this)
     (column this) b (search this).
Definition with_search (s : option searchObj) (this : HierarchyTable) : HierarchyTable :=
  HT (source this) (hierarchy this) (rowheaders this) (data this)
     (column this) (_flat this) s.

Definition with_rows (f : list tr -> list tr) (t : table) : table :=
  Table (t_classes t) (f (t_rows t)) (t_body t) (t_events t).
Definition with_row_classes (f : list string -> list string) (r : tr) : tr :=
  Tr (r_attrs r) (f (r_classes r)) (r_cells r).
Definition with_row_attrs (f : list (string * string) -> list (string * string)) (r : tr) : tr :=
  Tr (f (r_attrs r)) (r_classes r) (r_cells r).
Definition with_row_cells (f : list cell -> list cell) (r : tr) : tr :=
  Tr (r_attrs r) (r_classes r) (f (r_cells r)).

(** A write through the row reference [r]. *)
Definition update_row (r : nat) (f : tr -> tr) : M unit :=
  modify (with_source (with_rows (alter f r))).

Definition row_classList_add (r : nat) (c : string) : M unit :=
  update_row r (with_row_classes (classList_add c)).
Definition row_classList_remove (r : nat) (c : string) : M unit :=
  update_row r (with_row_classes (classList_remove c)).
Definition row_setAttribute (r : nat) (k v : string) : M unit :=
  update_row r (with_row_attrs (setAttribute k v)).

Definition source_classList (f : list string -> list string) : M unit :=
  modify (with_source (fun t => Table (f (t_classes t)) (t_rows t) (t_body t) (t_events t))).

Definition dispatchEvent (tg : target) (name : string) : M unit :=
  modify (with_source (fun t =>
    Table (t_classes t) (t_rows t) (t_body t) (t_events t ++ [(name, tg)]))).

Definition body_rows (b : option (list bnode)) : list nat :=
  match b with
  | Some l => flat_map (fun n => match n with BRow r => [r] | BText => [] end) l
  | None => []
  end.

(** The cells of the row behind a reference. *)
Definition row_cells (this : HierarchyTable) (r : nat) : list cell :=
  match t_rows (source this) !! r with
  | Some row => r_cells row
  | None => []
  end.

Definition row_classes (this : HierarchyTable) (r : nat) : list string :=
  match t_rows (source this) !! r with
  | Some row => r_classes row
  | None => []
  end.

(** [this.data], whose methods throw when it is still [null]. *)
Definition the_data : M (list record) :=
  fun this => match data this with
              | Some d => (Normal d, this)
              | None => (Throw TypeError, this)
              end.

(** The [meta] object of the [i]-th row of [data]. *)
Definition the_meta (i : nat) : M meta :=
  fun this => match data this with
              | Some d => match d !! i with
                          | Some row => (Normal (rmeta row), this)
                          | None => (Beyond Dangling, this)
                          end
              | None => (Beyond Dangling, this)
              end.

Definition update_record (i : nat) (f : record -> record) : M unit :=
  modify (fun this => with_data (alter f i <$> data this) this).

Definition with_meta (f : meta -> meta) (row : record) : record :=
  Rec (cells row) (f (rmeta row)).
Definition set__hidden (b : bool) (m : meta) : meta :=
  Meta (m_row m) (m_id m) (m_flatName m) (m_name m) (m_parent m) (m_level m)
       (m_hasChildren m) b (m_collapsed m).
Definition set__collapsed (v : option bool) (m : meta) : meta :=
  Meta (m_row m) (m_id m) (m_flatName m) (m_name m) (m_parent m) (m_level m)
       (m_hasChildren m) (m_hidden m) v.

(** Positions of the elements that pass a test, as [arr.filter] keeps them. *)
Fixpoint positions {A} (p : A -> bool) (l : list A) (k : nat) : list nat :=
  match l with
  | [] => []
  | x :: l' => if p x then k :: positions p l' (S k) else positions p l' (S k)
  end.

(** Position of the first element that passes a test ([arr.find]). *)
Definition position {A} (p : A -> bool) (l : list A) : option nat :=
  head (positions p l 0).

(** ** The methods of [HierarchyTable] *)

(** [_isNumber(str)].  The conversion goes through [parseFloat]; the model
    keeps it symbolic: [VScalar s] is the number read from [s] when [s] prints
    back with the same length, and the string [s] otherwise. *)
Definition _isNumber (str : string) : cellval :=
  if String.eqb str EmptyString then VNull else VScalar str.

(** [setupMeta({...})] *)
Definition setupMeta (row : nat) (id flatName name parent : string) (level : nat)
    (hidden : bool) (collapsed : option bool) (hasChildren : bool) : meta :=
  Meta row id flatName name parent level hasChildren hidden collapsed.

(** [set hidden(val)] of the [meta] object of [data[i]] *)
Definition set_hidden (i : nat) (val : bool) : M unit :=
  let* m := the_meta i in
  update_record i (with_meta (set__hidden true)) ;;
  if val then row_classList_add (m_row m) "reportal-hidden-row"
  else row_classList_remove (m_row m) "reportal-hidden-row".

(** [set collapsed(val)]; the test [typeof val != undefined] compares a string
    with [undefined] and always holds. *)
Definition set_collapsed (i : nat) (val : bool) : M unit :=
  let* m := the_meta i in
  update_record i (with_meta (set__collapsed (Some val))) ;;
  if val then
    row_classList_add (m_row m) "reportal-collapsed-row" ;;
    row_classList_remove (m_row m) "reportal-uncollapsed-row" ;;
    dispatchEvent (OnRow (m_row m)) "reportal-table-hierarchy-collapsed"
  else
    row_classList_add (m_row m) "reportal-uncollapsed-row" ;;
    row_classList_remove (m_row m) "reportal-collapsed-row" ;;
    dispatchEvent (OnRow (m_row m)) "reportal-table-hierarchy-uncollapsed".

(** [clearLink(row)]: the first link of the row gives its text to its parent. *)
Fixpoint clearLink_cells (cs : list cell) : list cell :=
  match cs with
  | [] => []
  | c :: cs' =>
      match first_link (c_nodes c) with
      | Some t => set_textContent t c :: cs'
      | None => c :: clearLink_cells cs'
      end
  end.

Definition clearLink (row : nat) : M unit :=
  update_row row (with_row_cells clearLink_cells).

(** The array pushed for a row: one value per cell. *)
Definition cell_value (td : cell) : cellval :=
  if forallb (fun n => negb (is_element n)) (c_nodes td)
  then _isNumber (trim (textContent td))
  else VHtml (c_nodes td).

(** [arr[i] = v] *)
Definition array_set (l : list cellval) (i : Z) (v : cellval) : list cellval :=
  if (i <? 0)%Z then l
  else let k := Z.to_nat i in
       if k <? length l then <[k := v]> l
       else l ++ replicate (k - length l) VHole ++ [v].

Definition nodeValue (n : cnode) : option string :=
  match n with NText s => Some s | _ => None end.

(** [updateCategoryLabel(row)]: the label of the cell is read into the local
    [label]; the assignment then writes the new label to [row[this.column]]
    and to that local. *)
Definition updateCategoryLabel (row : record) : M record :=
  let* this := get in
  match NodeList_item (row_cells this (m_row (rmeta row))) (column this) with
  | None => throw TypeError
  | Some cell =>
      let* label :=
        match first_link (c_nodes cell) with
        | Some t => ret (Some t)
        | None =>
            match NodeList_item (c_nodes cell) (Z.of_nat (length (c_nodes cell)) - 1) with
            | Some n => ret (nodeValue n)
            | None => throw TypeError
            end
        end in
      let label := if _flat this then m_flatName (rmeta row) else m_name (rmeta row) in
      ret (Rec (array_set (cells row) (column this) (VString label)) (rmeta row))
  end.

Definition the_record (i : nat) : M record :=
  fun this => match data this with
              | Some d => match d !! i with
                          | Some row => (Normal row, this)
                          | None => (Beyond Dangling, this)
                          end
              | None => (Beyond Dangling, this)
              end.

(** [set flat(flat)] *)
Definition set_flat (flat : bool) : M unit :=
  modify (with_flat flat) ;;
  source_classList (if flat then classList_add "reportal-heirarchy-flat-view"
                    else classList_remove "reportal-heirarchy-flat-view") ;;
  (let* this := get in
   match data this with
   | Some d =>
       forEach (fun i => let* row := the_record i in
                         let* row' := updateCategoryLabel row in
                         update_record i (fun _ => row'))
               (seq 0 (length d))
   | None => ret tt
   end) ;;
  dispatchEvent OnTable (if flat then "reportal-table-hierarchy-flat-view"
                         else "reportal-table-hierarchy-tree-view").

Definition with_cell (f : cell -> cell) (col : Z) (r : tr) : tr :=
  with_row_cells (alter f (Z.to_nat col)) r.

(** [addCollapseButton(meta)]; the click handler is [collapseButton_click]. *)
Definition addCollapseButton (row : nat) : M unit :=
  let* this := get in
  match at_index (row_cells this row) (column this) with
  | None => throw TypeError
  | Some _ =>
      update_row row (with_cell (fun c => Cell (c_classes c) (NButton :: c_nodes c))
                                (column this)) ;;
      update_row row (with_cell (fun c => Cell (classList_add "reportal-hierarchical-cell"
                                                              (c_classes c)) (c_nodes c))
                                (column this))
  end.

(** [this.source.querySelectorAll("tbody>tr")[this.rowheaders[id].index]] *)
Definition lookup_row (id : string) : M nat :=
  let* this := get in
  match rowheaders this !! id with
  | None => throw TypeError
  | Some index =>
      match at_index (body_rows (t_body (source this))) index with
      | Some r => ret r
      | None => throw TypeError
      end
  end.

(** The callback of the [reduce] in [parseHierarchy], up to its recursive
    call: the row is tagged, its array is built and labelled.  The array is
    pushed on [resultArray] before the button is added; [resultArray] is local
    to the traversal, so the push is made by the caller, [parseItem]. *)
Definition parseRow (level : nat) (item : node) : M record :=
  let hasChildren := 0 <? length (n_children item) in
  let* row := lookup_row (n_id item) in
  row_setAttribute row "self-id" (n_id item) ;;
  row_classList_add row ("level" +:+ pretty level) ;;
  when (0 <? level) (row_classList_add row "reportal-hidden-row") ;;
  when (0 <? level) (clearLink row) ;;
  row_classList_add row (if hasChildren then "reportal-collapsed-row"
                         else "reportal-no-children") ;;
  when (0 <? String.length (n_parent item))
       (row_setAttribute row "parent" (n_parent item)) ;;
  let* this := get in
  let currentRowArray :=
    Rec (map cell_value (row_cells this row))
        (setupMeta row (n_id item) (n_name item) (last_label (n_name item))
                   (n_parent item) level true
                   (if hasChildren then Some true else None) hasChildren) in
  addCollapseButton row ;;
  updateCategoryLabel currentRowArray.

(** One step of the [reduce]: the row, then its children while [level < 2]. *)
Fixpoint parseItem (level : nat) (item : node) (resultArray : list record)
  : M (list record) :=
  let* currentRowArray := parseRow level item in
  let resultArray := resultArray ++ [currentRowArray] in
  if level <? 2 then
    (fix parseChildren (hierarchy : list node) (array : list record) : M (list record) :=
       match hierarchy with
       | [] => ret array
       | child :: rest =>
           let* array := parseItem (S level) child array in
           parseChildren rest array
       end) (n_children item) resultArray
  else ret resultArray.

(** [parseHierarchy(hierarchy, level, array)] *)
Fixpoint parseHierarchy (hierarchy : list node) (level : nat) (array : list record)
  : M (list record) :=
  match hierarchy with
  | [] => ret array
  | item :: rest =>
      let* array := parseItem level item array in
      parseHierarchy rest level array
  end.

(** [tbody.appendChild(row)] moves the row to the end of the body. *)
Definition appendChild (r : nat) : M unit :=
  modify (with_source (fun t =>
    Table (t_classes t) (t_rows t)
          ((fun b =>
              List.filter (fun n => match n with BRow r' => negb (r' =? r) | BText => true end)
                          b ++ [BRow r]) <$> t_body t)
          (t_events t))).

Definition remove_leading_text : M unit :=
  modify (with_source (fun t =>
    Table (t_classes t) (t_rows t)
          ((fun b => match b with BText :: b' => b' | b' => b' end) <$> t_body t)
          (t_events t))).

(** [init()]: [data] is assigned first; [tbody.firstChild] is then read, which
    throws on a table without a [tbody]. *)
Definition init : M unit :=
  let* this := get in
  let* d := match data this with
            | Some d => ret d
            | None => parseHierarchy (hierarchy this) 0 []
            end in
  modify (with_data (Some d)) ;;
  let* this := get in
  match t_body (source this) with
  | None => throw TypeError
  | Some _ =>
      remove_leading_text ;;
      forEach (fun row => appendChild (m_row (rmeta row))) d
  end.

(** [setupSearch({enabled, immediate, timeout, searching, query})] *)
Definition setupSearch (enabled immediate : bool) (timeout : Z) (searching : bool)
    (query : string) : searchObj :=
  SearchObj timeout enabled immediate query searching.

(** [set searching(val)] of the search object *)
Definition set_searching (val : bool) : M unit :=
  let* this := get in
  match search this with
  | None => throw TypeError
  | Some s =>
      if Bool.eqb (s_searching s) val then ret tt
      else
        modify (with_search (Some (SearchObj (s_timeout s) (s_enabled s) (s_immediate s)
                                             (s_query s) val))) ;;
        source_classList (classList_toggle "reportal-hierarchy-searching")
  end.

(** [new HierarchyTable({source, hierarchy, rowheaders, hierColumn, flat, search})]:
    the completion of the constructor and the object (with its table) as the
    constructor leaves it. *)
Definition new_HierarchyTable (src : table) (hier : list node) (rh : gmap string Z)
    (hierColumn : Z) (flat : bool) (srch : searchObj)
  : completion unit * HierarchyTable :=
  (set_flat flat ;;
   modify (with_search (Some (setupSearch (s_enabled srch) (s_immediate srch)
                                          (s_timeout srch) (s_searching srch)
                                          (s_query srch)))) ;;
   init)
  (HT src hier rh None hierColumn false None).

(** Defaults of the constructor: [hierColumn = 0], [flat = false], [search = {}]. *)
Definition default_search : searchObj := SearchObj 300 false false EmptyString false.

(** The callback of the [forEach] in [toggleHiddenRows(meta)], [meta] being
    that of [data[i]].  The recursive call is written
    [this.toggleHiddenRows(row.meta)]; no variable [row] is in scope there, so
    evaluating the argument throws before any call is made. *)
Definition toggleChild (i : nat) (childRow : nat) : M unit :=
  let* meta := the_meta i in
  if truthy (m_collapsed meta) then
    set_hidden childRow true ;;
    let* child := the_meta childRow in
    if m_hasChildren child && negb (truthy (m_collapsed child)) then
      set_collapsed childRow true ;;
      throw ReferenceError
    else ret tt
  else set_hidden childRow false.

(** [toggleHiddenRows(meta)] *)
Definition toggleHiddenRows (i : nat) : M unit :=
  let* meta := the_meta i in
  if m_hasChildren meta then
    let* d := the_data in
    forEach (toggleChild i)
            (positions (fun row => String.eqb (m_parent (rmeta row)) (m_id meta)) d 0)
  else ret tt.

(** The click listener installed by [addCollapseButton] for [data[i]]. *)
Definition collapseButton_click (i : nat) : M unit :=
  let* meta := the_meta i in
  set_collapsed i (negb (truthy (m_collapsed meta))) ;;
  toggleHiddenRows i.

(** [uncollapseParents(meta)]; [fuel] bounds the depth of the recursion. *)
Fixpoint uncollapseParents (fuel : nat) (i : nat) : M unit :=
  match fuel with
  | 0 => beyond OutOfFuel
  | S fuel =>
      let* meta := the_meta i in
      if 0 <? String.length (m_parent meta) then
        let* d := the_data in
        match position (fun row => String.eqb (m_id (rmeta row)) (m_parent meta)) d with
        | None => throw TypeError
        | Some p =>
            let* parent := the_meta p in
            when (truthy (m_collapsed parent)) (set_collapsed p false) ;;
            row_classList_add (m_row parent) "matched-search" ;;
            uncollapseParents fuel p
        end
      else ret tt
  end.

(** [displayChildren(meta)] *)
Fixpoint displayChildren (fuel : nat) (i : nat) : M unit :=
  match fuel with
  | 0 => beyond OutOfFuel
  | S fuel =>
      let* meta := the_meta i in
      if m_hasChildren meta then
        let* d := the_data in
        forEach (fun child =>
                   let* cm := the_meta child in
                   row_classList_add (m_row cm) "matched-search" ;;
                   displayChildren fuel child)
                (positions (fun row => String.eqb (m_parent (rmeta row)) (m_id meta)) d 0)
      else ret tt
  end.

(** The rows kept by the [filter] of [searchRowheaders]. *)
Definition matched_rows (this : HierarchyTable) (str : string) (d : list record) : list nat :=
  positions (fun row => if _flat this then str_match str (m_flatName (rmeta row))
                        else str_match str (m_name (rmeta row))) d 0.

(** [searchRowheaders(str)] *)
Definition searchRowheaders (fuel : nat) (str : string) : M unit :=
  if literal_pattern str then
    let* this := get in
    let* d := the_data in
    forEach (fun i =>
               let* m := the_meta i in
               row_classList_add (m_row m) "matched-search" ;;
               uncollapseParents fuel i ;;
               displayChildren fuel i)
            (matched_rows this str d)
  else beyond UnsupportedPattern.

(** ** User actions *)

(** What can happen to a built table: a click on the collapse button of
    [data[i]], an assignment to [flat], a search, a direct assignment to the
    [hidden] or [collapsed] accessor of a row. *)
Inductive action :=
| Click (i : nat)
| SetFlat (flat : bool)
| Search (fuel : nat) (str : string)
| SetHidden (i : nat) (val : bool)
| SetCollapsed (i : nat) (val : bool).

Definition perform (a : action) : M unit :=
  match a with
  | Click i => collapseButton_click i
  | SetFlat flat => set_flat flat
  | Search fuel str => searchRowheaders fuel str
  | SetHidden i val => set_hidden i val
  | SetCollapsed i val => set_collapsed i val
  end.

(** Actions run one after the other; an exception ends its own handler only,
    the state it leaves is the state the next action starts from. *)
Definition run (acts : list action) (this : HierarchyTable) : HierarchyTable :=
  fold_left (fun s a => snd (perform a s)) acts this.

(** ** Observations *)

Definition records (this : HierarchyTable) : list record :=
  match data this with Some d => d | None => [] end.

(** [data[i].meta.hidden] and [data[i].meta.collapsed], read through the getters. *)
Definition hidden_at (this : HierarchyTable) (i : nat) : option bool :=
  (fun row => m_hidden (rmeta row)) <$> records this !! i.
Definition collapsed_at (this : HierarchyTable) (i : nat) : option bool :=
  records this !! i ≫= (fun row => m_collapsed (rmeta row)).

(** Marker classes of the row behind a reference. *)
Definition hidden_marker (this : HierarchyTable) (r : nat) : bool :=
  classList_contains "reportal-hidden-row" (row_classes this r).
Definition highlighted (this : HierarchyTable) (r : nat) : bool :=
  classList_contains "matched-search" (row_classes this r).

(** The text shown by the hierarchy cell of a row. *)
Definition header_text (this : HierarchyTable) (r : nat) : option string :=
  textContent <$> at_index (row_cells this r) (column this).

Fixpoint getAttribute (k : string) (l : list (string * string)) : option string :=
  match l with
  | [] => None
  | (k', v) :: l' => if String.eqb k k' then Some v else getAttribute k l'
  end.

Definition row_attribute (this : HierarchyTable) (r : nat) (k : string) : option string :=
  t_rows (source this) !! r ≫= (fun row => getAttribute k (r_attrs row)).

Definition all_hidden (this : HierarchyTable) : bool :=
  forallb (fun row => m_hidden (rmeta row)) (records this).

(** ** The traversal order of the specification *)

(** The forest cut below a depth: a node at depth [depth] loses its children. *)
Fixpoint truncate (depth : nat) (n : node) : node :=
  Node (n_id n) (n_name n) (n_parent n)
       (match depth with
        | 0 => []
        | S d => map (truncate d) (n_children n)
        end).

(** Depth-first pre-order, every node with its level. *)
Fixpoint preorder (level : nat) (n : node) : list (nat * string) :=
  (level, n_id n) :: flat_map (preorder (S level)) (n_children n).

(** A node can be built when the index map sends its id to a row of the body
    that has a cell in the hierarchy column. *)
Definition resolves (this : HierarchyTable) (id : string) : bool :=
  match rowheaders this !! id with
  | None => false
  | Some index =>
      match at_index (body_rows (t_body (source this))) index with
      | None => false
      | Some r =>
          match at_index (row_cells this r) (column this) with
          | Some _ => true
          | None => false
          end
      end
  end.

(** A forest can be built when every node of its first three levels can, the
    column index being one that [item] reads as it is. *)
Definition resolvable (this : HierarchyTable) (hier : list node) : bool :=
  (column this <? 4294967296)%Z &&
  forallb (fun p => resolves this (snd p))
          (flat_map (preorder 0) (map (truncate 2) hier)).

(** Ancestors of [data[i]] as [uncollapseParents] finds them: the first row
    whose id is the parent id, then its ancestors. *)
Fixpoint ancestors (fuel : nat) (d : list record) (i : nat) : option (list nat) :=
  match fuel with
  | 0 => None
  | S fuel =>
      match d !! i with
      | None => None
      | Some row =>
          if 0 <? String.length (m_parent (rmeta row)) then
            match position (fun r => String.eqb (m_id (rmeta r)) (m_parent (rmeta row))) d with
            | None => None
            | Some p => cons p <$> ancestors fuel d p
            end
          else Some []
      end
  end.

(** Every row of [data] refers to a row of the table. *)
Definition rows_exist (this : HierarchyTable) : bool :=
  forallb (fun row => m_row (rmeta row) <? length (t_rows (source this))) (records this).

(** The rows of [data] that [toggleHiddenRows] treats as children of [row]. *)
Definition is_child_of (row child : record) : bool :=
  String.eqb (m_parent (rmeta child)) (m_id (rmeta row)).

(** The children of [row] that have children read as collapsed. *)
Definition children_collapsed (this : HierarchyTable) (row : record) : bool :=
  forallb (fun child => implb (is_child_of row child && m_hasChildren (rmeta child))
                              (truthy (m_collapsed (rmeta child))))
          (records this).

(** The rows of the children of [row] all have, or all lack, the hidden marker. *)
Definition children_marked (this : HierarchyTable) (row : record) (b : bool) : bool :=
  forallb (fun child => implb (is_child_of row child)
                              (Bool.eqb (hidden_marker this (m_row (rmeta child))) b))
          (records this).

(** Level and id of a built row. *)
Definition summary (row : record) : nat * string :=
  (m_level (rmeta row), m_id (rmeta row)).

(** ** Sample tables *)

Module Sample.

Definition link_row (label value : string) : tr :=
  Tr [] [] [Cell [] [NLink label]; Cell [] [NText value]].

(** The forest of the specification: a root [A] with one child [B]. *)
Definition region_table : table :=
  Table [] [link_row "Region" "12"; link_row "Region/North" "7"]
        (Some [BText; BRow 0; BRow 1]) [].
Definition region_forest : list node :=
  [Node "A" "Region" "" [Node "B" "Region/North" "A" []]].
Definition region_index : gmap string Z := {[ "A" := 0%Z; "B" := 1%Z ]}.

Definition region : HierarchyTable :=
  snd (new_HierarchyTable region_table region_forest region_index 0 false default_search).

(** Three levels: [A] has the children [B] and [D], [B] has the child [C]. *)
Definition area_table : table :=
  Table [] [link_row "Area" "1"; link_row "Area/East" "2";
            link_row "Area/East/Port" "3"; link_row "Area/West" "4"]
        (Some [BRow 0; BRow 1; BRow 2; BRow 3]) [].
Definition area_forest : list node :=
  [Node "A" "Area" ""
     [Node "B" "Area/East" "A" [Node "C" "Area/East/Port" "B" []];
      Node "D" "Area/West" "A" []]].
Definition area_index : gmap string Z :=
  {[ "A" := 0%Z; "B" := 1%Z; "C" := 2%Z; "D" := 3%Z ]}.

Definition area : HierarchyTable :=
  snd (new_HierarchyTable area_table area_forest area_index 0 false default_search).

(** [A] and then [B] expanded by a click each. *)
Definition area_expanded : HierarchyTable := run [Click 0; Click 1] area.

End Sample.

(** ** The claims of the specification that the code does not meet, as
    propositions about a given table *)

(** Two clicks on the button of [data[i]] give every child row its [hidden]
    and [collapsed] state back. *)
Definition double_toggle_restores (this : HierarchyTable) (i : nat) : Prop :=
  forall j row child,
    records this !! i = Some row -> records this !! j = Some child ->
    is_child_of row child = true ->
    let after := run [Click i; Click i] this in
    hidden_at after j = hidden_at this j /\ collapsed_at after j = collapsed_at this j.

(** A search leaves no matched row hidden. *)
Definition search_reveals (this : HierarchyTable) (fuel : nat) (str : string) : Prop :=
  forall i row,
    In i (matched_rows this str (records this)) -> records this !! i = Some row ->
    hidden_marker (snd (searchRowheaders fuel str this)) (m_row (rmeta row)) = false.

(** A search for the empty string matches nothing and changes nothing. *)
Definition empty_search_matches_nothing (this : HierarchyTable) (fuel : nat) : Prop :=
  matched_rows this EmptyString (records this) = [] /\
  let after := snd (searchRowheaders fuel EmptyString this) in
  (forall r, highlighted after r = highlighted this r) /\
  (forall i, collapsed_at after i = collapsed_at this i).

(** A negative column index is refused with a [ConfigError] and the table is
    as it was. *)
Definition config_checked (src : table) (hier : list node) (rh : gmap string Z)
    (hierColumn : Z) (flat : bool) (srch : searchObj) : Prop :=
  (hierColumn < 0)%Z ->
  let result := new_HierarchyTable src hier rh hierColumn flat srch in
  fst result = Throw (NamedError "ConfigError") /\ source (snd result) = src.

(** ** Reasoning about state transformers *)

(** [wp m Q this]: the completion of [m] from [this] and the state it leaves
    satisfy [Q]. *)
Definition wp {A} (m : M A) (Q : completion A -> HierarchyTable -> Prop)
    (this : HierarchyTable) : Prop :=
  Q (fst (m this)) (snd (m this)).

(** [m] keeps [I], however it completes. *)
Definition preserves {A} (I : HierarchyTable -> Prop) (m : M A) : Prop :=
  forall this, I this -> I (snd (m this)).

(** ** Definitions used by the proofs *)

(** Every row of [data] has its [_hidden] variable at [true]. *)
Definition hidden_inv (this : HierarchyTable) : Prop :=
  Forall (fun row => m_hidden (rmeta row) = true) (records this).

(** The number of cells of every row of the table. *)
Definition cell_counts (t : table) : list nat :=
  map (fun r => length (r_cells r)) (t_rows t).

(** Everything the traversal reads to find and accept a row: the fields of the
    object, the order of the body and the number of cells of every row. *)
Definition frame (this : HierarchyTable) :=
  (hierarchy this, rowheaders this, data this, column this, _flat this, search this,
   t_body (source this), cell_counts (source this)).

(** [m] completes normally and keeps [I]. *)
Definition steady (I : HierarchyTable -> Prop) (m : M unit) : Prop :=
  forall this, I this -> fst (m this) = Normal tt /\ I (snd (m this)).

(** Induction on a hierarchy node with the hypothesis for every child. *)
Fixpoint node_ind (P : node -> Prop)
    (step : forall id name parent children,
        Forall P children -> P (Node id name parent children))
    (n : node) : P n :=
  match n with
  | Node id name parent children =>
      step id name parent children
           ((fix all (l : list node) : Forall P l :=
               match l with
               | [] => @List.Forall_nil node P
               | c :: l' => @List.Forall_cons node P c l' (node_ind P step c) (all l')
               end) children)
  end.

(** The frame of a state is a given one. *)
Definition framed
    (fr : list node * gmap string Z * option (list record) * Z * bool *
          option searchObj * option (list bnode) * list nat)
    (this : HierarchyTable) : Prop :=
  frame this = fr.

(** Every id of a list of levelled ids can be built. *)
Definition all_resolve (this : HierarchyTable) (l : list (nat * string)) : bool :=
  forallb (fun p => resolves this (snd p)) l.

(** Rows are appended for a node, cut [depth] levels below it, in pre-order. *)
Definition builds (level depth : nat) (item : node) : Prop :=
  forall array this,
    (column this < 4294967296)%Z ->
    all_resolve this (preorder level (truncate depth item)) = true ->
    exists rows this',
      parseItem level item array this = (Normal (array ++ rows), this') /\
      frame this' = frame this /\
      map summary rows = preorder level (truncate depth item).

(** A traversal of a node that completes appends its rows, cut [depth] levels
    below it, in pre-order. *)
Definition orders (level depth : nat) (item : node) : Prop :=
  forall array this rows this',
    parseItem level item array this = (Normal rows, this') ->
    exists new, rows = array ++ new /\
                map summary new = preorder level (truncate depth item).

(** [m] leaves [this.data] as it is. *)
Definition keeps_data {A} (m : M A) : Prop :=
  forall this, data (snd (m this)) = data this.

(** Every row of a result array has its [_hidden] variable at [true]. *)
Definition hidden_rows (rows : list record) : Prop :=
  Forall (fun row => m_hidden (rmeta row) = true) rows.

(** The traversal of a node keeps [this.data] and appends rows with [_hidden]
    at [true] only. *)
Definition builds_hidden (item : node) : Prop :=
  forall level array this,
    data (snd (parseItem level item array this)) = data this /\
    forall rows, fst (parseItem level item array this) = Normal rows ->
                 hidden_rows array -> hidden_rows rows.

(** The row [r] carries the id [id]; column and [data] are those of [this]. *)
Definition tagged (this : HierarchyTable) (r : nat) (id : string)
    (s : HierarchyTable) : Prop :=
  column s = column this /\ data s = data this /\
  row_attribute s r "self-id" = Some id.

(** The row behind a reference carries the class [c]. *)
Definition marker (c : string) (this : HierarchyTable) (r : nat) : bool :=
  classList_contains c (row_classes this r).

(** A row without its [collapsed] flag: what no setter but [collapsed]'s can
    tell apart. *)
Definition unflagged (row : record) : record := with_meta (set__collapsed None) row.
Definition skeleton (d : list record) : list record := map unflagged d.

(** The table row behind [data[c]]. *)
Definition row_ref (d : list record) (c : nat) : nat :=
  match d !! c with
  | Some child => m_row (rmeta child)
  | None => 0
  end.

(** The rows of [path] that read [collapsed] as true: the ones that
    [uncollapseParents] assigns [false] through the setter. *)
Definition expanded_by (this : HierarchyTable) (path : list nat) : list nat :=
  List.filter (fun p => truthy (collapsed_at this p)) path.

(** What the [collapsed] setter leaves behind when it is assigned [false] on
    [data[p]], whose table row is [r]: the flag reads [false], the row carries
    the class of an expanded row and not the class of a collapsed one, and the
    event of an expansion was dispatched on the row. *)
Definition expanded (p r : nat) (s : HierarchyTable) : Prop :=
  collapsed_at s p = Some false /\
  marker "reportal-uncollapsed-row" s r = true /\
  marker "reportal-collapsed-row" s r = false /\
  In ("reportal-table-hierarchy-uncollapsed", OnRow r) (t_events (source s)).

(** The rows of [data] but for their [collapsed] flags, and the number of
    table rows, are those of [this]. *)
Definition same_frame (this s : HierarchyTable) : Prop :=
  skeleton (records s) = skeleton (records this) /\
  length (t_rows (source s)) = length (t_rows (source this)).

(** A row of the frame that read [collapsed] as true either still does or
    has been expanded through the setter. *)
Definition pending (this : HierarchyTable) (p : nat) (s : HierarchyTable) : Prop :=
  same_frame this s /\
  (truthy (collapsed_at s p) = true \/ expanded p (row_ref (records this) p) s).

(** A child row of [data] whose [hidden] flag is set. *)
Definition present (this : HierarchyTable) (c : nat) : Prop :=
  exists child, records this !! c = Some child /\ m_hidden (rmeta child) = true.

(** A child the loop of [toggleHiddenRows] can pass without cascading. *)
Definition settled (this : HierarchyTable) (c : nat) : Prop :=
  exists child,
    records this !! c = Some child /\ m_hidden (rmeta child) = true /\
    (m_hasChildren (rmeta child) = true -> truthy (m_collapsed (rmeta child)) = true).

(** The rows of [data], their [collapsed] flag apart, and the hidden markers
    of the table are those of [this]. *)
Definition unchanged (this s : HierarchyTable) : Prop :=
  skeleton (records s) = skeleton (records this) /\
  forall r, hidden_marker s r = hidden_marker this r.

(** The table rows of the children of [row]. *)
Definition child_rows (this : HierarchyTable) (row : record) : list nat :=
  map (row_ref (records this)) (positions (is_child_of row) (records this) 0).

(** Every child of [row] with children, [data[i]] apart, reads as collapsed. *)
Definition others_collapsed (this : HierarchyTable) (i : nat) (row : record) : Prop :=
  forall c child,
    c <> i -> records this !! c = Some child -> is_child_of row child = true ->
    m_hasChildren (rmeta child) = true -> truthy (m_collapsed (rmeta child)) = true.

(** ** Definitions for the further properties *)

(** The classes [parseHierarchy] adds to the row of a node. *)
Definition classes_added (level : nat) (hasChildren : bool) : list string :=
  ["level" +:+ pretty level] ++
  (if 0 <? level then ["reportal-hidden-row"] else []) ++
  [if hasChildren then "reportal-collapsed-row" else "reportal-no-children"].

(** What the callback of [parseHierarchy] writes on the row of a node before
    the button is added: attributes, classes, the cleared link. *)
Definition tag_row (level : nat) (item : node) (x : tr) : tr :=
  let x := with_row_attrs (setAttribute "self-id" (n_id item)) x in
  let x := with_row_classes (classList_add ("level" +:+ pretty level)) x in
  let x := if 0 <? level
           then with_row_classes (classList_add "reportal-hidden-row") x else x in
  let x := if 0 <? level then with_row_cells clearLink_cells x else x in
  let x := with_row_classes
             (classList_add (if 0 <? length (n_children item)
                             then "reportal-collapsed-row" else "reportal-no-children")) x in
  if 0 <? String.length (n_parent item)
  then with_row_attrs (setAttribute "parent" (n_parent item)) x else x.

(** What [addCollapseButton] writes on a row. *)
Definition add_button (col : Z) (x : tr) : tr :=
  with_cell (fun c => Cell (classList_add "reportal-hierarchical-cell" (c_classes c))
                           (c_nodes c)) col
    (with_cell (fun c => Cell (c_classes c) (NButton :: c_nodes c)) col x).

(** The row of a node as the callback leaves it. *)
Definition built_row (this : HierarchyTable) (level : nat) (item : node) (x : tr) : tr :=
  add_button (column this) (tag_row level item x).

(** The traversal as the sequence of rows it builds: [built this rows this']
    when [parseRow], run for one node after the other from [this], returns the
    rows [rows] and leaves [this']. *)
Inductive built : HierarchyTable -> list record -> HierarchyTable -> Prop :=
| built_nil this : built this [] this
| built_cons this level item row s rows this' :
    parseRow level item this = (Normal row, s) ->
    built s rows this' ->
    built this (row :: rows) this'.

(** A traversal of a node that completes is such a sequence. *)
Definition sequenced (item : node) : Prop :=
  forall level array this rows this',
    parseItem level item array this = (Normal rows, this') ->
    exists new, rows = array ++ new /\ built this new this'.

(** What no action on a built table changes: the table rows but for their
    classes, the body, the rows of [data] but for their cells and their
    [hidden] and [collapsed] variables, and the configuration. *)
Definition fixed_part (this : HierarchyTable) :=
  (map (fun x => (r_attrs x, r_cells x)) (t_rows (source this)), t_body (source this),
   map (fun row => set__collapsed None (set__hidden true (rmeta row))) (records this),
   match data this with Some _ => true | None => false end,
   hierarchy this, rowheaders this, column this).

(** The classes the accessors and the search add to a row, and those the
    accessors remove. *)
Definition row_classes_set : list string :=
  ["reportal-hidden-row"; "reportal-collapsed-row"; "reportal-uncollapsed-row";
   "matched-search"].
Definition row_classes_unset : list string :=
  ["reportal-hidden-row"; "reportal-collapsed-row"; "reportal-uncollapsed-row"].

(** The callback of the [forEach] in [set flat]. *)
Definition relabel (i : nat) : M unit :=
  let* row := the_record i in
  let* row' := updateCategoryLabel row in
  update_record i (fun _ => row').

(** The object as the constructor hands it to [init]: [flat] assigned, the
    search object set up, [data] still [null]. *)
Definition started (src : table) (hier : list node) (rh : gmap string Z)
    (hierColumn : Z) (flat : bool) (srch : searchObj) : HierarchyTable :=
  HT (Table (if flat then classList_add "reportal-heirarchy-flat-view" (t_classes src)
             else classList_remove "reportal-heirarchy-flat-view" (t_classes src))
            (t_rows src) (t_body src)
            (t_events src ++
             [(if flat then "reportal-table-hierarchy-flat-view"
               else "reportal-table-hierarchy-tree-view", OnTable)]))
     hier rh None hierColumn flat
     (Some (setupSearch (s_enabled srch) (s_immediate srch) (s_timeout srch)
                        (s_searching srch) (s_query srch))).

(** The body after [appendChild] of one row, and of the rows of a list in turn. *)
Definition append_row (b : list bnode) (r : nat) : list bnode :=
  List.filter (fun n => match n with BRow r' => negb (r' =? r) | BText => true end) b
  ++ [BRow r].
Definition append_rows (rs : list nat) (b : list bnode) : list bnode :=
  fold_left append_row rs b.

(** The body without a leading text node. *)
Definition drop_text (b : list bnode) : list bnode :=
  match b with BText :: b' => b' | _ => b end.

(** The node is a row other than those of a list. *)
Definition other_than (rs : list nat) (n : bnode) : bool :=
  match n with
  | BRow r => negb (existsb (Nat.eqb r) rs)
  | BText => true
  end.

(** The hierarchy cell of a table row exists and has a child node. *)
Definition cell_ready (this : HierarchyTable) (r : nat) : bool :=
  match at_index (row_cells this r) (column this) with
  | Some c => match c_nodes c with [] => false | _ => true end
  | None => false
  end.

(** The rows of a list that refer to the table row [r] and add the class [c]. *)
Definition adds_class (c : string) (r : nat) (rows : list record) : bool :=
  existsb (fun row => (r =? m_row (rmeta row)) &&
                      existsb (String.eqb c)
                              (classes_added (m_level (rmeta row))
                                             (m_hasChildren (rmeta row))))
          rows.

(** A row of the table, before any object is built on it, carries a class. *)
Definition table_marker (c : string) (t : table) (r : nat) : bool :=
  classList_contains c (match t_rows t !! r with Some x => r_classes x | None => [] end).

(** Every row of [data] refers to a row of the table whose hierarchy cell is
    there and has a child node. *)
Definition well_built (this : HierarchyTable) : bool :=
  forallb (fun row => (m_row (rmeta row) <? length (t_rows (source this))) &&
                      cell_ready this (m_row (rmeta row)))
          (records this).

(** The array of a row with the label of a mode in the hierarchy column. *)
Definition labelled (flat : bool) (col : Z) (row : record) : record :=
  Rec (array_set (cells row) col
                 (VString (if flat then m_flatName (rmeta row) else m_name (rmeta row))))
      (rmeta row).

(** The object after an assignment to [flat] that completes. *)
Definition flat_view (flat : bool) (this : HierarchyTable) : HierarchyTable :=
  HT (Table (if flat then classList_add "reportal-heirarchy-flat-view" (t_classes (source this))
             else classList_remove "reportal-heirarchy-flat-view" (t_classes (source this)))
            (t_rows (source this)) (t_body (source this))
            (t_events (source this) ++
             [(if flat then "reportal-table-hierarchy-flat-view"
               else "reportal-table-hierarchy-tree-view", OnTable)]))
     (hierarchy this) (rowheaders this)
     (map (labelled flat (column this)) <$> data this)
     (column this) flat (search this).

(** Everything of the object and its table but the rows of the table
    themselves. *)
Definition outside_rows (this : HierarchyTable) :=
  (hierarchy this, rowheaders this, data this, column this, _flat this, search this,
   t_classes (source this), t_body (source this), t_events (source this),
   length (t_rows (source this))).

(** The array of every row of [data] holds, in the hierarchy column, the label
    of the current mode. *)
Definition labels_current (this : HierarchyTable) : Prop :=
  Forall (fun row => at_index (cells row) (column this) =
                     Some (VString (if _flat this then m_flatName (rmeta row)
                                    else m_name (rmeta row))))
         (records this).

(** A table whose column index fits the [unsigned long] of [item], whose rows
    of [data] are well built and labelled for the current mode. *)
Definition labelled_table (this : HierarchyTable) : Prop :=
  (column this < 4294967296)%Z /\ well_built this = true /\ labels_current this.

(** A table built from a forest whose only node names a parent that is not in
    the forest. *)
Definition orphan : HierarchyTable :=
  snd (new_HierarchyTable Sample.region_table [Node "B" "Region/North" "A" []]
         Sample.region_index 0 false default_search).

(** The character occurs in the string. *)
Fixpoint occurs (c : ascii) (s : string) : bool :=
  match s with
  | EmptyString => false
  | String c' s' => Ascii.eqb c' c || occurs c s'
  end.

(** The collapsed and uncollapsed classes of the table row [r] agree with a
    value of [collapsed]; nothing is asked for [undefined]. *)
Definition collapse_class_ok (this : HierarchyTable) (r : nat) (v : option bool) : bool :=
  match v with
  | Some b =>
      Bool.eqb (classList_contains "reportal-collapsed-row" (row_classes this r)) b &&
      Bool.eqb (classList_contains "reportal-uncollapsed-row" (row_classes this r)) (negb b)
  | None => true
  end.

(** The classes of the row of every row of [data] agree with its [collapsed]. *)
Definition collapse_marked (this : HierarchyTable) : bool :=
  forallb (fun row => collapse_class_ok this (m_row (rmeta row)) (m_collapsed (rmeta row)))
          (records this).

(** The table rows the rows of [data] refer to. *)
Definition row_refs (this : HierarchyTable) : list nat :=
  map (fun row => m_row (rmeta row)) (records this).

(** A table on which the classes follow [collapsed]: well built, no two rows
    of [data] on one table row, the classes in agreement. *)
Definition tidy (this : HierarchyTable) : Prop :=
  well_built this = true /\ List.NoDup (row_refs this) /\ collapse_marked this = true.

(** The row [uncollapseParents] goes to from [data[j]], if any. *)
Definition parent_step (d : list record) (j : nat) : option nat :=
  match d !! j with
  | Some row =>
      if 0 <? String.length (m_parent (rmeta row))
      then position (fun r => String.eqb (m_id (rmeta r)) (m_parent (rmeta row))) d
      else None
  | None => None
  end.

(** From every row of the list the walk up the parents goes to a row of the
    list. *)
Definition closed_under_parents (d : list record) (cyc : list nat) : bool :=
  forallb (fun j => match parent_step d j with
                    | Some p => existsb (Nat.eqb p) cyc
                    | None => false
                    end) cyc.

(** A table built from a node that names itself as its parent. *)
Definition looped : HierarchyTable :=
  snd (new_HierarchyTable Sample.region_table [Node "A" "Region" "A" []]
         Sample.region_index 0 false default_search).

(** * SignificantChangesAlerts: the cards built from the marked cells of a table

    The class reads a table, pushes one alert for every marked cell and adds
    one card per alert to a container; the model keeps what it reads and
    writes.  A row is the list of its element children; rendered text
    ([innerText]) and measured heights ([clientHeight]) are given by the page,
    the first as a field of a cell, the second as a function of the position
    of an element among those selected.  Cells hold no table of their own,
    and the container holds cards only. *)

Module Alerts.

(** An element child of a row: whether it is a [td], its classes, its rendered
    text and its first element child (an element named by a number), if any. *)
Record acell := ACell {
  a_td : bool;
  a_classes : list string;
  a_innerText : string;
  a_firstElementChild : option nat
}.

(** A section of the table: whether it is a [tbody], and its rows. *)
Record asection := ASection {
  in_tbody : bool;
  sec_rows : list (list acell)
}.

Record alert := Alert {
  categoryText : string;
  changesText : string;
  drilldownRef : option nat
}.

(** A card: the text assigned to its category part, the markup assigned to
    its changes part, the element its click is passed on to, and the
    [style.height] of the two parts. *)
Record card := Card {
  card_category : string;
  card_changes : string;
  card_target : option nat;
  category_height : option string;
  changes_height : option string
}.

Record box := Box {
  className : string;
  cards : list card
}.

(** The object: [table] and [container] are what [getElementById] returned,
    [None] for [null]. *)
Record widget := Widget {
  w_table : option (list asection);
  w_container : option box;
  w_alerts : list alert
}.

Definition nl : string := String "010" EmptyString.
Definition dq : string := String "034" EmptyString.

(** [changeTypesArray] *)
Definition changeTypesArray : list (string * string) :=
  [("increasingC", "<span class=" +:+ dq +:+ "alert-card__increasing" +:+ dq +:+
                   ">increased</span> in Volume");
   ("increasingS", "<span class=" +:+ dq +:+ "alert-card__increasing" +:+ dq +:+
                   ">increased</span> in Sentiment");
   ("decreasingC", "<span class=" +:+ dq +:+ "alert-card__decreasing" +:+ dq +:+
                   ">decreased</span> in Volume");
   ("decreasingS", "<span class=" +:+ dq +:+ "alert-card__decreasing" +:+ dq +:+
                   ">decreased</span> in Sentiment")].

(** The selector list of [getDataFromTable] on one element of a row that is
    the last child: the first selector starts at [body], the other three at
    [tbody]. *)
Definition selected (tbody : bool) (c : acell) : bool :=
  a_td c &&
  (classList_contains "increasingC" (a_classes c) ||
   tbody && (classList_contains "decreasingC" (a_classes c) ||
             classList_contains "increasingS" (a_classes c) ||
             classList_contains "decreasingS" (a_classes c))).

(** [querySelectorAll] of that selector list: the selected last children, in
    document order, each with its row. *)
Definition markedCells (t : list asection) : list (list acell * acell) :=
  flat_map (fun s =>
              flat_map (fun row => match last row with
                                   | Some c => if selected (in_tbody s) c then [(row, c)] else []
                                   | None => []
                                   end)
                       (sec_rows s))
           t.

(** The two texts of an alert, accumulated as the loops do. *)
Definition category_text (innerText : string) : string :=
  fold_left (fun categoryText categoryLevel => categoryText +:+ (trim categoryLevel +:+ nl))
            (split "|" innerText) EmptyString.

Definition changes_text (classes : list string) : string :=
  fold_left (fun changesText classItem =>
               if classList_contains (fst classItem) classes
               then changesText +:+ (snd classItem +:+ "<br>")
               else changesText)
            changeTypesArray EmptyString.

(** [getDataFromTable()] *)
Definition getDataFromTable : JS widget unit :=
  let* this := get in
  match w_table this with
  | None => throw TypeError
  | Some t =>
      forEach (fun p : list acell * acell =>
                 match head (fst p) with
                 | None => throw TypeError
                 | Some first =>
                     modify (fun this =>
                       Widget (w_table this) (w_container this)
                              (w_alerts this ++
                               [Alert (category_text (a_innerText first))
                                      (changes_text (a_classes (snd p)))
                                      (a_firstElementChild first)]))
                 end)
              (markedCells t)
  end.

(** The card of an alert as [createCards] appends it. *)
Definition card_of (alertItem : alert) : card :=
  Card (categoryText alertItem) (changesText alertItem) (drilldownRef alertItem) None None.

(** [createCards()] *)
Definition createCards : JS widget unit :=
  let* this := get in
  forEach (fun alertItem =>
             let* this := get in
             match w_container this with
             | None => throw TypeError
             | Some k =>
                 modify (fun this =>
                   Widget (w_table this)
                          (Some (Box (className k +:+ " alerts-content")
                                     (cards k ++ [card_of alertItem])))
                          (w_alerts this))
             end)
          (w_alerts this).

(** The [onclick] of a card: [alertItem.drilldownRef.click()]; the result is
    the element clicked. *)
Definition card_click (c : card) : completion nat :=
  match card_target c with
  | Some e => Normal e
  | None => Throw TypeError
  end.

(** [arr.reduce((res, cur) => cur.clientHeight > res.clientHeight ? cur : res)]
    on the elements [0 .. n-1] with the heights [h], without initial value:
    the position of the element kept, nothing on the empty array. *)
Definition reduce_max (h : nat -> nat) (n : nat) : option nat :=
  match seq 0 n with
  | [] => None
  | first :: rest => Some (fold_left (fun res cur => if h res <? h cur then cur else res)
                                     rest first)
  end.

Definition set_category_height (v : string) (c : card) : card :=
  Card (card_category c) (card_changes c) (card_target c) (Some v) (changes_height c).
Definition set_changes_height (v : string) (c : card) : card :=
  Card (card_category c) (card_changes c) (card_target c) (category_height c) (Some v).

(** [setCardsHeight()]; [hcat i] and [hchg i] are the [clientHeight] of the
    [i]-th category part and of the [i]-th changes part of the container. *)
Definition setCardsHeight (hcat hchg : nat -> nat) : JS widget unit :=
  let* this := get in
  match w_container this with
  | None => throw TypeError
  | Some k =>
      match reduce_max hcat (length (cards k)) with
      | None => throw TypeError
      | Some m =>
          let k := Box (className k)
                       (map (set_category_height (pretty (hcat m) +:+ "px")) (cards k)) in
          modify (fun this => Widget (w_table this) (Some k) (w_alerts this)) ;;
          match reduce_max hchg (length (cards k)) with
          | None => throw TypeError
          | Some m' =>
              modify (fun this =>
                Widget (w_table this)
                       (Some (Box (className k)
                                  (map (set_changes_height (pretty (hchg m') +:+ "px"))
                                       (cards k))))
                       (w_alerts this))
          end
      end
  end.

(** [new SignificantChangesAlerts({tableId, containerId})] *)
Definition new_SignificantChangesAlerts (tbl : option (list asection)) (k : option box)
    (hcat hchg : nat -> nat) : completion unit * widget :=
  (getDataFromTable ;; createCards ;; setCardsHeight hcat hchg) (Widget tbl k []).

(** The alert pushed for a marked cell of a row. *)
Definition alert_of (p : list acell * acell) : list alert :=
  match head (fst p) with
  | Some first => [Alert (category_text (a_innerText first))
                         (changes_text (a_classes (snd p)))
                         (a_firstElementChild first)]
  | None => []
  end.

(** The alerts of a table: those of its marked cells, in document order. *)
Definition alerts_of (t : list asection) : list alert :=
  flat_map alert_of (markedCells t).

(** What of a card does not depend on the layout. *)
Definition card_content (c : card) : string * string * option nat :=
  (card_category c, card_changes c, card_target c).

(** A string repeated. *)
Fixpoint repeated (n : nat) (s : string) : string :=
  match n with
  | 0 => EmptyString
  | S n => s +:+ repeated n s
  end.

End Alerts.

(** [s'] is further in a search than [s]: the rows of [data] are the same but
    for [collapsed], [data] is set in both or in none, the mode and the number
    of table rows are the same, no row reads as collapsed that did not, and
    every highlight is kept. *)
Definition ahead (s s' : HierarchyTable) : Prop :=
  skeleton (records s') = skeleton (records s) /\
  (data s' = None <-> data s = None) /\
  _flat s' = _flat s /\
  length (t_rows (source s')) = length (t_rows (source s)) /\
  (forall j, truthy (collapsed_at s' j) = true -> truthy (collapsed_at s j) = true) /\
  (forall r, highlighted s r = true -> highlighted s' r = true).

(** A step of a search: when it completes it has moved further, and run
    again from any state further than the one it reached it changes nothing. *)
Definition replays (m : M unit) : Prop :=
  forall s s', m s = (Normal tt, s') ->
    ahead s s' /\ forall s'', ahead s' s'' -> m s'' = (Normal tt, s'').

Lemma wp_bind {A B} (m : M A) (k : A -> M B) Q this :
  wp m (fun c s => match c with
                   | Normal a => wp (k a) Q s
                   | Throw e => Q (Throw e) s
                   | Beyond l => Q (Beyond l) s
                   end) this ->
  wp (bind m k) Q this.
Proof.
  unfold wp, bind. destruct (m this) as [[a|e|l] s]; simpl; auto.
Qed.

Lemma bind_Normal {A B} (m : M A) (k : A -> M B) this a s :
  m this = (Normal a, s) -> bind m k this = k a s.
Proof. unfold bind. intros ->. reflexivity. Qed.

Lemma bind_Normal_inv {A B} (m : M A) (k : A -> M B) this b :
  fst (bind m k this) = Normal b ->
  exists a s, m this = (Normal a, s) /\ fst (k a s) = Normal b.
Proof.
  unfold bind. destruct (m this) as [[a|e|l] s]; simpl; try discriminate. eauto.
Qed.

Lemma bind_Normal_run {A B} (m : M A) (k : A -> M B) this b s' :
  bind m k this = (Normal b, s') ->
  exists a s, m this = (Normal a, s) /\ k a s = (Normal b, s').
Proof.
  unfold bind. destruct (m this) as [[a|e|l] s]; try discriminate. eauto.
Qed.

Lemma bind_ext {A B} (m : M A) (k k' : A -> M B) this :
  (forall a s, k a s = k' a s) -> bind m k this = bind m k' this.
Proof.
  intros H. unfold bind. destruct (m this) as [[a|e|l] s]; auto.
Qed.

Lemma preserves_bind {A B} I (m : M A) (k : A -> M B) :
  preserves I m -> (forall a, preserves I (k a)) -> preserves I (bind m k).
Proof.
  intros Hm Hk this HI. specialize (Hm this HI). unfold bind.
  destruct (m this) as [[a|e|l] s]; simpl in *; auto. apply Hk. exact Hm.
Qed.

Lemma preserves_pure {A} I (m : M A) :
  (forall this, snd (m this) = this) -> preserves I m.
Proof. intros H this HI. rewrite H. exact HI. Qed.

Lemma preserves_modify I (f : HierarchyTable -> HierarchyTable) :
  (forall this, I this -> I (f this)) -> preserves I (modify f).
Proof. intros H this HI. simpl. auto. Qed.

Lemma preserves_when I (b : bool) (m : M unit) :
  preserves I m -> preserves I (when b m).
Proof. destruct b; simpl; auto. intros _ this HI. exact HI. Qed.

Lemma preserves_forEach {A} I (f : A -> M unit) (l : list A) :
  (forall x, preserves I (f x)) -> preserves I (forEach f l).
Proof.
  intros Hf. induction l as [|x l IH]; simpl.
  - intros this HI. exact HI.
  - apply preserves_bind; auto.
Qed.

Lemma preserves_if {A} I (b : bool) (m m' : M A) :
  preserves I m -> preserves I m' -> preserves I (if b then m else m').
Proof. destruct b; auto. Qed.

(** State transformers that read the state without changing it. *)
Lemma the_meta_pure i this : snd (the_meta i this) = this.
Proof. unfold the_meta. destruct (data this) as [d|]; [destruct (d !! i)|]; reflexivity. Qed.

Lemma the_data_pure this : snd (the_data this) = this.
Proof. unfold the_data. destruct (data this); reflexivity. Qed.

Lemma updateCategoryLabel_pure row this : snd (updateCategoryLabel row this) = this.
Proof.
  unfold updateCategoryLabel, bind, get.
  destruct (NodeList_item _ _); [|reflexivity].
  destruct (first_link _); [reflexivity|].
  destruct (NodeList_item _ _); reflexivity.
Qed.

Lemma updateCategoryLabel_meta row this row' :
  fst (updateCategoryLabel row this) = Normal row' -> rmeta row' = rmeta row.
Proof.
  unfold updateCategoryLabel, bind, get.
  destruct (NodeList_item _ _); [|discriminate].
  destruct (first_link _); simpl.
  - intros [= <-]. reflexivity.
  - destruct (NodeList_item _ _); simpl; [|discriminate]. intros [= <-]. reflexivity.
Qed.

(** ** The [hidden] flag never leaves [true] *)

Lemma all_hidden_inv this : all_hidden this = true <-> hidden_inv this.
Proof.
  unfold all_hidden, hidden_inv. induction (records this) as [|r l IH]; simpl.
  - split; constructor.
  - rewrite andb_true_iff, IH. split.
    + intros [? ?]. constructor; assumption.
    + intros H. inversion H; subst. auto.
Qed.

Lemma hidden_inv_source f this : hidden_inv this -> hidden_inv (with_source f this).
Proof. exact (fun H => H). Qed.

Lemma hidden_inv_alter i f this :
  (forall row, m_hidden (rmeta row) = true -> m_hidden (rmeta (f row)) = true) ->
  hidden_inv this -> hidden_inv (with_data (alter f i <$> data this) this).
Proof.
  unfold hidden_inv, records. intros Hf H. simpl.
  destruct (data this) as [d|]; simpl; [|constructor].
  apply Forall_alter; auto.
Qed.

Lemma preserves_hidden_source f : preserves hidden_inv (modify (with_source f)).
Proof. apply preserves_modify. intros. apply hidden_inv_source. assumption. Qed.

Lemma preserves_hidden_update_row r f : preserves hidden_inv (update_row r f).
Proof. apply preserves_hidden_source. Qed.

Lemma preserves_hidden_the_meta i : preserves hidden_inv (the_meta i).
Proof. apply preserves_pure, the_meta_pure. Qed.

Lemma preserves_hidden_the_data : preserves hidden_inv the_data.
Proof. apply preserves_pure, the_data_pure. Qed.

Lemma preserves_hidden_get : preserves hidden_inv get.
Proof. apply preserves_pure. reflexivity. Qed.

Lemma preserves_hidden_ret {A} (a : A) : preserves hidden_inv (ret a).
Proof. apply preserves_pure. reflexivity. Qed.

Lemma preserves_hidden_throw {A} e : preserves hidden_inv (@throw _ A e).
Proof. apply preserves_pure. reflexivity. Qed.

Lemma preserves_hidden_beyond {A} l : preserves hidden_inv (@beyond _ A l).
Proof. apply preserves_pure. reflexivity. Qed.

Lemma preserves_hidden_set__hidden i :
  preserves hidden_inv (update_record i (with_meta (set__hidden true))).
Proof.
  apply preserves_modify. intros this H. apply hidden_inv_alter; auto.
Qed.

Lemma preserves_hidden_set__collapsed i v :
  preserves hidden_inv (update_record i (with_meta (set__collapsed v))).
Proof.
  apply preserves_modify. intros this H. apply hidden_inv_alter; auto.
Qed.

Create HintDb hidden discriminated.
#[local] Hint Resolve preserves_hidden_source preserves_hidden_update_row
  preserves_hidden_the_meta preserves_hidden_the_data preserves_hidden_get
  preserves_hidden_ret preserves_hidden_throw preserves_hidden_beyond
  preserves_hidden_set__hidden preserves_hidden_set__collapsed : hidden.

(** Splits a composed transformer into its parts. *)
Ltac split_preserves :=
  repeat first
    [ apply preserves_bind; [|intros ?]
    | apply preserves_when
    | apply preserves_forEach; intros ?
    | apply preserves_if ].

Ltac hidden_kept := split_preserves; auto with hidden.

Lemma preserves_hidden_set_hidden i val : preserves hidden_inv (set_hidden i val).
Proof.
  unfold set_hidden, row_classList_add, row_classList_remove. hidden_kept.
Qed.

Lemma preserves_hidden_set_collapsed i val : preserves hidden_inv (set_collapsed i val).
Proof.
  unfold set_collapsed, row_classList_add, row_classList_remove, dispatchEvent.
  hidden_kept.
Qed.

#[local] Hint Resolve preserves_hidden_set_hidden preserves_hidden_set_collapsed : hidden.

Lemma preserves_hidden_toggleHiddenRows i : preserves hidden_inv (toggleHiddenRows i).
Proof. unfold toggleHiddenRows, toggleChild. hidden_kept. Qed.

Lemma preserves_hidden_click i : preserves hidden_inv (collapseButton_click i).
Proof.
  unfold collapseButton_click. hidden_kept.
Qed.

Lemma preserves_hidden_uncollapseParents fuel i :
  preserves hidden_inv (uncollapseParents fuel i).
Proof.
  revert i. induction fuel as [|fuel IH]; intros i; simpl; [auto with hidden|].
  hidden_kept. destruct (position _ _); [|auto with hidden].
  unfold row_classList_add. hidden_kept.
Qed.

Lemma preserves_hidden_displayChildren fuel i :
  preserves hidden_inv (displayChildren fuel i).
Proof.
  revert i. induction fuel as [|fuel IH]; intros i; simpl; [auto with hidden|].
  unfold row_classList_add. hidden_kept.
Qed.

Lemma preserves_hidden_search fuel str : preserves hidden_inv (searchRowheaders fuel str).
Proof.
  unfold searchRowheaders, row_classList_add. hidden_kept.
  - apply preserves_hidden_uncollapseParents.
  - apply preserves_hidden_displayChildren.
Qed.

Lemma preserves_hidden_relabel i :
  preserves hidden_inv
    (let* row := the_record i in
     let* row' := updateCategoryLabel row in
     update_record i (fun _ => row')).
Proof.
  intros this H. unfold bind, the_record.
  destruct (data this) as [d|] eqn:Hd; [|exact H].
  destruct (d !! i) as [row|] eqn:Hi; [|exact H].
  pose proof (updateCategoryLabel_pure row this) as Hs.
  pose proof (updateCategoryLabel_meta row this) as Hm.
  destruct (updateCategoryLabel row this) as [[row'|e|l] s]; simpl in *; subst s;
    [|exact H|exact H].
  unfold hidden_inv, records in *. simpl. rewrite Hd in *. simpl.
  apply Forall_alter; [exact H|]. intros x Hx _.
  rewrite (Hm row' eq_refl). rewrite Hi in Hx. injection Hx as <-.
  eapply Forall_lookup_1 in H; eauto.
Qed.

Lemma preserves_hidden_set_flat flat : preserves hidden_inv (set_flat flat).
Proof.
  unfold set_flat, source_classList, dispatchEvent. hidden_kept.
  destruct (data _); [|auto with hidden].
  apply preserves_forEach. intros i. apply preserves_hidden_relabel.
Qed.

Lemma preserves_hidden_perform a : preserves hidden_inv (perform a).
Proof.
  destruct a; simpl.
  - apply preserves_hidden_click.
  - apply preserves_hidden_set_flat.
  - apply preserves_hidden_search.
  - apply preserves_hidden_set_hidden.
  - apply preserves_hidden_set_collapsed.
Qed.

Lemma hidden_inv_run acts this : hidden_inv this -> hidden_inv (run acts this).
Proof.
  unfold run. revert this. induction acts as [|a acts IH]; intros this H; simpl.
  - exact H.
  - apply IH. apply preserves_hidden_perform. exact H.
Qed.

(** ** What building a row leaves alone *)

Lemma wp_steady I (m : M unit) {B} (k : M B) Q this :
  steady I m -> I this -> (forall s, I s -> wp k Q s) -> wp (m ;; k) Q this.
Proof.
  intros Hm HI Hk. apply wp_bind. unfold wp.
  destruct (Hm this HI) as [Hc Hs]. rewrite Hc. apply Hk. exact Hs.
Qed.

Lemma steady_update_row I r f :
  (forall this, I this -> I (with_source (with_rows (alter f r)) this)) ->
  steady I (update_row r f).
Proof. intros H this HI. split; [reflexivity|]. apply H. exact HI. Qed.

Lemma steady_when I (b : bool) m : steady I m -> steady I (when b m).
Proof. destruct b; simpl; auto. intros _ this HI. split; [reflexivity|exact HI]. Qed.

Lemma cell_counts_alter (f : tr -> tr) r (rows : list tr) :
  (forall x, length (r_cells (f x)) = length (r_cells x)) ->
  map (fun x => length (r_cells x)) (alter f r rows) =
  map (fun x => length (r_cells x)) rows.
Proof.
  intros Hf. revert r. induction rows as [|x rows IH]; intros [|r]; simpl; auto.
  - rewrite Hf. reflexivity.
  - f_equal. apply IH.
Qed.

Lemma frame_update_row (f : tr -> tr) r this :
  (forall x, length (r_cells (f x)) = length (r_cells x)) ->
  frame (with_source (with_rows (alter f r)) this) = frame this.
Proof.
  intros Hf. unfold frame, cell_counts. simpl. rewrite cell_counts_alter by exact Hf.
  reflexivity.
Qed.

Lemma length_clearLink_cells cs : length (clearLink_cells cs) = length cs.
Proof.
  induction cs as [|c cs IH]; simpl; [reflexivity|].
  destruct (first_link (c_nodes c)); simpl; congruence.
Qed.

Lemma length_with_cell f col x :
  length (r_cells (with_cell f col x)) = length (r_cells x).
Proof. unfold with_cell. simpl. apply length_alter. Qed.

Lemma at_index_Some {A} (l : list A) (i : Z) :
  is_Some (at_index l i) <-> (0 <= i < Z.of_nat (length l))%Z.
Proof.
  unfold at_index. destruct (Z.ltb_spec i 0).
  - split; [intros [x Hx]; discriminate | lia].
  - rewrite lookup_lt_is_Some. lia.
Qed.

Lemma length_row_cells this r :
  length (row_cells this r) = nth r (cell_counts (source this)) 0.
Proof.
  unfold row_cells, cell_counts. generalize (t_rows (source this)).
  intros rows. revert r. induction rows as [|x rows IH]; intros [|r]; simpl; auto.
Qed.

Lemma row_cells_frame this this' r :
  frame this' = frame this -> length (row_cells this' r) = length (row_cells this r).
Proof.
  intros H. rewrite !length_row_cells. unfold frame in H. congruence.
Qed.

Lemma parseItem_unfold level item array this :
  parseItem level item array this =
  (let* currentRowArray := parseRow level item in
   if level <? 2
   then parseHierarchy (n_children item) (S level) (array ++ [currentRowArray])
   else ret (array ++ [currentRowArray])) this.
Proof.
  destruct item as [id name parent children]. simpl.
  apply bind_ext. intros row s. destruct (level <? 2); [|reflexivity].
  generalize (array ++ [row]). revert s.
  induction children as [|c cs IH]; intros s arr; simpl; [reflexivity|].
  apply bind_ext. intros a s'. apply IH.
Qed.

(** ** The traversal builds the rows in pre-order *)

Lemma steady_frame_attrs fr r f :
  steady (framed fr) (update_row r (with_row_attrs f)).
Proof.
  apply steady_update_row. unfold framed. intros this <-.
  apply frame_update_row. reflexivity.
Qed.

Lemma steady_frame_classes fr r f :
  steady (framed fr) (update_row r (with_row_classes f)).
Proof.
  apply steady_update_row. unfold framed. intros this <-.
  apply frame_update_row. reflexivity.
Qed.

Lemma steady_frame_clearLink fr r : steady (framed fr) (clearLink r).
Proof.
  apply steady_update_row. unfold framed. intros this <-.
  apply frame_update_row. intros x. simpl. apply length_clearLink_cells.
Qed.

Lemma resolves_frame this this' id :
  frame this' = frame this -> resolves this' id = resolves this id.
Proof.
  intros H. unfold resolves.
  assert (rowheaders this' = rowheaders this) as -> by (unfold frame in H; congruence).
  assert (t_body (source this') = t_body (source this)) as -> by (unfold frame in H; congruence).
  assert (column this' = column this) as -> by (unfold frame in H; congruence).
  destruct (rowheaders this !! id) as [index|]; [|reflexivity].
  destruct (at_index _ index) as [r|]; [|reflexivity].
  pose proof (at_index_Some (row_cells this' r) (column this)) as H1.
  pose proof (at_index_Some (row_cells this r) (column this)) as H2.
  rewrite (row_cells_frame _ _ r H) in H1. rewrite <- H2 in H1.
  destruct (at_index (row_cells this' r) _), (at_index (row_cells this r) _); auto.
  - destruct (proj1 H1) as [x Hx]; [eauto|discriminate].
  - destruct (proj2 H1) as [x Hx]; [eauto|discriminate].
Qed.

Lemma item_small {A} (l : list A) (i : Z) :
  (0 <= i < 4294967296)%Z -> NodeList_item l i = at_index l i.
Proof.
  intros H. unfold NodeList_item, at_index. rewrite Z.mod_small by exact H.
  destruct (Z.ltb_spec i 0); [lia|reflexivity].
Qed.

Lemma item_last {A} (l : list A) :
  l <> [] -> is_Some (NodeList_item l (Z.of_nat (length l) - 1)).
Proof.
  intros H. unfold NodeList_item. apply lookup_lt_is_Some.
  destruct l as [|x l]; [congruence|]. simpl length.
  assert (0 <= Z.of_nat (S (length l)) - 1)%Z as H0 by lia.
  pose proof (Z.mod_le _ 4294967296 H0 eq_refl).
  pose proof (Z.mod_pos_bound (Z.of_nat (S (length l)) - 1) 4294967296 eq_refl).
  lia.
Qed.

Lemma updateCategoryLabel_ok row this c :
  (column this < 4294967296)%Z ->
  at_index (row_cells this (m_row (rmeta row))) (column this) = Some c ->
  c_nodes c <> [] ->
  exists row', updateCategoryLabel row this = (Normal row', this) /\ rmeta row' = rmeta row.
Proof.
  intros Hcol Hc Hn. unfold updateCategoryLabel, bind, get.
  assert (0 <= column this)%Z as H0.
  { pose proof (proj1 (at_index_Some _ _) (ex_intro _ c Hc)). lia. }
  rewrite item_small, Hc by lia.
  destruct (first_link (c_nodes c)); simpl; [eauto|].
  destruct (item_last (c_nodes c) Hn) as [n ->]. simpl. eauto.
Qed.

Lemma addCollapseButton_ok row this c :
  at_index (row_cells this row) (column this) = Some c ->
  exists this' c',
    addCollapseButton row this = (Normal tt, this') /\
    frame this' = frame this /\
    at_index (row_cells this' row) (column this') = Some c' /\
    c_nodes c' <> [].
Proof.
  intros Hc. unfold addCollapseButton, bind, get. rewrite Hc. simpl.
  eexists _, _. split; [reflexivity|]. split.
  - rewrite !frame_update_row; auto using length_with_cell.
  - simpl. unfold at_index in *. destruct (Z.ltb_spec (column this) 0); [discriminate|].
    unfold row_cells in *. simpl.
    destruct (t_rows (source this) !! row) as [x|] eqn:Hx; [|discriminate].
    rewrite !list_lookup_alter_eq, Hx. simpl.
    rewrite !list_lookup_alter_eq, Hc. simpl. split; [reflexivity|discriminate].
Qed.

Lemma lookup_row_ok this id :
  resolves this id = true ->
  exists r c, lookup_row id this = (Normal r, this) /\
              at_index (row_cells this r) (column this) = Some c.
Proof.
  unfold resolves, lookup_row, bind, get. intros H.
  destruct (rowheaders this !! id) as [index|]; [|discriminate].
  destruct (at_index _ index) as [r|]; [|discriminate].
  destruct (at_index (row_cells this r) _) as [c|] eqn:Hc; [|discriminate].
  exists r, c. auto.
Qed.

Lemma at_index_frame this this' r c :
  frame this' = frame this ->
  at_index (row_cells this r) (column this) = Some c ->
  exists c', at_index (row_cells this' r) (column this') = Some c'.
Proof.
  intros H Hc.
  assert (column this' = column this) as -> by (unfold frame in H; congruence).
  apply at_index_Some. rewrite (row_cells_frame _ _ r H).
  apply at_index_Some. eauto.
Qed.

Lemma parseRow_ok level item this :
  (column this < 4294967296)%Z ->
  resolves this (n_id item) = true ->
  exists row this',
    parseRow level item this = (Normal row, this') /\
    frame this' = frame this /\
    m_level (rmeta row) = level /\ m_id (rmeta row) = n_id item.
Proof.
  intros Hcol Hres.
  enough (wp (parseRow level item)
             (fun c s => exists row, c = Normal row /\ frame s = frame this /\
                                     m_level (rmeta row) = level /\
                                     m_id (rmeta row) = n_id item) this) as H.
  { unfold wp in H. destruct (parseRow level item this) as [c s]. simpl in H.
    destruct H as (row & -> & H). eauto. }
  destruct (lookup_row_ok _ _ Hres) as (r & c & Hr & Hc).
  unfold parseRow. apply wp_bind. unfold wp at 1. rewrite Hr. simpl.
  unfold row_setAttribute, row_classList_add.
  assert (framed (frame this) this) as Hf by reflexivity. revert Hf.
  generalize this at 2 4. intros s Hs.
  repeat (eapply (wp_steady (framed (frame this)));
          [ first [ apply steady_when | idtac ];
            first [ apply steady_frame_attrs | apply steady_frame_classes
                  | apply steady_frame_clearLink ]
          | exact Hs | clear s Hs; intros s Hs ]).
  apply wp_bind. unfold wp at 1. simpl.
  destruct (at_index_frame _ _ _ _ Hs Hc) as [c1 Hc1].
  destruct (addCollapseButton_ok _ _ _ Hc1) as (s' & c' & Hadd & Hf' & Hc' & Hn).
  apply wp_bind. unfold wp at 1. rewrite Hadd. simpl.
  assert (column s' = column this) as Hcs by (unfold framed, frame in *; congruence).
  destruct (updateCategoryLabel_ok
              (Rec (map cell_value (row_cells s r))
                   (setupMeta r (n_id item) (n_name item) (last_label (n_name item))
                      (n_parent item) level true
                      (if 0 <? length (n_children item) then Some true else None)
                      (0 <? length (n_children item)))) s' c')
    as (row' & Hup & Hm); [lia|exact Hc'|exact Hn|].
  unfold wp. rewrite Hup. simpl. exists row'. rewrite Hm. simpl.
  unfold framed in Hs. repeat split; congruence.
Qed.

Lemma all_resolve_frame this this' l :
  frame this' = frame this -> all_resolve this' l = all_resolve this l.
Proof.
  intros H. unfold all_resolve. induction l as [|p l IH]; simpl; [reflexivity|].
  rewrite IH, (resolves_frame _ _ _ H). reflexivity.
Qed.

Lemma all_resolve_app this l l' :
  all_resolve this (l ++ l') = all_resolve this l && all_resolve this l'.
Proof. unfold all_resolve. apply forallb_app. Qed.

Lemma parseHierarchy_builds level depth (hier : list node) :
  Forall (builds level depth) hier ->
  forall array this,
    (column this < 4294967296)%Z ->
    all_resolve this (flat_map (preorder level) (map (truncate depth) hier)) = true ->
    exists rows this',
      parseHierarchy hier level array this = (Normal (array ++ rows), this') /\
      frame this' = frame this /\
      map summary rows = flat_map (preorder level) (map (truncate depth) hier).
Proof.
  induction 1 as [|item hier Hitem _ IH]; intros array this Hcol Hres.
  - exists [], this. simpl. rewrite app_nil_r. auto.
  - Opaque truncate preorder. simpl in *. Transparent truncate preorder.
    rewrite all_resolve_app in Hres. apply andb_true_iff in Hres as [Hres1 Hres2].
    destruct (Hitem array this Hcol Hres1) as (rows1 & s1 & Hrun1 & Hf1 & Hsum1).
    rewrite (bind_Normal _ _ _ _ _ Hrun1).
    assert (column s1 = column this) as Hc1 by (unfold frame in Hf1; congruence).
    destruct (IH (array ++ rows1) s1) as (rows2 & s2 & Hrun2 & Hf2 & Hsum2).
    { lia. }
    { rewrite (all_resolve_frame _ _ _ Hf1). exact Hres2. }
    exists (rows1 ++ rows2), s2. rewrite Hrun2, <- app_assoc. split; [reflexivity|].
    split; [congruence|]. rewrite map_app. congruence.
Qed.

Lemma parseItem_builds item :
  forall level depth, level + depth = 2 -> builds level depth item.
Proof.
  induction item as [id name parent children IH] using node_ind.
  intros level depth Hld array this Hcol Hres.
  rewrite parseItem_unfold.
  assert (resolves this id = true) as Hid.
  { destruct depth; simpl in Hres; apply andb_true_iff in Hres as [H _]; exact H. }
  destruct (parseRow_ok level (Node id name parent children) this Hcol Hid)
    as (row & s1 & Hrow & Hf1 & Hlevel & Hrid).
  rewrite (bind_Normal _ _ _ _ _ Hrow).
  assert (column s1 = column this) as Hc1 by (unfold frame in Hf1; congruence).
  destruct depth as [|depth].
  - replace level with 2 by lia. simpl.
    exists [row], s1. repeat split; auto.
    unfold summary. simpl. rewrite Hlevel, Hrid. f_equal. f_equal. lia.
  - assert ((level <? 2) = true) as -> by (apply Nat.ltb_lt; lia).
    simpl n_children.
    destruct (parseHierarchy_builds (S level) depth children) with
      (array := array ++ [row]) (this := s1) as (rows & s2 & Hrun & Hf2 & Hsum).
    + eapply Forall_impl; [exact IH|]. intros c Hc. apply Hc. lia.
    + lia.
    + rewrite (all_resolve_frame _ _ _ Hf1). simpl in Hres.
      apply andb_true_iff in Hres as [_ H]. exact H.
    + exists (row :: rows), s2. rewrite Hrun. rewrite <- app_assoc. simpl.
      repeat split; [congruence|]. unfold summary at 1. rewrite Hlevel, Hrid, Hsum.
      reflexivity.
Qed.

(** C1.  For a forest whose nodes of the first three levels all resolve to a
    row with a hierarchy cell, [parseHierarchy] completes normally and the rows
    it returns are, by level and id, the depth-first pre-order of the forest cut
    below depth 2: the nodes of levels 0, 1 and 2 in pre-order, no row for a
    child of a level-2 node. *)
Theorem parseHierarchy_preorder (this : HierarchyTable) (hier : list node) :
  resolvable this hier = true ->
  exists rows this',
    parseHierarchy hier 0 [] this = (Normal rows, this') /\
    map summary rows = flat_map (preorder 0) (map (truncate 2) hier).
Proof.
  unfold resolvable. intros H. apply andb_true_iff in H as [Hcol Hres].
  apply Z.ltb_lt in Hcol.
  destruct (parseHierarchy_builds 0 2 hier) with (array := @nil record) (this := this)
    as (rows & s & Hrun & _ & Hsum); auto.
  - apply Forall_forall. intros item _. apply parseItem_builds. reflexivity.
  - exists rows, s. auto.
Qed.

Lemma parseHierarchy_preorder_region :
  resolvable (HT Sample.region_table Sample.region_forest Sample.region_index
                 None 0 false None) Sample.region_forest = true /\
  exists rows this',
    parseHierarchy Sample.region_forest 0 []
      (HT Sample.region_table Sample.region_forest Sample.region_index
          None 0 false None) = (Normal rows, this') /\
    map summary rows = flat_map (preorder 0) (map (truncate 2) Sample.region_forest).
Proof.
  split; [vm_compute; reflexivity|].
  apply parseHierarchy_preorder. vm_compute. reflexivity.
Defined.

(** ** The order of the rows whenever the traversal completes *)

Opaque updateCategoryLabel.
Lemma parseRow_summary level item this row :
  fst (parseRow level item this) = Normal row -> summary row = (level, n_id item).
Proof.
  unfold parseRow. intros H.
  repeat (apply bind_Normal_inv in H as (? & ? & _ & H)).
  apply updateCategoryLabel_meta in H. unfold summary. rewrite H. reflexivity.
Qed.
Transparent updateCategoryLabel.

Lemma parseHierarchy_orders level depth (hier : list node) :
  Forall (orders level depth) hier ->
  forall array this rows this',
    parseHierarchy hier level array this = (Normal rows, this') ->
    exists new, rows = array ++ new /\
                map summary new = flat_map (preorder level) (map (truncate depth) hier).
Proof.
  induction 1 as [|item hier Hitem _ IH]; intros array this rows this' Hrun.
  - injection Hrun as <- <-. exists []. rewrite app_nil_r. auto.
  - cbn [parseHierarchy] in Hrun. unfold bind in Hrun.
    destruct (parseItem level item array this) as [[a|e|l] s] eqn:Hitem';
      try discriminate.
    destruct (Hitem _ _ _ _ Hitem') as (new1 & -> & Hsum1).
    destruct (IH _ _ _ _ Hrun) as (new2 & -> & Hsum2).
    exists (new1 ++ new2). rewrite <- app_assoc. split; [reflexivity|].
    cbn [map flat_map]. rewrite map_app. congruence.
Qed.

Lemma parseItem_orders item :
  forall level depth, level + depth = 2 -> orders level depth item.
Proof.
  induction item as [id name parent children IH] using node_ind.
  intros level depth Hld array this rows this' Hrun.
  rewrite parseItem_unfold in Hrun. unfold bind in Hrun.
  pose proof (parseRow_summary level (Node id name parent children) this) as Hrow.
  destruct (parseRow _ _ this) as [[row|e|l] s]; try discriminate.
  specialize (Hrow row eq_refl). simpl in Hrow.
  destruct depth as [|depth].
  - replace level with 2 in * by lia. simpl in Hrun. injection Hrun as <- <-.
    exists [row]. split; [reflexivity|]. simpl. rewrite Hrow. reflexivity.
  - assert ((level <? 2) = true) as Hlt by (apply Nat.ltb_lt; lia).
    rewrite Hlt in Hrun. simpl n_children in Hrun.
    destruct (parseHierarchy_orders (S level) depth children) with
      (array := array ++ [row]) (this := s) (rows := rows) (this' := this')
      as (new & -> & Hsum); [|exact Hrun|].
    + eapply Forall_impl; [exact IH|]. intros c Hc. apply Hc. lia.
    + exists (row :: new). rewrite <- app_assoc. split; [reflexivity|].
      simpl. rewrite Hrow, Hsum. reflexivity.
Qed.

(** Without any condition on the table: a traversal that completes normally
    returns the rows in the pre-order of the forest cut below depth 2. *)
Lemma parseHierarchy_order (this : HierarchyTable) (hier : list node) rows this' :
  parseHierarchy hier 0 [] this = (Normal rows, this') ->
  map summary rows = flat_map (preorder 0) (map (truncate 2) hier).
Proof.
  intros Hrun.
  destruct (parseHierarchy_orders 0 2 hier) with
    (array := @nil record) (this := this) (rows := rows) (this' := this')
    as (new & -> & Hsum); [|exact Hrun|exact Hsum].
  apply Forall_forall. intros item _. apply parseItem_orders. reflexivity.
Qed.

(** ** The constructor starts every row with [hidden] set *)

Lemma keeps_data_preserves {A} (m : M A) :
  (forall d, preserves (fun s => data s = d) m) -> keeps_data m.
Proof. intros H this. apply (H (data this)). reflexivity. Qed.

Opaque updateCategoryLabel.
Lemma keeps_data_parseRow level item : keeps_data (parseRow level item).
Proof.
  apply keeps_data_preserves. intros d.
  unfold parseRow, lookup_row, addCollapseButton.
  split_preserves;
    repeat match goal with
           | |- preserves _ (match ?x with _ => _ end) => destruct x
           end;
    split_preserves;
    try (intros this H; exact H).
  apply preserves_pure, updateCategoryLabel_pure.
Qed.

Lemma parseRow_hidden level item this row :
  fst (parseRow level item this) = Normal row -> m_hidden (rmeta row) = true.
Proof.
  unfold parseRow. intros H.
  repeat (apply bind_Normal_inv in H as (? & ? & _ & H)).
  apply updateCategoryLabel_meta in H. rewrite H. reflexivity.
Qed.
Transparent updateCategoryLabel.

Lemma parseHierarchy_hidden (hier : list node) :
  Forall builds_hidden hier ->
  forall level array this,
    data (snd (parseHierarchy hier level array this)) = data this /\
    forall rows, fst (parseHierarchy hier level array this) = Normal rows ->
                 hidden_rows array -> hidden_rows rows.
Proof.
  induction 1 as [|item hier Hitem _ IH]; intros level array this; simpl.
  - split; [reflexivity|]. intros rows [= <-]. auto.
  - destruct (Hitem level array this) as [Hd Hrows]. unfold bind.
    destruct (parseItem level item array this) as [[a|e|l] s]; simpl in *;
      try (split; [exact Hd|discriminate]).
    destruct (IH level a s) as [Hd' Hrows']. split; [congruence|].
    intros rows Hr Ha. apply Hrows'; auto.
Qed.

Lemma parseItem_hidden item : builds_hidden item.
Proof.
  induction item as [id name parent children IH] using node_ind.
  intros level array this. rewrite parseItem_unfold. unfold bind.
  pose proof (keeps_data_parseRow level (Node id name parent children) this) as Hd.
  pose proof (parseRow_hidden level (Node id name parent children) this) as Hrow.
  destruct (parseRow _ _ this) as [[row|e|l] s]; simpl in *;
    try (split; [exact Hd|discriminate]).
  assert (hidden_rows array -> hidden_rows (array ++ [row])) as Happ.
  { intros Ha. apply Forall_app. split; [exact Ha|]. constructor; auto. }
  destruct (level <? 2); simpl.
  - destruct (parseHierarchy_hidden children IH (S level) (array ++ [row]) s) as [Hd' Hr].
    split; [congruence|]. intros rows Hrows Ha. apply Hr; auto.
  - split; [exact Hd|]. intros rows [= <-]. exact Happ.
Qed.

Lemma preserves_hidden_init : preserves hidden_inv init.
Proof.
  intros this H. unfold init. unfold bind at 1. unfold get at 1. cbv beta iota.
  assert (forall d s, hidden_rows d ->
            hidden_inv (snd ((modify (with_data (Some d)) ;;
                              let* this := get in
                              match t_body (source this) with
                              | None => throw TypeError
                              | Some _ =>
                                  remove_leading_text ;;
                                  forEach (fun row => appendChild (m_row (rmeta row))) d
                              end) s)))
    as Hrest.
  { intros d s Hd.
    assert (preserves (fun s => data s = Some d)
              (let* this := get in
               match t_body (source this) with
               | None => throw TypeError
               | Some _ =>
                   remove_leading_text ;;
                   forEach (fun row => appendChild (m_row (rmeta row))) d
               end)) as Hp.
    { apply preserves_bind; [apply preserves_pure; reflexivity|intros s0].
      destruct (t_body (source s0)); [|apply preserves_pure; reflexivity].
      unfold remove_leading_text, appendChild. split_preserves; intros s' Hs'; exact Hs'. }
    unfold bind at 1. simpl. specialize (Hp (with_data (Some d) s) eq_refl).
    unfold hidden_inv, records. rewrite Hp. exact Hd. }
  destruct (data this) as [d|] eqn:Hdata.
  - unfold bind at 1. unfold ret at 1. cbv beta iota.
    apply Hrest. unfold hidden_inv, records in H. rewrite Hdata in H. exact H.
  - destruct (parseHierarchy_hidden (hierarchy this)) with
      (level := 0) (array := @nil record) (this := this) as [Hd Hrows].
    { apply Forall_forall. intros item _. apply parseItem_hidden. }
    unfold bind at 1.
    destruct (parseHierarchy _ 0 [] this) as [[rows|e|l] s]; simpl fst in *; simpl snd in *;
      cbv beta iota.
    + apply Hrest. apply Hrows; [reflexivity|constructor].
    + unfold hidden_inv, records. simpl. rewrite Hd, Hdata. constructor.
    + unfold hidden_inv, records. simpl. rewrite Hd, Hdata. constructor.
Qed.

Lemma hidden_inv_new src hier rh hierColumn flat srch :
  hidden_inv (snd (new_HierarchyTable src hier rh hierColumn flat srch)).
Proof.
  unfold new_HierarchyTable.
  apply (preserves_bind hidden_inv (set_flat flat)).
  - apply preserves_hidden_set_flat.
  - intros _. apply preserves_bind.
    + apply preserves_modify. intros this H. exact H.
    + intros _. apply preserves_hidden_init.
  - constructor.
Qed.

(** ** The [hidden] setter stores [true] *)

Lemma set_hidden_stores_true i val this :
  hidden_at (snd (set_hidden i val this)) i = (fun _ => true) <$> hidden_at this i.
Proof.
  unfold set_hidden, bind, the_meta, hidden_at, records.
  destruct (data this) as [d|] eqn:Hd; simpl; [|rewrite Hd; reflexivity].
  destruct (d !! i) as [row|] eqn:Hi; simpl; [|rewrite Hd, Hi; reflexivity].
  destruct val; simpl; rewrite Hd; simpl; rewrite list_lookup_alter_eq, Hi; reflexivity.
Qed.

(** C10.  Whatever the table, the forest and the configuration, and whatever
    clicks, mode switches, searches and direct assignments to [hidden] and
    [collapsed] follow the construction, every row of [data] reads [hidden] as
    [true]: the flag starts at [true], and in any state its setter stores
    [true] for any assigned value. *)
Theorem hidden_always_true (src : table) (hier : list node) (rh : gmap string Z)
    (hierColumn : Z) (flat : bool) (srch : searchObj) (acts : list action) :
  all_hidden (run acts (snd (new_HierarchyTable src hier rh hierColumn flat srch))) = true /\
  (forall this i val,
     hidden_at (snd (set_hidden i val this)) i = (fun _ => true) <$> hidden_at this i).
Proof.
  split.
  - apply all_hidden_inv, hidden_inv_run, hidden_inv_new.
  - intros this i val. apply set_hidden_stores_true.
Qed.

(** ** The sample tables, evaluated *)

(** C4.  The forest of the specification, root [A] with child [B], builds two
    rows; [A] has level 0, [collapsed] true and children, [B] has level 1, is
    hidden and has no children -- and [A], the root, reads [hidden] as [true]
    too, where the specification has [false]; only its row carries no hidden
    marker. *)
Theorem region_initial_state :
  map (fun row => (m_id (rmeta row), m_level (rmeta row), m_hidden (rmeta row),
                   m_collapsed (rmeta row), m_hasChildren (rmeta row)))
      (records Sample.region)
  = [("A", 0, true, Some true, true); ("B", 1, true, None, false)] /\
  hidden_marker Sample.region 0 = false /\
  hidden_marker Sample.region 1 = true.
Proof. vm_compute. auto. Qed.

(** C2.  The root row [A] of the sample has no ancestor, yet its [hidden]
    getter returns [true], right after construction and after its row is
    expanded; then [B], whose only ancestor [A] is expanded, still reads
    [hidden] as [true] while its row has lost the hidden marker. *)
Theorem region_hidden_without_collapsed_ancestor :
  (m_parent <$> (rmeta <$> records Sample.region !! 0)) = Some EmptyString /\
  hidden_at Sample.region 0 = Some true /\
  let expanded := run [Click 0] Sample.region in
  collapsed_at expanded 0 = Some false /\
  hidden_at expanded 0 = Some true /\
  hidden_at expanded 1 = Some true /\
  hidden_marker expanded 1 = false.
Proof. vm_compute. auto 10. Qed.

(** C3.  With [A] and its child [B] expanded, the click that collapses [A]
    hides [B] and forces it collapsed, and then throws a [ReferenceError]
    instead of recursing: [C], the child of [B], and [D], the next child of
    [A], keep their rows visible under a collapsed [A]. *)
Theorem area_collapse_throws :
  collapsed_at Sample.area_expanded 0 = Some false /\
  collapsed_at Sample.area_expanded 1 = Some false /\
  fst (collapseButton_click 0 Sample.area_expanded) = Throw ReferenceError /\
  let after := snd (collapseButton_click 0 Sample.area_expanded) in
  collapsed_at after 0 = Some true /\
  collapsed_at after 1 = Some true /\
  hidden_marker after 1 = true /\
  hidden_marker after 2 = false /\
  hidden_marker after 3 = false.
Proof. vm_compute. auto 10. Qed.

(** ** The mode switch writes no cell *)

Lemma set_flat_keeps_rows flat this :
  t_rows (source (snd (set_flat flat this))) = t_rows (source this).
Proof.
  assert (preserves (fun s => t_rows (source s) = t_rows (source this)) (set_flat flat))
    as Hkeep; [|exact (Hkeep this eq_refl)].
  unfold set_flat, source_classList, dispatchEvent. split_preserves;
    try (intros s H; exact H).
  destruct (data _); [|intros s H; exact H].
  apply preserves_forEach. intros i. apply preserves_bind.
  - apply preserves_pure. intros s. unfold the_record.
    destruct (data s) as [d|]; [destruct (d !! i)|]; reflexivity.
  - intros row. apply preserves_bind.
    + apply preserves_pure, updateCategoryLabel_pure.
    + intros row' s H. exact H.
Qed.

(** C5.  In the sample built in tree mode the header cell of [B] still shows
    the label the table came with, "Region/North", not the [name] "North" of
    the row; only the array entry [row[column]] holds "North".  Switching the
    mode rewrites the array entry and leaves the cell as it is: in any state,
    an assignment to [flat] changes no row of the table. *)
Theorem region_header_not_relabelled :
  _flat Sample.region = false /\
  (m_name <$> (rmeta <$> records Sample.region !! 1)) = Some "North" /\
  header_text Sample.region 1 = Some "Region/North" /\
  (cells <$> records Sample.region !! 1) = Some [VString "North"; VScalar "7"] /\
  let flat := run [SetFlat true] Sample.region in
  (cells <$> records flat !! 1) = Some [VString "Region/North"; VScalar "7"] /\
  t_rows (source flat) = t_rows (source Sample.region) /\
  (let tree := run [SetFlat true; SetFlat false] Sample.region in
   header_text tree 1 = Some "Region/North" /\
   header_text tree 1 <> (m_name <$> (rmeta <$> records tree !! 1))) /\
  (forall this mode, t_rows (source (snd (set_flat mode this))) = t_rows (source this)).
Proof.
  do 4 (split; [vm_compute; reflexivity|]).
  cbv zeta. do 2 (split; [vm_compute; reflexivity|]).
  split; [|intros this mode; apply set_flat_keeps_rows].
  split; [vm_compute; reflexivity|]. vm_compute. congruence.
Qed.

(** C6, as stated, fails: with [A] and [B] expanded, two clicks on [A] leave
    its child [B] collapsed, which it was not before. *)
Lemma double_toggle_not_restored : ~ double_toggle_restores Sample.area_expanded 0.
Proof.
  intros H.
  destruct (H 1 (Rec [VString "Area"; VScalar "1"]
                     (Meta 0 "A" "Area" "Area" "" 0 true true (Some false)))
              (Rec [VString "East"; VScalar "2"]
                   (Meta 1 "B" "Area/East" "East" "A" 1 true true (Some false))))
    as [_ Hc]; try reflexivity.
  vm_compute in Hc. discriminate.
Qed.

(** C7, as stated, fails: the search for "North" in the sample matches [B],
    whose row keeps the hidden marker. *)
Lemma search_leaves_match_hidden : ~ search_reveals Sample.region 3 "North".
Proof.
  intros H.
  specialize (H 1 (Rec [VString "North"; VScalar "7"]
                       (Meta 1 "B" "Region/North" "North" "A" 1 false true None))).
  vm_compute in H. specialize (H (or_introl eq_refl) eq_refl). discriminate.
Qed.

(** C8, as stated, fails: on the freshly built sample the empty search string
    matches both rows. *)
Lemma empty_search_matches_rows : ~ empty_search_matches_nothing Sample.region 3.
Proof. intros [H _]. vm_compute in H. discriminate. Qed.

(** C9, as stated, fails: with column index -1 the construction of the sample
    ends in a [TypeError], not a [ConfigError], and its first row is tagged. *)
Lemma negative_column_not_refused :
  ~ config_checked Sample.region_table Sample.region_forest Sample.region_index
      (-1) false default_search.
Proof. intros H. destruct H as [H _]; [reflexivity|]. vm_compute in H. discriminate. Qed.

(** C8, amended.  The empty search string is a literal pattern that matches
    every label: the rows kept by the filter of [searchRowheaders] are all the
    rows of [data], in flat and in tree mode. *)
Theorem empty_search_matches_all (this : HierarchyTable) (d : list record) :
  literal_pattern EmptyString = true /\
  matched_rows this EmptyString d = seq 0 (length d).
Proof.
  split; [reflexivity|]. unfold matched_rows. generalize 0.
  induction d as [|row d IH]; intros k; simpl; [reflexivity|].
  assert (forall s, str_match EmptyString s = true) as Hm by (intros []; reflexivity).
  rewrite !Hm. destruct (_flat this); rewrite IH; reflexivity.
Qed.

(** ** A negative column index *)

Lemma getAttribute_set_eq k v l : getAttribute k (setAttribute k v l) = Some v.
Proof.
  induction l as [|[k' v'] l IH]; simpl.
  - rewrite String.eqb_refl. reflexivity.
  - destruct (String.eqb k k') eqn:E; simpl; rewrite ?String.eqb_refl, ?E; auto.
Qed.

Lemma getAttribute_set_ne k k' v l :
  k <> k' -> getAttribute k (setAttribute k' v l) = getAttribute k l.
Proof.
  intros Hne. induction l as [|[k0 v0] l IH]; simpl.
  - apply String.eqb_neq in Hne. rewrite Hne. reflexivity.
  - destruct (String.eqb k' k0) eqn:E; simpl.
    + apply String.eqb_eq in E. subst k0.
      apply String.eqb_neq in Hne. rewrite Hne. reflexivity.
    + rewrite IH. reflexivity.
Qed.

Lemma row_attribute_update this r r' f k :
  (forall x, getAttribute k (r_attrs (f x)) = getAttribute k (r_attrs x)) ->
  row_attribute (with_source (with_rows (alter f r')) this) r k = row_attribute this r k.
Proof.
  intros Hf. unfold row_attribute. simpl. rewrite list_lookup_alter.
  destruct (decide (r' = r)) as [->|]; [|reflexivity].
  destruct (t_rows (source this) !! r); simpl; [apply Hf|reflexivity].
Qed.

Lemma bind_Throw {A B} (m : M A) (k : A -> M B) this e s :
  m this = (Throw e, s) -> bind m k this = (Throw e, s).
Proof. unfold bind. intros ->. reflexivity. Qed.

Lemma steady_tagged_classes this r id r' f :
  steady (tagged this r id) (update_row r' (with_row_classes f)).
Proof.
  apply steady_update_row. intros s (Hc & Hd & Ha). repeat split; auto.
  rewrite row_attribute_update; auto.
Qed.

Lemma steady_tagged_clearLink this r id r' : steady (tagged this r id) (clearLink r').
Proof.
  apply steady_update_row. intros s (Hc & Hd & Ha). repeat split; auto.
  rewrite row_attribute_update; auto.
Qed.

Lemma steady_tagged_parent this r id r' v :
  steady (tagged this r id) (update_row r' (with_row_attrs (setAttribute "parent" v))).
Proof.
  apply steady_update_row. intros s (Hc & Hd & Ha). repeat split; auto.
  rewrite row_attribute_update; auto. intros x. simpl.
  apply getAttribute_set_ne. discriminate.
Qed.

Lemma parseRow_negative_column level item this index r row :
  (column this < 0)%Z ->
  rowheaders this !! n_id item = Some index ->
  at_index (body_rows (t_body (source this))) index = Some r ->
  t_rows (source this) !! r = Some row ->
  exists this',
    parseRow level item this = (Throw TypeError, this') /\
    data this' = data this /\
    row_attribute this' r "self-id" = Some (n_id item).
Proof.
  intros Hcol Hrh Hbody Hrow.
  enough (wp (parseRow level item)
             (fun c s => c = Throw TypeError /\ data s = data this /\
                         row_attribute s r "self-id" = Some (n_id item)) this) as H.
  { unfold wp in H. destruct (parseRow level item this) as [c s]. simpl in H.
    destruct H as (-> & H). eauto. }
  unfold parseRow, lookup_row. apply wp_bind. apply wp_bind.
  unfold wp at 1. simpl. rewrite Hrh, Hbody. unfold wp at 1. simpl.
  apply wp_bind. unfold wp at 1. simpl.
  assert (tagged this r (n_id item)
            (with_source (with_rows (alter (with_row_attrs (setAttribute "self-id" (n_id item))) r))
                         this)) as Hs.
  { repeat split. unfold row_attribute. simpl.
    rewrite list_lookup_alter_eq, Hrow. simpl. apply getAttribute_set_eq. }
  revert Hs. generalize (with_source (with_rows (alter (with_row_attrs
                            (setAttribute "self-id" (n_id item))) r)) this).
  intros s Hs. unfold row_classList_add, row_setAttribute.
  repeat (eapply (wp_steady (tagged this r (n_id item)));
          [ first [ apply steady_when | idtac ];
            first [ apply steady_tagged_classes | apply steady_tagged_clearLink
                  | apply steady_tagged_parent ]
          | exact Hs | clear s Hs; intros s Hs ]).
  apply wp_bind. unfold wp at 1. simpl. apply wp_bind.
  destruct Hs as (Hc & Hd & Ha).
  unfold wp, addCollapseButton, bind, get, at_index. rewrite Hc.
  destruct (Z.ltb_spec (column this) 0); [|lia]. simpl. auto.
Qed.

(** C9, amended.  The constructor does not check its configuration.  With a
    negative column index and a forest whose first node resolves to a row, it
    ends in the [TypeError] raised where the collapse button is to be inserted
    in that row; [data] is still [null] and the row already carries the id
    of the node in its [self-id] attribute. *)
Theorem negative_column_TypeError (src : table) (item : node) (rest : list node)
    (rh : gmap string Z) (hierColumn : Z) (flat : bool) (srch : searchObj)
    (index : Z) (r : nat) (row : tr) :
  (hierColumn < 0)%Z ->
  rh !! n_id item = Some index ->
  at_index (body_rows (t_body src)) index = Some r ->
  t_rows src !! r = Some row ->
  let result := new_HierarchyTable src (item :: rest) rh hierColumn flat srch in
  fst result = Throw TypeError /\
  data (snd result) = None /\
  row_attribute (snd result) r "self-id" = Some (n_id item).
Proof.
  intros Hcol Hrh Hbody Hrow result.
  enough (exists s, result = (Throw TypeError, s) /\ data s = None /\
                    row_attribute s r "self-id" = Some (n_id item)) as (s & -> & H).
  { simpl. auto. }
  subst result. unfold new_HierarchyTable.
  set (this := HT src (item :: rest) rh None hierColumn false None).
  destruct (set_flat flat this) as [c s1] eqn:Hflat.
  assert (c = Normal tt /\ column s1 = hierColumn /\ rowheaders s1 = rh /\
          hierarchy s1 = item :: rest /\ data s1 = None /\
          t_body (source s1) = t_body src /\ t_rows (source s1) = t_rows src)
    as (-> & Hc1 & Hrh1 & Hh1 & Hd1 & Hb1 & Hr1).
  { unfold set_flat, this in Hflat. destruct flat; vm_compute in Hflat;
      injection Hflat as <- <-; repeat split. }
  rewrite (bind_Normal _ _ _ _ _ Hflat).
  erewrite bind_Normal by reflexivity.
  unfold init. erewrite bind_Normal by reflexivity. simpl data. rewrite Hd1.
  simpl hierarchy. rewrite Hh1.
  destruct (parseRow_negative_column 0 item (with_search
              (Some (setupSearch (s_enabled srch) (s_immediate srch) (s_timeout srch)
                       (s_searching srch) (s_query srch))) s1) index r row)
    as (s2 & Hrun & Hd2 & Ha2); simpl; try congruence; try lia.
  exists s2. split; [|split; [rewrite Hd2; exact Hd1|exact Ha2]].
  apply bind_Throw. simpl. apply bind_Throw. rewrite parseItem_unfold.
  apply bind_Throw. exact Hrun.
Qed.

Lemma negative_column_TypeError_region :
  let result := new_HierarchyTable Sample.region_table Sample.region_forest
                  Sample.region_index (-1) false default_search in
  fst result = Throw TypeError /\
  data (snd result) = None /\
  row_attribute (snd result) 0 "self-id" = Some "A".
Proof.
  apply (negative_column_TypeError Sample.region_table
           (Node "A" "Region" "" [Node "B" "Region/North" "A" []]) []
           Sample.region_index (-1) false default_search 0 0
           (Sample.link_row "Region" "12")); reflexivity.
Defined.

(** ** Marker classes under the accessors *)

Lemma classList_contains_app c l l' :
  classList_contains c (l ++ l') = classList_contains c l || classList_contains c l'.
Proof. unfold classList_contains. apply existsb_app. Qed.

Lemma classList_contains_add c c' l :
  classList_contains c (classList_add c' l) = classList_contains c l || String.eqb c c'.
Proof.
  unfold classList_add. destruct (classList_contains c' l) eqn:E.
  - destruct (String.eqb_spec c c') as [->|]; [|rewrite orb_false_r; reflexivity].
    rewrite E. reflexivity.
  - rewrite classList_contains_app. simpl. rewrite orb_false_r. reflexivity.
Qed.

Lemma classList_contains_remove c c' l :
  classList_contains c (classList_remove c' l) =
  classList_contains c l && negb (String.eqb c c').
Proof.
  unfold classList_remove, classList_contains. induction l as [|x l IH]; simpl.
  - reflexivity.
  - destruct (String.eqb_spec c' x) as [->|Hne]; simpl.
    + rewrite IH. destruct (String.eqb c x); simpl; [|reflexivity].
      rewrite andb_false_r. reflexivity.
    + rewrite IH. destruct (String.eqb_spec c x) as [->|]; simpl; [|reflexivity].
      destruct (String.eqb_spec x c'); [congruence|]. reflexivity.
Qed.

Lemma row_classes_update this r f r' :
  row_classes (with_source (with_rows (alter (with_row_classes f) r)) this) r' =
  if (r' =? r) && (r <? length (t_rows (source this)))
  then f (row_classes this r') else row_classes this r'.
Proof.
  unfold row_classes. simpl. rewrite list_lookup_alter.
  destruct (Nat.eqb_spec r' r) as [->|Hne]; simpl.
  - destruct (decide (r = r)); [|congruence].
    destruct (Nat.ltb_spec r (length (t_rows (source this)))) as [Hlt|Hge].
    + apply lookup_lt_is_Some in Hlt as [x ->]. reflexivity.
    + rewrite lookup_ge_None_2 by lia. reflexivity.
  - destruct (decide (r = r')); [congruence|reflexivity].
Qed.

Lemma marker_add c c' r this r' :
  marker c (with_source (with_rows (alter (with_row_classes (classList_add c')) r)) this) r' =
  marker c this r' ||
  (String.eqb c c' && (r' =? r) && (r <? length (t_rows (source this)))).
Proof.
  unfold marker. rewrite row_classes_update.
  destruct ((r' =? r) && (r <? length (t_rows (source this)))) eqn:E.
  - rewrite classList_contains_add. rewrite <- andb_assoc, E, andb_true_r. reflexivity.
  - rewrite <- andb_assoc, E, andb_false_r, orb_false_r. reflexivity.
Qed.

Lemma marker_remove c c' r this r' :
  marker c (with_source (with_rows (alter (with_row_classes (classList_remove c')) r)) this) r' =
  marker c this r' && negb (String.eqb c c' && (r' =? r)).
Proof.
  unfold marker. rewrite row_classes_update.
  destruct (Nat.eqb_spec r' r) as [->|Hne]; simpl.
  - destruct (Nat.ltb_spec r (length (t_rows (source this)))) as [Hlt|Hge].
    + rewrite classList_contains_remove, andb_true_r. reflexivity.
    + unfold row_classes. rewrite lookup_ge_None_2 by lia. reflexivity.
  - rewrite andb_false_r, andb_true_r. reflexivity.
Qed.

Lemma marker_events c this f r :
  marker c (with_source (fun t => Table (t_classes t) (t_rows t) (t_body t) (f t)) this) r =
  marker c this r.
Proof. reflexivity. Qed.

Ltac as_markers :=
  repeat match goal with
         | |- context [classList_contains ?c (row_classes ?s ?r)] =>
             change (classList_contains c (row_classes s r)) with (marker c s r)
         end.

Lemma records_lookup_data this i row :
  records this !! i = Some row -> exists d, data this = Some d /\ d !! i = Some row.
Proof.
  unfold records. destruct (data this) as [d|]; [eauto|].
  rewrite lookup_nil. discriminate.
Qed.

Lemma the_meta_ok this i row :
  records this !! i = Some row -> the_meta i this = (Normal (rmeta row), this).
Proof.
  intros H. apply records_lookup_data in H as (d & Hd & Hi).
  unfold the_meta. rewrite Hd, Hi. reflexivity.
Qed.

Lemma the_data_ok this i row :
  records this !! i = Some row -> the_data this = (Normal (records this), this).
Proof.
  intros H. apply records_lookup_data in H as (d & Hd & Hi).
  unfold the_data, records. rewrite Hd. reflexivity.
Qed.

(** What the [collapsed] setter does to a row of [data]. *)
Lemma set_collapsed_spec i val this row :
  records this !! i = Some row ->
  exists this',
    set_collapsed i val this = (Normal tt, this') /\
    records this' = alter (with_meta (set__collapsed (Some val))) i (records this) /\
    length (t_rows (source this')) = length (t_rows (source this)) /\
    (forall r, hidden_marker this' r = hidden_marker this r) /\
    (forall r, highlighted this' r = highlighted this r).
Proof.
  intros H. unfold set_collapsed. rewrite (bind_Normal _ _ _ _ _ (the_meta_ok _ _ _ H)).
  apply records_lookup_data in H as (d & Hd & Hi).
  unfold hidden_marker, highlighted.
  destruct val; eexists; (split; [reflexivity|]); simpl;
    (split; [unfold records; simpl; rewrite Hd; reflexivity|]);
    (split; [rewrite !length_alter; reflexivity|]);
    split; intros r; as_markers;
    rewrite marker_events, ?marker_remove, ?marker_add, ?marker_remove; simpl;
    rewrite ?orb_false_r, ?andb_true_r; reflexivity.
Qed.

(** What the [hidden] setter does: the flag is set, the marker follows [val]. *)
Lemma set_hidden_spec i val this row :
  records this !! i = Some row ->
  exists this',
    set_hidden i val this = (Normal tt, this') /\
    records this' = alter (with_meta (set__hidden true)) i (records this) /\
    length (t_rows (source this')) = length (t_rows (source this)) /\
    (forall r, hidden_marker this' r =
               if val
               then hidden_marker this r ||
                    ((r =? m_row (rmeta row)) &&
                     (m_row (rmeta row) <? length (t_rows (source this))))
               else hidden_marker this r && negb (r =? m_row (rmeta row))) /\
    (forall r, highlighted this' r = highlighted this r).
Proof.
  intros H. unfold set_hidden. rewrite (bind_Normal _ _ _ _ _ (the_meta_ok _ _ _ H)).
  apply records_lookup_data in H as (d & Hd & Hi).
  unfold hidden_marker, highlighted.
  destruct val; eexists; (split; [reflexivity|]); simpl;
    (split; [unfold records; simpl; rewrite Hd; reflexivity|]);
    (split; [rewrite !length_alter; reflexivity|]);
    split; intros r; as_markers;
    rewrite ?marker_remove, ?marker_add; simpl;
    rewrite ?orb_false_r, ?andb_true_r; reflexivity.
Qed.

(** What the highlight of a row does. *)
Lemma highlight_spec r this :
  exists this',
    row_classList_add r "matched-search" this = (Normal tt, this') /\
    data this' = data this /\
    length (t_rows (source this')) = length (t_rows (source this)) /\
    (forall r', hidden_marker this' r' = hidden_marker this r') /\
    (forall r', highlighted this' r' =
                highlighted this r' || ((r' =? r) && (r <? length (t_rows (source this))))).
Proof.
  eexists. split; [reflexivity|]. simpl. split; [reflexivity|].
  split; [rewrite !length_alter; reflexivity|].
  unfold hidden_marker, highlighted.
  split; intros r'; as_markers; rewrite marker_add; simpl;
    rewrite ?orb_false_r; reflexivity.
Qed.

(** ** The walk up the parents *)

Lemma skeleton_alter v i d :
  skeleton (alter (with_meta (set__collapsed v)) i d) = skeleton d.
Proof.
  unfold skeleton. revert i. induction d as [|x d IH]; intros [|i]; simpl; auto.
  f_equal. apply IH.
Qed.

Lemma skeleton_lookup d d' i row :
  skeleton d' = skeleton d -> d !! i = Some row ->
  exists row', d' !! i = Some row' /\ unflagged row' = unflagged row.
Proof.
  unfold skeleton. intros H Hi.
  assert (map unflagged d' !! i = Some (unflagged row)) as H'.
  { rewrite H. change (map unflagged d) with (unflagged <$> d).
    rewrite list_lookup_fmap, Hi. reflexivity. }
  change (map unflagged d') with (unflagged <$> d') in H'.
  rewrite list_lookup_fmap in H'. destruct (d' !! i) as [row'|]; [|discriminate].
  exists row'. split; [reflexivity|]. simpl in H'. congruence.
Qed.

Lemma unflagged_fields row row' :
  unflagged row' = unflagged row ->
  m_id (rmeta row') = m_id (rmeta row) /\ m_parent (rmeta row') = m_parent (rmeta row) /\
  m_row (rmeta row') = m_row (rmeta row) /\ m_hidden (rmeta row') = m_hidden (rmeta row) /\
  m_hasChildren (rmeta row') = m_hasChildren (rmeta row).
Proof.
  destruct row as [c [? ? ? ? ? ? ? ? ?]], row' as [c' [? ? ? ? ? ? ? ? ?]].
  unfold unflagged, with_meta, set__collapsed. simpl. intros [= -> -> -> -> -> -> -> ->].
  auto.
Qed.

Lemma cons_inj {A} (x y : A) (l l' : list A) : x :: l = y :: l' -> x = y /\ l = l'.
Proof. intros [= -> ->]. auto. Qed.

Lemma positions_skeleton (p : record -> bool) d d' k :
  (forall x y, unflagged x = unflagged y -> p x = p y) ->
  skeleton d' = skeleton d -> positions p d' k = positions p d k.
Proof.
  intros Hp. unfold skeleton. revert d' k.
  induction d as [|x d IH]; intros [|x' d'] k; cbn [map positions];
    try discriminate; auto.
  intros H. apply cons_inj in H as [Hx Hd].
  rewrite (Hp _ _ Hx), (IH _ _ Hd). reflexivity.
Qed.

Lemma positions_lookup {A} (p : A -> bool) l k j :
  In j (positions p l k) -> k <= j /\ exists x, l !! (j - k) = Some x /\ p x = true.
Proof.
  revert k. induction l as [|x l IH]; intros k; simpl; [tauto|].
  destruct (p x) eqn:Hx; simpl.
  - intros [<-|H].
    + split; [lia|]. rewrite Nat.sub_diag. eauto.
    + apply IH in H as (Hle & y & Hy & Hpy). split; [lia|].
      replace (j - k) with (S (j - S k)) by lia. eauto.
  - intros H. apply IH in H as (Hle & y & Hy & Hpy). split; [lia|].
    replace (j - k) with (S (j - S k)) by lia. eauto.
Qed.

Lemma position_Some {A} (p : A -> bool) l j :
  position p l = Some j -> exists x, l !! j = Some x /\ p x = true.
Proof.
  unfold position. intros H.
  destruct (positions p l 0) as [|j' js] eqn:E; [discriminate|].
  injection H as ->.
  destruct (positions_lookup p l 0 j) as (_ & x & Hx & Hp); [rewrite E; left; auto|].
  rewrite Nat.sub_0_r in Hx. eauto.
Qed.

Lemma ancestors_skeleton fuel d d' i :
  skeleton d' = skeleton d -> ancestors fuel d' i = ancestors fuel d i.
Proof.
  intros H. revert i. induction fuel as [|fuel IH]; intros i; simpl; [reflexivity|].
  destruct (d !! i) as [row|] eqn:Hi.
  - destruct (skeleton_lookup _ _ _ _ H Hi) as (row' & -> & Hrow).
    apply unflagged_fields in Hrow as (_ & -> & _).
    destruct (0 <? String.length (m_parent (rmeta row))); [|reflexivity].
    unfold position. rewrite (positions_skeleton _ d d'); auto.
    + destruct (head _); [|reflexivity]. rewrite IH. reflexivity.
    + intros x y Hxy. apply unflagged_fields in Hxy as (-> & _). reflexivity.
  - destruct (d' !! i) as [row'|] eqn:Hi'; [|reflexivity].
    symmetry in H. destruct (skeleton_lookup _ _ _ _ H Hi') as (? & ? & _). congruence.
Qed.

Lemma rows_exist_lookup this i row :
  rows_exist this = true -> records this !! i = Some row ->
  m_row (rmeta row) < length (t_rows (source this)).
Proof.
  unfold rows_exist. intros H Hi. rewrite forallb_forall in H.
  apply Nat.ltb_lt. apply H. apply list_elem_of_In. eapply list_elem_of_lookup_2. eauto.
Qed.

Lemma rows_exist_skeleton this this' :
  skeleton (records this') = skeleton (records this) ->
  length (t_rows (source this')) = length (t_rows (source this)) ->
  rows_exist this = true -> rows_exist this' = true.
Proof.
  unfold rows_exist. intros Hs ->. generalize (length (t_rows (source this))). intros n.
  revert Hs. unfold skeleton. generalize (records this'), (records this).
  induction l as [|x l IH]; intros [|y l']; cbn [map forallb]; try discriminate; auto.
  intros Hs H. apply cons_inj in Hs as [Hx Hl]. apply andb_true_iff in H as [H1 H2].
  apply unflagged_fields in Hx as (_ & _ & -> & _). rewrite H1. simpl. eapply IH; eauto.
Qed.

Lemma collapsed_at_alter this this' i v j :
  records this' = alter (with_meta (set__collapsed (Some v))) i (records this) ->
  collapsed_at this' j =
  if decide (i = j) then (fun _ => v) <$> records this !! j else collapsed_at this j.
Proof.
  intros H. unfold collapsed_at. rewrite H, list_lookup_alter.
  destruct (decide (i = j)) as [->|]; [|reflexivity].
  destruct (records this !! j); reflexivity.
Qed.

(** One parent: expanded when it reads as collapsed, left alone otherwise. *)
Lemma uncollapse_one this p parent :
  records this !! p = Some parent ->
  exists this',
    when (truthy (m_collapsed (rmeta parent))) (set_collapsed p false) this
      = (Normal tt, this') /\
    skeleton (records this') = skeleton (records this) /\
    length (t_rows (source this')) = length (t_rows (source this)) /\
    (forall r, hidden_marker this' r = hidden_marker this r) /\
    (forall r, highlighted this' r = highlighted this r) /\
    (forall j, truthy (collapsed_at this' j) = true -> truthy (collapsed_at this j) = true) /\
    truthy (collapsed_at this' p) = false.
Proof.
  intros Hp. destruct (truthy (m_collapsed (rmeta parent))) eqn:Ht; simpl.
  - destruct (set_collapsed_spec p false this parent Hp) as (s & Hrun & Hrec & Hlen & Hh & Hm).
    exists s. repeat split; auto.
    + rewrite Hrec. apply skeleton_alter.
    + intros j. rewrite (collapsed_at_alter _ _ _ _ _ Hrec).
      destruct (decide (p = j)); [|auto]. destruct (records this !! j); discriminate.
    + rewrite (collapsed_at_alter _ _ _ _ _ Hrec).
      destruct (decide (p = p)); [|congruence]. destruct (records this !! p); reflexivity.
  - exists this. repeat split; auto. unfold collapsed_at. rewrite Hp. exact Ht.
Qed.

Lemma hidden_at_skeleton this this' j :
  skeleton (records this') = skeleton (records this) ->
  hidden_at this' j = hidden_at this j.
Proof.
  intros H. unfold hidden_at.
  destruct (records this !! j) as [row|] eqn:Hj.
  - destruct (skeleton_lookup _ _ _ _ H Hj) as (row' & -> & Hrow).
    apply unflagged_fields in Hrow as (_ & _ & _ & Hh & _). simpl. rewrite Hh.
    reflexivity.
  - destruct (records this' !! j) as [row'|] eqn:Hj'; [|reflexivity].
    symmetry in H. destruct (skeleton_lookup _ _ _ _ H Hj') as (? & ? & _). congruence.
Qed.

Lemma uncollapseParents_walk fuel :
  forall i this path,
    rows_exist this = true ->
    ancestors fuel (records this) i = Some path ->
    exists this',
      uncollapseParents fuel i this = (Normal tt, this') /\
      skeleton (records this') = skeleton (records this) /\
      length (t_rows (source this')) = length (t_rows (source this)) /\
      (forall r, hidden_marker this' r = hidden_marker this r) /\
      (forall j, truthy (collapsed_at this' j) = true ->
                 truthy (collapsed_at this j) = true) /\
      (forall r, highlighted this r = true -> highlighted this' r = true) /\
      (forall p parent, In p path -> records this !! p = Some parent ->
         truthy (collapsed_at this' p) = false /\
         highlighted this' (m_row (rmeta parent)) = true).
Proof.
  induction fuel as [|fuel IH]; intros i this path Hex Hanc; [discriminate|].
  simpl in Hanc. destruct (records this !! i) as [row|] eqn:Hi; [|discriminate].
  simpl uncollapseParents. rewrite (bind_Normal _ _ _ _ _ (the_meta_ok _ _ _ Hi)).
  destruct (0 <? String.length (m_parent (rmeta row))).
  - destruct (position _ _) as [p|] eqn:Hpos; [|discriminate].
    destruct (ancestors fuel (records this) p) as [l|] eqn:Hl; [|discriminate].
    injection Hanc as <-.
    rewrite (bind_Normal _ _ _ _ _ (the_data_ok _ _ _ Hi)), Hpos.
    destruct (position_Some _ _ _ Hpos) as (parent & Hp & _).
    rewrite (bind_Normal _ _ _ _ _ (the_meta_ok _ _ _ Hp)).
    destruct (uncollapse_one this p parent Hp)
      as (s1 & Hrun1 & Hsk1 & Hlen1 & Hh1 & Hm1 & Hmono1 & Hp1).
    rewrite (bind_Normal _ _ _ _ _ Hrun1).
    destruct (highlight_spec (m_row (rmeta parent)) s1)
      as (s2 & Hrun2 & Hd2 & Hlen2 & Hh2 & Hm2).
    rewrite (bind_Normal _ _ _ _ _ Hrun2).
    assert (records s2 = records s1) as Hr2 by (unfold records; rewrite Hd2; reflexivity).
    destruct (IH p s2 l) as (s3 & Hrun3 & Hsk3 & Hlen3 & Hh3 & Hmono3 & Hm3 & Hpath3).
    { eapply rows_exist_skeleton; [| |exact Hex]; congruence. }
    { rewrite Hr2, (ancestors_skeleton _ _ _ _ Hsk1). exact Hl. }
    assert (forall j, collapsed_at s2 j = collapsed_at s1 j) as Hc2.
    { intros j. unfold collapsed_at. rewrite Hr2. reflexivity. }
    assert (highlighted s2 (m_row (rmeta parent)) = true) as Hlit.
    { rewrite Hm2, Nat.eqb_refl. simpl. rewrite Hlen1.
      rewrite (proj2 (Nat.ltb_lt _ _) (rows_exist_lookup _ _ _ Hex Hp)).
      apply orb_true_r. }
    exists s3. split; [exact Hrun3|]. split; [congruence|]. split; [congruence|].
    split; [intros r; rewrite Hh3, Hh2, Hh1; reflexivity|].
    split; [intros j Hj; apply Hmono1; rewrite <- Hc2; apply Hmono3; exact Hj|].
    split; [intros r Hr; apply Hm3; rewrite Hm2, Hm1, Hr; reflexivity|].
    intros q parent' [<-|Hq] Hq'.
    + rewrite Hp in Hq'. injection Hq' as <-. split; [|apply Hm3; exact Hlit].
      destruct (truthy (collapsed_at s3 p)) eqn:E; [|reflexivity].
      apply Hmono3 in E. rewrite Hc2 in E. congruence.
    + destruct (skeleton_lookup _ _ _ _ Hsk1 Hq') as (parent1 & Hq1 & Hu).
      apply unflagged_fields in Hu as (_ & _ & <- & _).
      apply Hpath3; [exact Hq|]. rewrite Hr2. exact Hq1.
  - injection Hanc as <-. exists this. repeat split; auto; contradiction.
Qed.

Lemma row_ref_skeleton d d' c : skeleton d' = skeleton d -> row_ref d' c = row_ref d c.
Proof.
  intros H. unfold row_ref. destruct (d !! c) as [child|] eqn:Hc.
  - destruct (skeleton_lookup _ _ _ _ H Hc) as (child' & -> & Hu).
    apply unflagged_fields in Hu as (_ & _ & -> & _). reflexivity.
  - destruct (d' !! c) as [child'|] eqn:Hc'; [|reflexivity].
    symmetry in H. destruct (skeleton_lookup _ _ _ _ H Hc') as (? & ? & _). congruence.
Qed.

(** ** A search changes no hidden state *)

Lemma preserves_unchanged_add this r c :
  String.eqb "reportal-hidden-row" c = false ->
  preserves (unchanged this) (row_classList_add r c).
Proof.
  intros Hc. apply preserves_modify. intros s [Hsk Hm]. split; [exact Hsk|].
  intros r'. rewrite <- Hm. unfold hidden_marker. as_markers.
  rewrite marker_add, Hc. simpl. apply orb_false_r.
Qed.

Lemma preserves_unchanged_remove this r c :
  String.eqb "reportal-hidden-row" c = false ->
  preserves (unchanged this) (row_classList_remove r c).
Proof.
  intros Hc. apply preserves_modify. intros s [Hsk Hm]. split; [exact Hsk|].
  intros r'. rewrite <- Hm. unfold hidden_marker. as_markers.
  rewrite marker_remove, Hc. simpl. apply andb_true_r.
Qed.

Lemma preserves_unchanged_the_meta this i : preserves (unchanged this) (the_meta i).
Proof. apply preserves_pure, the_meta_pure. Qed.

Lemma preserves_unchanged_the_data this : preserves (unchanged this) the_data.
Proof. apply preserves_pure, the_data_pure. Qed.

Lemma preserves_unchanged_set_collapsed this i val :
  preserves (unchanged this) (set_collapsed i val).
Proof.
  unfold set_collapsed, dispatchEvent. split_preserves;
    try apply preserves_unchanged_the_meta;
    try (apply preserves_unchanged_add; reflexivity);
    try (apply preserves_unchanged_remove; reflexivity);
    try (apply preserves_modify; intros s H; exact H).
  all: apply preserves_modify; intros s [Hsk Hm]; split; [|exact Hm].
  all: rewrite <- Hsk; unfold records; simpl; destruct (data s); simpl;
    [apply skeleton_alter|reflexivity].
Qed.

Ltac unchanged_kept :=
  repeat first
    [ apply preserves_unchanged_the_meta
    | apply preserves_unchanged_the_data
    | apply preserves_unchanged_set_collapsed
    | apply preserves_unchanged_add; reflexivity
    | apply preserves_bind; [|intros ?]
    | apply preserves_when
    | apply preserves_forEach; intros ?
    | apply preserves_if
    | apply preserves_pure; reflexivity ].

Lemma preserves_unchanged_uncollapseParents this fuel i :
  preserves (unchanged this) (uncollapseParents fuel i).
Proof.
  revert i. induction fuel as [|fuel IH]; intros i; simpl.
  - intros s H. exact H.
  - unchanged_kept. destruct (position _ _); unchanged_kept. apply IH.
Qed.

Lemma preserves_unchanged_displayChildren this fuel i :
  preserves (unchanged this) (displayChildren fuel i).
Proof.
  revert i. induction fuel as [|fuel IH]; intros i; simpl.
  - intros s H. exact H.
  - unchanged_kept. apply IH.
Qed.

Lemma preserves_unchanged_search this fuel str :
  preserves (unchanged this) (searchRowheaders fuel str).
Proof.
  unfold searchRowheaders. unchanged_kept.
  - apply preserves_unchanged_uncollapseParents.
  - apply preserves_unchanged_displayChildren.
Qed.

Lemma search_keeps_hidden this fuel str :
  (forall j, hidden_at (snd (searchRowheaders fuel str this)) j = hidden_at this j) /\
  (forall r, hidden_marker (snd (searchRowheaders fuel str this)) r = hidden_marker this r).
Proof.
  destruct (preserves_unchanged_search this fuel str this) as [Hsk Hm].
  { split; reflexivity. }
  split; [|exact Hm]. intros j. apply hidden_at_skeleton. exact Hsk.
Qed.

(** ** The class swap and the events of the walk *)

Lemma ancestors_det n :
  forall m d i l l',
    ancestors n d i = Some l -> ancestors m d i = Some l' -> l = l'.
Proof.
  induction n as [|n IH]; intros [|m] d i l l'; simpl; try discriminate.
  destruct (d !! i) as [row|]; [|discriminate].
  destruct (0 <? String.length (m_parent (rmeta row))); [|congruence].
  destruct (position _ d) as [p|]; [|discriminate].
  destruct (ancestors n d p) as [l0|] eqn:E; [|discriminate].
  destruct (ancestors m d p) as [l1|] eqn:E'; [|discriminate].
  simpl. intros [= <-] [= <-]. f_equal. eapply IH; eauto.
Qed.

Lemma ancestors_later n :
  forall d i l q,
    ancestors n d i = Some l -> In q l ->
    exists m l', ancestors m d q = Some l' /\ length l' < length l.
Proof.
  induction n as [|n IH]; intros d i l q; simpl; [discriminate|].
  destruct (d !! i) as [row|]; [|discriminate].
  destruct (0 <? String.length (m_parent (rmeta row))); [|intros [= <-] []].
  destruct (position _ d) as [p|]; [|discriminate].
  destruct (ancestors n d p) as [l0|] eqn:E; [|discriminate].
  simpl. intros [= <-] [<-|Hq].
  - exists n, l0. split; [exact E|]. simpl. lia.
  - destruct (IH d p l0 q E Hq) as (m & l' & Hm & Hlt).
    exists m, l'. split; [exact Hm|]. simpl. lia.
Qed.

(** A chain of parents that ends at a root passes no row twice. *)
Lemma ancestors_fresh n d p l : ancestors n d p = Some l -> ~ In p l.
Proof.
  intros H Hin. destruct (ancestors_later n d p l p H Hin) as (m & l' & Hm & Hlt).
  rewrite (ancestors_det _ _ _ _ _ _ Hm H) in Hlt. lia.
Qed.

Lemma existsb_within {A} (f g : A -> bool) (l : list A) :
  (forall x, In x l -> f x = g x) -> existsb f l = existsb g l.
Proof.
  induction l as [|x l IH]; intros H; simpl; [reflexivity|].
  rewrite (H x) by (left; reflexivity). rewrite IH; [reflexivity|].
  intros y Hy. apply H. right. exact Hy.
Qed.

(** The highlight of a row dispatches nothing and writes no other class. *)
Lemma highlight_frame r this this' :
  row_classList_add r "matched-search" this = (Normal tt, this') ->
  t_events (source this') = t_events (source this) /\
  (forall c r', String.eqb c "matched-search" = false ->
                marker c this' r' = marker c this r').
Proof.
  intros H. injection H as <-. split; [reflexivity|].
  intros c r' Hc. rewrite marker_add, Hc. apply orb_false_r.
Qed.

(** One parent, in full: when it reads as collapsed the setter stores [false],
    swaps the two classes of its row and dispatches the event on it. *)
Lemma uncollapse_one_swap this p parent :
  records this !! p = Some parent ->
  m_row (rmeta parent) < length (t_rows (source this)) ->
  let t := truthy (m_collapsed (rmeta parent)) in
  exists this',
    when t (set_collapsed p false) this = (Normal tt, this') /\
    (forall j, collapsed_at this' j =
               if t && (j =? p) then Some false else collapsed_at this j) /\
    t_events (source this') =
      t_events (source this) ++
      (if t then [("reportal-table-hierarchy-uncollapsed", OnRow (m_row (rmeta parent)))]
       else []) /\
    (forall r, marker "reportal-uncollapsed-row" this' r =
               marker "reportal-uncollapsed-row" this r ||
               (t && (r =? m_row (rmeta parent)))) /\
    (forall r, marker "reportal-collapsed-row" this' r =
               marker "reportal-collapsed-row" this r &&
               negb (t && (r =? m_row (rmeta parent)))).
Proof.
  intros Hp Hlt t. subst t. destruct (truthy (m_collapsed (rmeta parent))) eqn:Ht; simpl.
  - unfold set_collapsed. rewrite (bind_Normal _ _ _ _ _ (the_meta_ok _ _ _ Hp)).
    pose proof Hp as Hp'. apply records_lookup_data in Hp' as (d & Hd & Hi).
    eexists. split; [reflexivity|]. simpl.
    split; [|split; [reflexivity|]].
    + intros j. unfold collapsed_at, records. simpl. rewrite Hd. simpl.
      rewrite list_lookup_alter. destruct (Nat.eqb_spec j p) as [->|Hne].
      * destruct (decide (p = p)); [|congruence]. rewrite Hi. reflexivity.
      * destruct (decide (p = j)); [congruence|reflexivity].
    + split; intros r; rewrite marker_events, marker_remove, marker_add; simpl.
      * rewrite andb_true_r. f_equal.
        apply Nat.ltb_lt in Hlt. rewrite Hlt. apply andb_true_r.
      * rewrite orb_false_r. reflexivity.
  - exists this. split; [reflexivity|]. split; [reflexivity|].
    split; [rewrite app_nil_r; reflexivity|].
    split; intros r; [rewrite orb_false_r|rewrite andb_true_r]; reflexivity.
Qed.

Lemma expanded_by_cons this p parent l :
  records this !! p = Some parent ->
  expanded_by this (p :: l) =
  if truthy (m_collapsed (rmeta parent)) then p :: expanded_by this l
  else expanded_by this l.
Proof.
  intros Hp. unfold expanded_by. simpl. unfold collapsed_at at 1. rewrite Hp. reflexivity.
Qed.

(** The walk, in full: the setter runs on the rows of the chain that read
    [collapsed] as true, in the order of the walk, and on no other row. *)
Lemma uncollapseParents_swaps fuel :
  forall i this path,
    rows_exist this = true ->
    ancestors fuel (records this) i = Some path ->
    exists this',
      uncollapseParents fuel i this = (Normal tt, this') /\
      skeleton (records this') = skeleton (records this) /\
      length (t_rows (source this')) = length (t_rows (source this)) /\
      t_events (source this') =
        t_events (source this) ++
        map (fun p => ("reportal-table-hierarchy-uncollapsed",
                       OnRow (row_ref (records this) p)))
            (expanded_by this path) /\
      (forall j, collapsed_at this' j =
                 if existsb (Nat.eqb j) (expanded_by this path) then Some false
                 else collapsed_at this j) /\
      (forall r, marker "reportal-uncollapsed-row" this' r =
                 marker "reportal-uncollapsed-row" this r ||
                 existsb (Nat.eqb r) (map (row_ref (records this)) (expanded_by this path))) /\
      (forall r, marker "reportal-collapsed-row" this' r =
                 marker "reportal-collapsed-row" this r &&
                 negb (existsb (Nat.eqb r)
                         (map (row_ref (records this)) (expanded_by this path)))).
Proof.
  induction fuel as [|fuel IH]; intros i this path Hex Hanc; [discriminate|].
  simpl in Hanc. destruct (records this !! i) as [row|] eqn:Hi; [|discriminate].
  simpl uncollapseParents. rewrite (bind_Normal _ _ _ _ _ (the_meta_ok _ _ _ Hi)).
  destruct (0 <? String.length (m_parent (rmeta row))).
  - destruct (position _ _) as [p|] eqn:Hpos; [|discriminate].
    destruct (ancestors fuel (records this) p) as [l|] eqn:Hl; [|discriminate].
    injection Hanc as <-.
    rewrite (bind_Normal _ _ _ _ _ (the_data_ok _ _ _ Hi)), Hpos.
    destruct (position_Some _ _ _ Hpos) as (parent & Hp & _).
    rewrite (bind_Normal _ _ _ _ _ (the_meta_ok _ _ _ Hp)).
    pose proof (rows_exist_lookup _ _ _ Hex Hp) as Hlt.
    destruct (uncollapse_one this p parent Hp)
      as (s1 & Hrun1 & Hsk1 & Hlen1 & _).
    destruct (uncollapse_one_swap this p parent Hp Hlt)
      as (s1' & Hrun1' & Hc1 & Hev1 & Hu1 & Hd1).
    rewrite Hrun1 in Hrun1'. injection Hrun1' as <-.
    rewrite (bind_Normal _ _ _ _ _ Hrun1).
    destruct (highlight_spec (m_row (rmeta parent)) s1)
      as (s2 & Hrun2 & Hd2 & Hlen2 & _).
    destruct (highlight_frame _ _ _ Hrun2) as (Hev2 & Hm2).
    rewrite (bind_Normal _ _ _ _ _ Hrun2).
    assert (records s2 = records s1) as Hr2 by (unfold records; rewrite Hd2; reflexivity).
    assert (skeleton (records s2) = skeleton (records this)) as Hsk2 by congruence.
    destruct (IH p s2 l) as (s3 & Hrun3 & Hsk3 & Hlen3 & Hev3 & Hc3 & Hu3 & Hd3).
    { eapply rows_exist_skeleton; [| |exact Hex]; congruence. }
    { rewrite (ancestors_skeleton _ _ _ _ Hsk2). exact Hl. }
    assert (forall j, collapsed_at s2 j = collapsed_at s1 j) as Hc2.
    { intros j. unfold collapsed_at. rewrite Hr2. reflexivity. }
    assert (expanded_by s2 l = expanded_by this l) as He.
    { unfold expanded_by. apply filter_ext_in. intros q Hq.
      rewrite Hc2, Hc1. destruct (Nat.eqb_spec q p) as [->|_].
      - destruct (ancestors_fresh _ _ _ _ Hl Hq).
      - rewrite andb_false_r. reflexivity. }
    assert (forall q, row_ref (records s2) q = row_ref (records this) q) as Href.
    { intros q. apply row_ref_skeleton. exact Hsk2. }
    assert (row_ref (records this) p = m_row (rmeta parent)) as Hrow.
    { unfold row_ref. rewrite Hp. reflexivity. }
    rewrite He in Hev3, Hc3, Hu3, Hd3.
    rewrite (map_ext _ _ Href) in Hu3, Hd3.
    rewrite (map_ext (fun q => ("reportal-table-hierarchy-uncollapsed",
                                OnRow (row_ref (records s2) q)))
                     (fun q => ("reportal-table-hierarchy-uncollapsed",
                                OnRow (row_ref (records this) q)))) in Hev3
      by (intros q; rewrite Href; reflexivity).
    rewrite (expanded_by_cons _ _ _ _ Hp).
    exists s3. split; [exact Hrun3|]. split; [congruence|]. split; [congruence|].
    split; [|split; [|split]].
    + rewrite Hev3, Hev2, Hev1.
      destruct (truthy (m_collapsed (rmeta parent))); simpl.
      * rewrite Hrow, <- app_assoc. reflexivity.
      * rewrite app_nil_r. reflexivity.
    + intros j. rewrite Hc3, Hc2, Hc1.
      destruct (truthy (m_collapsed (rmeta parent))); simpl; [|reflexivity].
      destruct (j =? p); simpl; [|reflexivity].
      destruct (existsb _ _); reflexivity.
    + intros r. rewrite Hu3, Hm2, Hu1 by reflexivity.
      destruct (truthy (m_collapsed (rmeta parent))); simpl.
      * rewrite Hrow, orb_assoc. reflexivity.
      * rewrite orb_false_r. reflexivity.
    + intros r. rewrite Hd3, Hm2, Hd1 by reflexivity.
      destruct (truthy (m_collapsed (rmeta parent))); simpl.
      * rewrite Hrow, negb_orb, andb_assoc. reflexivity.
      * rewrite andb_true_r. reflexivity.
  - injection Hanc as <-. exists this. split; [reflexivity|].
    split; [reflexivity|]. split; [reflexivity|]. simpl.
    split; [rewrite app_nil_r; reflexivity|]. split; [reflexivity|].
    split; intros r; [rewrite orb_false_r|rewrite andb_true_r]; reflexivity.
Qed.

(** The setter on a row of [data], assigned [false]. *)
Lemma set_collapsed_false_full this q row :
  records this !! q = Some row ->
  exists this',
    set_collapsed q false this = (Normal tt, this') /\
    skeleton (records this') = skeleton (records this) /\
    length (t_rows (source this')) = length (t_rows (source this)) /\
    (forall j, collapsed_at this' j = if j =? q then Some false else collapsed_at this j) /\
    t_events (source this') =
      t_events (source this) ++
      [("reportal-table-hierarchy-uncollapsed", OnRow (m_row (rmeta row)))] /\
    (forall r, marker "reportal-uncollapsed-row" this' r =
               marker "reportal-uncollapsed-row" this r ||
               ((r =? m_row (rmeta row)) &&
                (m_row (rmeta row) <? length (t_rows (source this))))) /\
    (forall r, marker "reportal-collapsed-row" this' r =
               marker "reportal-collapsed-row" this r && negb (r =? m_row (rmeta row))) /\
    (forall r, highlighted this' r = highlighted this r).
Proof.
  intros Hq. destruct (set_collapsed_spec q false this row Hq)
    as (s & Hrun & Hrec & Hlen & _ & Hm).
  exists s. split; [exact Hrun|]. split; [rewrite Hrec; apply skeleton_alter|].
  split; [exact Hlen|].
  split.
  { intros j. rewrite (collapsed_at_alter _ _ _ _ _ Hrec).
    destruct (Nat.eqb_spec j q) as [->|Hne].
    - destruct (decide (q = q)); [|congruence]. rewrite Hq. reflexivity.
    - destruct (decide (q = j)); [congruence|reflexivity]. }
  unfold set_collapsed in Hrun.
  rewrite (bind_Normal _ _ _ _ _ (the_meta_ok _ _ _ Hq)) in Hrun.
  injection Hrun as <-. split; [reflexivity|].
  split; [|split; [|exact Hm]]; intros r;
    rewrite marker_events, marker_remove, marker_add; simpl.
  - rewrite andb_true_r. reflexivity.
  - rewrite orb_false_r. reflexivity.
Qed.

Lemma set_collapsed_absent this q val :
  records this !! q = None -> snd (set_collapsed q val this) = this.
Proof.
  intros Hq. unfold set_collapsed, bind, the_meta. unfold records in Hq.
  destruct (data this) as [d|]; [|reflexivity]. rewrite Hq. reflexivity.
Qed.

(** ** What a search can change *)

(** A search writes through two operations only: the [collapsed] setter,
    assigned [false], and the highlight of a row. *)
Section Searching.

Variable I : HierarchyTable -> Prop.
Hypothesis I_expand : forall q, preserves I (set_collapsed q false).
Hypothesis I_mark : forall r, preserves I (row_classList_add r "matched-search").

Ltac searching :=
  repeat first
    [ apply I_expand
    | apply I_mark
    | apply preserves_bind; [|intros ?]
    | apply preserves_when
    | apply preserves_forEach; intros ?
    | apply preserves_if
    | apply preserves_pure; first [apply the_meta_pure | apply the_data_pure | reflexivity] ].

Lemma searching_uncollapseParents fuel i : preserves I (uncollapseParents fuel i).
Proof.
  revert i. induction fuel as [|fuel IH]; intros i; simpl.
  - intros s H. exact H.
  - searching. destruct (position _ _); searching. apply IH.
Qed.

Lemma searching_displayChildren fuel i : preserves I (displayChildren fuel i).
Proof.
  revert i. induction fuel as [|fuel IH]; intros i; simpl.
  - intros s H. exact H.
  - searching. apply IH.
Qed.

Lemma searching_step fuel i :
  preserves I (bind (the_meta i) (fun m =>
                 bind (row_classList_add (m_row m) "matched-search") (fun _ =>
                 bind (uncollapseParents fuel i) (fun _ => displayChildren fuel i)))).
Proof.
  searching; [apply searching_uncollapseParents|apply searching_displayChildren].
Qed.

End Searching.

Lemma ancestors_start n d i l : ancestors n d i = Some l -> exists row, d !! i = Some row.
Proof.
  destruct n as [|n]; simpl; [discriminate|].
  destruct (d !! i) as [row|]; [eauto|discriminate].
Qed.

Lemma ancestors_lookup n d i l p :
  ancestors n d i = Some l -> In p l -> exists parent, d !! p = Some parent.
Proof.
  intros H Hp. destruct (ancestors_later _ _ _ _ _ H Hp) as (m & l' & Hm & _).
  exact (ancestors_start _ _ _ _ Hm).
Qed.

Lemma same_frame_expand this q : preserves (same_frame this) (set_collapsed q false).
Proof.
  intros s [Hsk Hlen]. destruct (records s !! q) as [row|] eqn:Hq.
  - destruct (set_collapsed_false_full s q row Hq) as (s' & Hrun & Hsk' & Hlen' & _).
    rewrite Hrun. simpl. split; congruence.
  - rewrite set_collapsed_absent by exact Hq. split; assumption.
Qed.

Lemma same_frame_mark this r :
  preserves (same_frame this) (row_classList_add r "matched-search").
Proof.
  intros s [Hsk Hlen]. destruct (highlight_spec r s) as (s' & Hrun & Hd & Hlen' & _).
  rewrite Hrun. simpl. unfold same_frame, records. rewrite Hd. split; [exact Hsk|congruence].
Qed.

Lemma expanded_expand p r q : preserves (expanded p r) (set_collapsed q false).
Proof.
  intros s (Hc & Hu & Hd & Hev). destruct (records s !! q) as [row|] eqn:Hq.
  - destruct (set_collapsed_false_full s q row Hq)
      as (s' & Hrun & _ & _ & Hc' & Hev' & Hu' & Hd' & _).
    rewrite Hrun. simpl. split; [|split; [|split]].
    + rewrite Hc'. destruct (p =? q); [reflexivity|exact Hc].
    + rewrite Hu', Hu. reflexivity.
    + rewrite Hd', Hd. reflexivity.
    + rewrite Hev'. apply in_or_app. left. exact Hev.
  - rewrite set_collapsed_absent by exact Hq. repeat split; assumption.
Qed.

Lemma expanded_mark p r r' :
  preserves (expanded p r) (row_classList_add r' "matched-search").
Proof.
  intros s (Hc & Hu & Hd & Hev). destruct (highlight_spec r' s) as (s' & Hrun & Hdata & _).
  destruct (highlight_frame _ _ _ Hrun) as (Hev' & Hm').
  rewrite Hrun. simpl. split; [|split; [|split]].
  - unfold collapsed_at, records. rewrite Hdata. exact Hc.
  - rewrite Hm' by reflexivity. exact Hu.
  - rewrite Hm' by reflexivity. exact Hd.
  - rewrite Hev'. exact Hev.
Qed.

Lemma falsy_expand p q :
  preserves (fun s => truthy (collapsed_at s p) = false) (set_collapsed q false).
Proof.
  intros s Hc. destruct (records s !! q) as [row|] eqn:Hq.
  - destruct (set_collapsed_false_full s q row Hq) as (s' & Hrun & _ & _ & Hc' & _).
    rewrite Hrun. simpl. rewrite Hc'. destruct (p =? q); [reflexivity|exact Hc].
  - rewrite set_collapsed_absent by exact Hq. exact Hc.
Qed.

Lemma falsy_mark p r :
  preserves (fun s => truthy (collapsed_at s p) = false)
            (row_classList_add r "matched-search").
Proof.
  intros s Hc. destruct (highlight_spec r s) as (s' & Hrun & Hdata & _).
  rewrite Hrun. simpl. unfold collapsed_at, records. rewrite Hdata. exact Hc.
Qed.

Lemma lit_expand r q :
  preserves (fun s => highlighted s r = true) (set_collapsed q false).
Proof.
  intros s Hc. destruct (records s !! q) as [row|] eqn:Hq.
  - destruct (set_collapsed_false_full s q row Hq)
      as (s' & Hrun & _ & _ & _ & _ & _ & _ & Hm).
    rewrite Hrun. simpl. rewrite Hm. exact Hc.
  - rewrite set_collapsed_absent by exact Hq. exact Hc.
Qed.

Lemma lit_mark r r' :
  preserves (fun s => highlighted s r = true) (row_classList_add r' "matched-search").
Proof.
  intros s Hc. destruct (highlight_spec r' s) as (s' & Hrun & _ & _ & _ & Hm).
  rewrite Hrun. simpl. rewrite Hm, Hc. reflexivity.
Qed.

Lemma pending_expand this p q :
  row_ref (records this) p < length (t_rows (source this)) ->
  preserves (pending this p) (set_collapsed q false).
Proof.
  intros Hlt s [Hf Hor]. split; [apply same_frame_expand; exact Hf|].
  destruct Hor as [Hc|Hdone]; [|right; apply expanded_expand; exact Hdone].
  destruct (records s !! q) as [row|] eqn:Hq.
  - destruct (set_collapsed_false_full s q row Hq)
      as (s' & Hrun & _ & _ & Hc' & Hev' & Hu' & Hd' & _).
    rewrite Hrun. simpl. destruct (Nat.eqb_spec p q) as [->|Hne].
    + right. destruct Hf as [Hsk Hlen].
      assert (row_ref (records this) q = m_row (rmeta row)) as Hrow.
      { rewrite <- (row_ref_skeleton _ _ q Hsk). unfold row_ref. rewrite Hq. reflexivity. }
      rewrite Hrow in *. split; [|split; [|split]].
      * rewrite Hc', Nat.eqb_refl. reflexivity.
      * rewrite Hu', Nat.eqb_refl, Hlen. apply Nat.ltb_lt in Hlt. rewrite Hlt.
        apply orb_true_r.
      * rewrite Hd', Nat.eqb_refl. apply andb_false_r.
      * rewrite Hev'. apply in_or_app. right. left. reflexivity.
    + left. rewrite Hc'. apply Nat.eqb_neq in Hne. rewrite Hne. exact Hc.
  - rewrite set_collapsed_absent by exact Hq. left. exact Hc.
Qed.

Lemma pending_mark this p r :
  preserves (pending this p) (row_classList_add r "matched-search").
Proof.
  intros s [Hf Hor]. split; [apply same_frame_mark; exact Hf|].
  destruct Hor as [Hc|Hdone]; [left|right; apply expanded_mark; exact Hdone].
  destruct (highlight_spec r s) as (s' & Hrun & Hdata & _).
  rewrite Hrun. simpl. unfold collapsed_at, records. rewrite Hdata. exact Hc.
Qed.

Lemma existsb_eqb_In x l : In x l -> existsb (Nat.eqb x) l = true.
Proof.
  intros H. apply existsb_exists. exists x. split; [exact H|apply Nat.eqb_refl].
Qed.

Lemma existsb_eqb_out x l : ~ In x l -> existsb (Nat.eqb x) l = false.
Proof.
  intros H. destruct (existsb (Nat.eqb x) l) eqn:E; [|reflexivity].
  apply existsb_exists in E as (y & Hy & Hxy). apply Nat.eqb_eq in Hxy as ->.
  contradiction.
Qed.

(** The walk, row by row of the chain. *)
Lemma uncollapseParents_expands fuel i this path :
  rows_exist this = true ->
  ancestors fuel (records this) i = Some path ->
  exists this',
    uncollapseParents fuel i this = (Normal tt, this') /\
    same_frame this this' /\
    (forall p, In p path ->
       truthy (collapsed_at this' p) = false /\
       highlighted this' (row_ref (records this) p) = true /\
       (truthy (collapsed_at this p) = true ->
        expanded p (row_ref (records this) p) this')).
Proof.
  intros Hex Hanc.
  destruct (uncollapseParents_walk fuel i this path Hex Hanc)
    as (s & Hrun & Hsk & Hlen & _ & _ & _ & Hpath).
  destruct (uncollapseParents_swaps fuel i this path Hex Hanc)
    as (s' & Hrun' & _ & _ & Hev & Hc & Hu & Hd).
  rewrite Hrun in Hrun'. injection Hrun' as <-.
  exists s. split; [exact Hrun|]. split; [split; assumption|].
  intros p Hp. destruct (ancestors_lookup _ _ _ _ _ Hanc Hp) as (parent & Hparent).
  assert (row_ref (records this) p = m_row (rmeta parent)) as Hrow.
  { unfold row_ref. rewrite Hparent. reflexivity. }
  destruct (Hpath p parent Hp Hparent) as [Hfalse Hlit].
  split; [exact Hfalse|]. split; [rewrite Hrow; exact Hlit|].
  intros Ht.
  assert (In p (expanded_by this path)) as Hin.
  { apply filter_In. split; assumption. }
  split; [|split; [|split]].
  - rewrite Hc, (existsb_eqb_In _ _ Hin). reflexivity.
  - rewrite Hu, (existsb_eqb_In _ _ (in_map _ _ _ Hin)). apply orb_true_r.
  - rewrite Hd, (existsb_eqb_In _ _ (in_map _ _ _ Hin)). apply andb_false_r.
  - rewrite Hev. apply in_or_app. right.
    apply (in_map (fun q => ("reportal-table-hierarchy-uncollapsed",
                             OnRow (row_ref (records this) q))) _ _ Hin).
Qed.

Lemma same_frame_rows_exist this s :
  same_frame this s -> rows_exist this = true -> rows_exist s = true.
Proof. intros [Hsk Hlen]. apply rows_exist_skeleton; assumption. Qed.

(** The loop of a search over the matched rows. *)
Lemma search_loop_expands fuel this i path :
  rows_exist this = true ->
  ancestors fuel (records this) i = Some path ->
  forall l s s',
    same_frame this s ->
    (forall p, In p path -> truthy (collapsed_at this p) = true -> pending this p s) ->
    forEach (fun i => bind (the_meta i) (fun m =>
               bind (row_classList_add (m_row m) "matched-search") (fun _ =>
               bind (uncollapseParents fuel i) (fun _ => displayChildren fuel i))))
            l s = (Normal tt, s') ->
    In i l ->
    forall p, In p path ->
      truthy (collapsed_at s' p) = false /\
      highlighted s' (row_ref (records this) p) = true /\
      (truthy (collapsed_at this p) = true ->
       expanded p (row_ref (records this) p) s').
Proof.
  intros Hex Hanc.
  assert (forall p, In p path ->
            row_ref (records this) p < length (t_rows (source this))) as Hrows.
  { intros p Hp. destruct (ancestors_lookup _ _ _ _ _ Hanc Hp) as (parent & Hparent).
    unfold row_ref. rewrite Hparent. exact (rows_exist_lookup _ _ _ Hex Hparent). }
  induction l as [|a l IH]; intros s s' Hf Hpend Hrun Hin; [destruct Hin|].
  simpl in Hrun. apply bind_Normal_run in Hrun as ([] & s1 & Hstep & Hrest).
  assert (same_frame this s1) as Hf1.
  { pose proof (searching_step _ (same_frame_expand this) (same_frame_mark this)
                  fuel a s Hf) as H. rewrite Hstep in H. exact H. }
  assert (forall p, In p path -> truthy (collapsed_at this p) = true -> pending this p s1)
    as Hpend1.
  { intros p Hp Ht.
    pose proof (searching_step _ (fun q => pending_expand this p q (Hrows p Hp))
                  (pending_mark this p) fuel a s (Hpend p Hp Ht)) as H.
    rewrite Hstep in H. exact H. }
  destruct Hin as [->|Hin]; [|exact (IH s1 s' Hf1 Hpend1 Hrest Hin)].
  clear IH Hf1 Hpend1. intros p Hp.
  apply bind_Normal_run in Hstep as (m & s0 & Hmeta & Hstep).
  assert (s0 = s) as ->.
  { pose proof (the_meta_pure i s) as H. rewrite Hmeta in H. exact H. }
  apply bind_Normal_run in Hstep as ([] & sa & Hmark & Hstep).
  apply bind_Normal_run in Hstep as ([] & sb & Hwalk & Hshow).
  assert (same_frame this sa) as Hfa.
  { pose proof (same_frame_mark this (m_row m) s Hf) as H. rewrite Hmark in H. exact H. }
  destruct (uncollapseParents_expands fuel i sa path) as (sb' & Hwalk' & Hfb & Hsb).
  { exact (same_frame_rows_exist _ _ Hfa Hex). }
  { rewrite (ancestors_skeleton _ _ _ _ (proj1 Hfa)). exact Hanc. }
  rewrite Hwalk in Hwalk'. injection Hwalk' as <-.
  destruct (Hsb p Hp) as (Hfalse & Hlit & Hdone).
  rewrite (row_ref_skeleton _ _ p (proj1 Hfa)) in Hlit, Hdone.
  assert (truthy (collapsed_at this p) = true ->
          expanded p (row_ref (records this) p) sb) as Hdone'.
  { intros Ht.
    pose proof (pending_mark this p (m_row m) s (Hpend p Hp Ht)) as H.
    rewrite Hmark in H. simpl in H. destruct H as [_ [Hc|He]]; [exact (Hdone Hc)|].
    pose proof (searching_uncollapseParents _ (expanded_expand p _) (expanded_mark p _)
                  fuel i sa He) as H.
    rewrite Hwalk in H. exact H. }
  set (rest := fun st : HierarchyTable =>
                 snd (forEach (fun i => bind (the_meta i) (fun m =>
                        bind (row_classList_add (m_row m) "matched-search") (fun _ =>
                        bind (uncollapseParents fuel i) (fun _ => displayChildren fuel i))))
                        l (snd (displayChildren fuel i st)))).
  assert (s' = rest sb) as ->.
  { unfold rest. rewrite Hshow. simpl. rewrite Hrest. reflexivity. }
  assert (forall I : HierarchyTable -> Prop,
            (forall q, preserves I (set_collapsed q false)) ->
            (forall r, preserves I (row_classList_add r "matched-search")) ->
            I sb -> I (rest sb)) as Hkeep.
  { intros I He Hm HI. unfold rest.
    apply (preserves_forEach I); [intros x; apply searching_step; assumption|].
    apply searching_displayChildren; assumption. }
  split; [|split].
  - apply (Hkeep (fun st => truthy (collapsed_at st p) = false));
      [apply falsy_expand|apply falsy_mark|exact Hfalse].
  - apply (Hkeep (fun st => highlighted st (row_ref (records this) p) = true));
      [apply lit_expand|apply lit_mark|exact Hlit].
  - intros Ht. apply (Hkeep (expanded p (row_ref (records this) p)));
      [apply expanded_expand|apply expanded_mark|exact (Hdone' Ht)].
Qed.

(** C7, amended.  For a row of [data] whose chain of parents ends at a root,
    [uncollapseParents] completes normally; every row of the chain then reads
    [collapsed] as false and carries the highlight class.  The rows of the
    chain that read [collapsed] as true were assigned [false] through the
    setter, with its side effects: such a row then carries the class
    [reportal-uncollapsed-row] and not [reportal-collapsed-row], and the event
    [reportal-table-hierarchy-uncollapsed] was dispatched on it.  The events of
    the walk are exactly these, one for each such row in the order of the
    walk; the [collapsed] flag of any other row of [data] and the two classes
    on any other table row are left as they were.  No hidden propagation runs,
    in the walk or anywhere in a search: the [hidden] flag of every row of
    [data] and the hidden marker of every table row, those of a matched row
    included, are after a search what they were before it.  When the search
    completes normally and the row matches, every row of its chain reads
    [collapsed] as false and carries the highlight class after the search, and
    the ones that read [collapsed] as true before it have been expanded
    through the setter, with the class swap and the event. *)
Theorem uncollapseParents_marks_path (fuel i : nat) (this : HierarchyTable)
    (path : list nat) :
  rows_exist this = true ->
  ancestors fuel (records this) i = Some path ->
  (exists this',
     uncollapseParents fuel i this = (Normal tt, this') /\
     (forall p parent, In p path -> records this !! p = Some parent ->
        truthy (collapsed_at this' p) = false /\
        highlighted this' (m_row (rmeta parent)) = true) /\
     (forall j, hidden_at this' j = hidden_at this j) /\
     (forall r, hidden_marker this' r = hidden_marker this r) /\
     (forall p parent, In p path -> records this !! p = Some parent ->
        truthy (collapsed_at this p) = true ->
        expanded p (m_row (rmeta parent)) this') /\
     t_events (source this') =
       t_events (source this) ++
       map (fun p => ("reportal-table-hierarchy-uncollapsed",
                      OnRow (row_ref (records this) p)))
           (expanded_by this path) /\
     (forall j, ~ In j (expanded_by this path) ->
        collapsed_at this' j = collapsed_at this j) /\
     (forall r, ~ In r (map (row_ref (records this)) (expanded_by this path)) ->
        marker "reportal-uncollapsed-row" this' r =
          marker "reportal-uncollapsed-row" this r /\
        marker "reportal-collapsed-row" this' r =
          marker "reportal-collapsed-row" this r)) /\
  (forall str,
     let after := snd (searchRowheaders fuel str this) in
     (forall j, hidden_at after j = hidden_at this j) /\
     (forall r, hidden_marker after r = hidden_marker this r) /\
     (fst (searchRowheaders fuel str this) = Normal tt ->
      In i (matched_rows this str (records this)) ->
      forall p parent, In p path -> records this !! p = Some parent ->
        truthy (collapsed_at after p) = false /\
        highlighted after (m_row (rmeta parent)) = true /\
        (truthy (collapsed_at this p) = true ->
         expanded p (m_row (rmeta parent)) after))).
Proof.
  intros Hex Hanc. split.
  - destruct (uncollapseParents_walk fuel i this path Hex Hanc)
      as (s & Hrun & Hsk & _ & Hh & _ & _ & Hpath).
    destruct (uncollapseParents_swaps fuel i this path Hex Hanc)
      as (s' & Hrun' & _ & _ & Hev & Hc & Hu & Hd).
    destruct (uncollapseParents_expands fuel i this path Hex Hanc)
      as (s'' & Hrun'' & _ & Hdone).
    rewrite Hrun in Hrun', Hrun''. injection Hrun' as <-. injection Hrun'' as <-.
    exists s. split; [exact Hrun|]. split; [exact Hpath|].
    split; [intros j; apply hidden_at_skeleton; exact Hsk|]. split; [exact Hh|].
    split; [|split; [exact Hev|split]].
    + intros p parent Hp Hparent Ht. destruct (Hdone p Hp) as (_ & _ & He).
      unfold row_ref in He. rewrite Hparent in He. exact (He Ht).
    + intros j Hj. rewrite Hc, (existsb_eqb_out _ _ Hj). reflexivity.
    + intros r Hr. rewrite Hu, Hd, (existsb_eqb_out _ _ Hr).
      split; [apply orb_false_r|apply andb_true_r].
  - intros str after. destruct (search_keeps_hidden this fuel str) as [Hh Hm].
    split; [exact Hh|]. split; [exact Hm|].
    intros Hrun Hin p parent Hp Hparent.
    assert (searchRowheaders fuel str this = (Normal tt, after)) as Hrun'.
    { subst after. destruct (searchRowheaders fuel str this) as [c s].
      simpl in Hrun. rewrite Hrun. reflexivity. }
    clearbody after. unfold searchRowheaders in Hrun'.
    destruct (literal_pattern str); [|discriminate].
    apply bind_Normal_run in Hrun' as (s0 & s & Hget & Hrun'). injection Hget as <- <-.
    destruct (ancestors_start _ _ _ _ Hanc) as (row & Hi).
    rewrite (bind_Normal _ _ _ _ _ (the_data_ok _ _ _ Hi)) in Hrun'.
    assert (same_frame this this) as Hf by (split; reflexivity).
    pose proof (search_loop_expands fuel this i path Hex Hanc _ this after Hf
                  (fun q _ Hq => conj Hf (or_introl Hq)) Hrun' Hin p Hp) as H.
    unfold row_ref in H. rewrite Hparent in H. exact H.
Qed.

Lemma uncollapseParents_marks_path_area :
  rows_exist Sample.area = true /\
  ancestors 3 (records Sample.area) 2 = Some [1; 0] /\
  (exists this',
     uncollapseParents 3 2 Sample.area = (Normal tt, this') /\
     (forall p parent, In p [1; 0] -> records Sample.area !! p = Some parent ->
        truthy (collapsed_at this' p) = false /\
        highlighted this' (m_row (rmeta parent)) = true) /\
     (forall j, hidden_at this' j = hidden_at Sample.area j) /\
     (forall r, hidden_marker this' r = hidden_marker Sample.area r) /\
     (forall p parent, In p [1; 0] -> records Sample.area !! p = Some parent ->
        truthy (collapsed_at Sample.area p) = true ->
        expanded p (m_row (rmeta parent)) this') /\
     t_events (source this') =
       t_events (source Sample.area) ++
       map (fun p => ("reportal-table-hierarchy-uncollapsed",
                      OnRow (row_ref (records Sample.area) p)))
           (expanded_by Sample.area [1; 0]) /\
     (forall j, ~ In j (expanded_by Sample.area [1; 0]) ->
        collapsed_at this' j = collapsed_at Sample.area j) /\
     (forall r, ~ In r (map (row_ref (records Sample.area))
                            (expanded_by Sample.area [1; 0])) ->
        marker "reportal-uncollapsed-row" this' r =
          marker "reportal-uncollapsed-row" Sample.area r /\
        marker "reportal-collapsed-row" this' r =
          marker "reportal-collapsed-row" Sample.area r)) /\
  (forall str,
     let after := snd (searchRowheaders 3 str Sample.area) in
     (forall j, hidden_at after j = hidden_at Sample.area j) /\
     (forall r, hidden_marker after r = hidden_marker Sample.area r) /\
     (fst (searchRowheaders 3 str Sample.area) = Normal tt ->
      In 2 (matched_rows Sample.area str (records Sample.area)) ->
      forall p parent, In p [1; 0] -> records Sample.area !! p = Some parent ->
        truthy (collapsed_at after p) = false /\
        highlighted after (m_row (rmeta parent)) = true /\
        (truthy (collapsed_at Sample.area p) = true ->
         expanded p (m_row (rmeta parent)) after))).
Proof.
  split; [vm_compute; reflexivity|]. split; [vm_compute; reflexivity|].
  apply (uncollapseParents_marks_path 3 2 Sample.area [1; 0]); vm_compute; reflexivity.
Defined.

(** ** Two clicks on a collapse button *)

Lemma alter_fix {A} (f : A -> A) i (l : list A) x :
  l !! i = Some x -> f x = x -> alter f i l = l.
Proof.
  revert i. induction l as [|y l IH]; intros [|i]; simpl; try discriminate.
  - intros [= ->] ->. reflexivity.
  - intros Hi Hx. f_equal. apply IH; assumption.
Qed.

Lemma set__hidden_fix child :
  m_hidden (rmeta child) = true -> with_meta (set__hidden true) child = child.
Proof.
  destruct child as [c [? ? ? ? ? ? ? ? ?]]. simpl. intros ->. reflexivity.
Qed.

Lemma row_ref_lookup d c child : d !! c = Some child -> row_ref d c = m_row (rmeta child).
Proof. unfold row_ref. intros ->. reflexivity. Qed.

Lemma toggleChild_hide i c this row child :
  records this !! i = Some row ->
  truthy (m_collapsed (rmeta row)) = true ->
  records this !! c = Some child ->
  m_hidden (rmeta child) = true ->
  (m_hasChildren (rmeta child) = true -> truthy (m_collapsed (rmeta child)) = true) ->
  exists this',
    toggleChild i c this = (Normal tt, this') /\
    records this' = records this /\
    length (t_rows (source this')) = length (t_rows (source this)) /\
    forall r, hidden_marker this' r =
              hidden_marker this r ||
              ((r =? m_row (rmeta child)) &&
               (m_row (rmeta child) <? length (t_rows (source this)))).
Proof.
  intros Hi Ht Hc Hh Hcc. unfold toggleChild.
  rewrite (bind_Normal _ _ _ _ _ (the_meta_ok _ _ _ Hi)), Ht.
  destruct (set_hidden_spec c true this child Hc) as (s1 & Hrun & Hrec & Hlen & Hm & _).
  rewrite (alter_fix _ _ _ _ Hc (set__hidden_fix _ Hh)) in Hrec.
  rewrite (bind_Normal _ _ _ _ _ Hrun).
  assert (records s1 !! c = Some child) as Hc1 by (rewrite Hrec; exact Hc).
  rewrite (bind_Normal _ _ _ _ _ (the_meta_ok _ _ _ Hc1)).
  assert (m_hasChildren (rmeta child) && negb (truthy (m_collapsed (rmeta child))) = false)
    as ->.
  { destruct (m_hasChildren (rmeta child)); [|reflexivity]. rewrite Hcc; reflexivity. }
  exists s1. auto.
Qed.

Lemma toggleChild_show i c this row child :
  records this !! i = Some row ->
  truthy (m_collapsed (rmeta row)) = false ->
  records this !! c = Some child ->
  m_hidden (rmeta child) = true ->
  exists this',
    toggleChild i c this = (Normal tt, this') /\
    records this' = records this /\
    length (t_rows (source this')) = length (t_rows (source this)) /\
    forall r, hidden_marker this' r =
              hidden_marker this r && negb (r =? m_row (rmeta child)).
Proof.
  intros Hi Ht Hc Hh. unfold toggleChild.
  rewrite (bind_Normal _ _ _ _ _ (the_meta_ok _ _ _ Hi)), Ht.
  destruct (set_hidden_spec c false this child Hc) as (s1 & Hrun & Hrec & Hlen & Hm & _).
  rewrite (alter_fix _ _ _ _ Hc (set__hidden_fix _ Hh)) in Hrec.
  exists s1. auto.
Qed.

Lemma hide_loop i cs :
  forall this row,
    records this !! i = Some row ->
    truthy (m_collapsed (rmeta row)) = true ->
    Forall (settled this) cs ->
    exists this',
      forEach (toggleChild i) cs this = (Normal tt, this') /\
      records this' = records this /\
      length (t_rows (source this')) = length (t_rows (source this)) /\
      forall r, hidden_marker this' r =
                hidden_marker this r ||
                existsb (fun c => (r =? row_ref (records this) c) &&
                                  (row_ref (records this) c <? length (t_rows (source this))))
                        cs.
Proof.
  induction cs as [|c cs IH]; intros this row Hi Ht Hcs.
  - exists this. simpl. repeat split; auto. intros r. rewrite orb_false_r. reflexivity.
  - inversion Hcs as [|? ? (child & Hc & Hh & Hcc) Hcs']; subst.
    destruct (toggleChild_hide i c this row child Hi Ht Hc Hh Hcc)
      as (s1 & Hrun & Hrec & Hlen & Hm).
    simpl forEach. rewrite (bind_Normal _ _ _ _ _ Hrun).
    destruct (IH s1 row) as (s2 & Hrun2 & Hrec2 & Hlen2 & Hm2).
    { rewrite Hrec. exact Hi. }
    { exact Ht. }
    { unfold settled. rewrite Hrec. exact Hcs'. }
    exists s2. split; [exact Hrun2|]. split; [congruence|]. split; [congruence|].
    intros r. rewrite Hm2, Hm, Hrec, Hlen. simpl existsb.
    rewrite (row_ref_lookup _ _ _ Hc), orb_assoc. reflexivity.
Qed.

Lemma show_loop i cs :
  forall this row,
    records this !! i = Some row ->
    truthy (m_collapsed (rmeta row)) = false ->
    Forall (present this) cs ->
    exists this',
      forEach (toggleChild i) cs this = (Normal tt, this') /\
      records this' = records this /\
      length (t_rows (source this')) = length (t_rows (source this)) /\
      forall r, hidden_marker this' r =
                hidden_marker this r &&
                negb (existsb (fun c => r =? row_ref (records this) c) cs).
Proof.
  induction cs as [|c cs IH]; intros this row Hi Ht Hcs.
  - exists this. simpl. repeat split; auto. intros r. rewrite andb_true_r. reflexivity.
  - inversion Hcs as [|? ? (child & Hc & Hh) Hcs']; subst.
    destruct (toggleChild_show i c this row child Hi Ht Hc Hh)
      as (s1 & Hrun & Hrec & Hlen & Hm).
    simpl forEach. rewrite (bind_Normal _ _ _ _ _ Hrun).
    destruct (IH s1 row) as (s2 & Hrun2 & Hrec2 & Hlen2 & Hm2).
    { rewrite Hrec. exact Hi. }
    { exact Ht. }
    { unfold present. rewrite Hrec. exact Hcs'. }
    exists s2. split; [exact Hrun2|]. split; [congruence|]. split; [congruence|].
    intros r. rewrite Hm2, Hm, Hrec. simpl existsb.
    rewrite (row_ref_lookup _ _ _ Hc), negb_orb, andb_assoc. reflexivity.
Qed.

Lemma child_rows_skeleton this this' row row' :
  skeleton (records this') = skeleton (records this) ->
  m_id (rmeta row') = m_id (rmeta row) ->
  child_rows this' row' = child_rows this row.
Proof.
  intros Hs Hid. unfold child_rows.
  rewrite (positions_skeleton (is_child_of row') (records this) (records this')); auto.
  - assert (forall child, is_child_of row' child = is_child_of row child) as Heq.
    { intros child. unfold is_child_of. rewrite Hid. reflexivity. }
    assert (forall l k, positions (is_child_of row') l k = positions (is_child_of row) l k)
      as ->.
    { induction l as [|x l IH]; intros k; simpl; [reflexivity|].
      rewrite Heq, !IH. reflexivity. }
    apply map_ext. intros c. apply row_ref_skeleton. exact Hs.
  - intros x y Hxy. unfold is_child_of.
    apply unflagged_fields in Hxy as (_ & -> & _). reflexivity.
Qed.

Lemma existsb_map {A B} (f : B -> bool) (g : A -> B) (l : list A) :
  existsb f (map g l) = existsb (fun x => f (g x)) l.
Proof. induction l as [|x l IH]; simpl; [reflexivity|]. rewrite IH. reflexivity. Qed.

Lemma hidden_inv_lookup this c child :
  hidden_inv this -> records this !! c = Some child -> m_hidden (rmeta child) = true.
Proof. intros H Hc. eapply Forall_lookup_1 in H; eauto. Qed.

(** One click on the button of a row whose children need no cascade. *)
Lemma click_once this i row b :
  records this !! i = Some row ->
  m_hasChildren (rmeta row) = true ->
  m_collapsed (rmeta row) = Some b ->
  hidden_inv this ->
  others_collapsed this i row ->
  exists this',
    collapseButton_click i this = (Normal tt, this') /\
    records this' = alter (with_meta (set__collapsed (Some (negb b)))) i (records this) /\
    length (t_rows (source this')) = length (t_rows (source this)) /\
    forall r, hidden_marker this' r =
              if b
              then hidden_marker this r && negb (existsb (Nat.eqb r) (child_rows this row))
              else hidden_marker this r ||
                   existsb (fun q => (r =? q) && (q <? length (t_rows (source this))))
                           (child_rows this row).
Proof.
  intros Hi Hch Hcol Hinv Hothers. unfold collapseButton_click.
  rewrite (bind_Normal _ _ _ _ _ (the_meta_ok _ _ _ Hi)), Hcol.
  replace (negb (truthy (Some b))) with (negb b) by (destruct b; reflexivity).
  destruct (set_collapsed_spec i (negb b) this row Hi) as (s0 & Hrun0 & Hrec0 & Hlen0 & Hm0 & _).
  rewrite (bind_Normal _ _ _ _ _ Hrun0).
  set (row0 := with_meta (set__collapsed (Some (negb b))) row).
  assert (records s0 !! i = Some row0) as Hi0.
  { rewrite Hrec0, list_lookup_alter_eq, Hi. reflexivity. }
  assert (skeleton (records s0) = skeleton (records this)) as Hsk.
  { rewrite Hrec0. apply skeleton_alter. }
  assert (hidden_inv s0) as Hinv0.
  { pose proof (preserves_hidden_set_collapsed i (negb b) this Hinv) as H.
    rewrite Hrun0 in H. exact H. }
  unfold toggleHiddenRows.
  rewrite (bind_Normal _ _ _ _ _ (the_meta_ok _ _ _ Hi0)).
  replace (m_hasChildren (rmeta row0)) with true by (symmetry; exact Hch).
  rewrite (bind_Normal _ _ _ _ _ (the_data_ok _ _ _ Hi0)).
  change (fun row1 : record => String.eqb (m_parent (rmeta row1)) (m_id (rmeta row0)))
    with (is_child_of row0).
  set (cs := positions (is_child_of row0) (records s0) 0).
  assert (forall c, In c cs -> exists child,
            records s0 !! c = Some child /\ is_child_of row0 child = true) as Hcs.
  { intros c Hc. apply positions_lookup in Hc as (_ & child & Hc & Hp).
    rewrite Nat.sub_0_r in Hc. eauto. }
  assert (child_rows this row = map (row_ref (records s0)) cs) as Hrows.
  { symmetry. apply (child_rows_skeleton this s0 row row0 Hsk). reflexivity. }
  destruct b; simpl negb in *.
  - destruct (show_loop i cs s0 row0 Hi0 eq_refl) as (s1 & Hrun1 & Hrec1 & Hlen1 & Hm1).
    { apply Forall_forall. intros c Hc. apply list_elem_of_In in Hc.
      destruct (Hcs c Hc) as (child & Hchild & _).
      exists child. split; [exact Hchild|]. eapply hidden_inv_lookup; eauto. }
    exists s1. split; [exact Hrun1|]. split; [congruence|]. split; [congruence|].
    intros r. rewrite Hm1, Hm0, Hrows, existsb_map. reflexivity.
  - destruct (hide_loop i cs s0 row0 Hi0 eq_refl) as (s1 & Hrun1 & Hrec1 & Hlen1 & Hm1).
    { apply Forall_forall. intros c Hc. apply list_elem_of_In in Hc.
      destruct (Hcs c Hc) as (child & Hchild & Hp).
      exists child. split; [exact Hchild|]. split; [eapply hidden_inv_lookup; eauto|].
      intros Hhas. destruct (decide (c = i)) as [->|Hne].
      + rewrite Hi0 in Hchild. injection Hchild as <-. reflexivity.
      + rewrite Hrec0, list_lookup_alter_ne in Hchild by congruence.
        apply (Hothers c child Hne Hchild); auto. }
    exists s1. split; [exact Hrun1|]. split; [congruence|]. split; [congruence|].
    intros r. rewrite Hm1, Hm0, Hrows, existsb_map, Hlen0. reflexivity.
Qed.

Lemma children_collapsed_others this i row :
  children_collapsed this row = true -> others_collapsed this i row.
Proof.
  unfold children_collapsed. rewrite forallb_forall. intros H c child _ Hc Hp Hh.
  specialize (H child). rewrite Hp, Hh in H. apply H.
  apply list_elem_of_In. eapply list_elem_of_lookup_2. eauto.
Qed.

Lemma children_marked_rows this row b q :
  children_marked this row b = true -> In q (child_rows this row) ->
  hidden_marker this q = b.
Proof.
  unfold children_marked, child_rows. rewrite forallb_forall. intros H Hq.
  apply in_map_iff in Hq as (c & <- & Hc).
  apply positions_lookup in Hc as (_ & child & Hc & Hp). rewrite Nat.sub_0_r in Hc.
  rewrite (row_ref_lookup _ _ _ Hc). specialize (H child). rewrite Hp in H.
  apply Bool.eqb_prop. apply H.
  apply list_elem_of_In. eapply list_elem_of_lookup_2. eauto.
Qed.

Lemma hidden_marker_exists this q :
  hidden_marker this q = true -> q < length (t_rows (source this)).
Proof.
  unfold hidden_marker, row_classes. intros H.
  destruct (t_rows (source this) !! q) eqn:E; [|discriminate].
  apply lookup_lt_Some in E. exact E.
Qed.

Lemma set__collapsed_back row b b' :
  m_collapsed (rmeta row) = Some b ->
  with_meta (set__collapsed (Some b)) (with_meta (set__collapsed (Some b')) row) = row.
Proof.
  destruct row as [c [? ? ? ? ? ? ? ? ?]]. simpl. intros ->. reflexivity.
Qed.

(** C6, amended.  For a row with children whose children with children all
    read as collapsed, two clicks on its button complete normally and give
    back every row of [data] as it was, [hidden] and [collapsed] flags
    included; and when the rows of its children all carried the hidden marker
    (the row being collapsed) or all lacked it (the row being expanded), the
    hidden marker of every table row is as it was too. *)
Theorem double_click_restores (this : HierarchyTable) (i : nat) (row : record) (b : bool) :
  records this !! i = Some row ->
  m_hasChildren (rmeta row) = true ->
  m_collapsed (rmeta row) = Some b ->
  all_hidden this = true ->
  children_collapsed this row = true ->
  exists s1 s2,
    collapseButton_click i this = (Normal tt, s1) /\
    collapseButton_click i s1 = (Normal tt, s2) /\
    records s2 = records this /\
    (children_marked this row b = true ->
     forall r, hidden_marker s2 r = hidden_marker this r).
Proof.
  intros Hi Hch Hcol Hall Hcc.
  apply all_hidden_inv in Hall.
  pose proof (children_collapsed_others this i row Hcc) as Hothers.
  destruct (click_once this i row b Hi Hch Hcol Hall Hothers)
    as (s1 & Hrun1 & Hrec1 & Hlen1 & Hm1).
  set (row1 := with_meta (set__collapsed (Some (negb b))) row).
  assert (records s1 !! i = Some row1) as Hi1.
  { rewrite Hrec1, list_lookup_alter_eq, Hi. reflexivity. }
  assert (hidden_inv s1) as Hinv1.
  { pose proof (preserves_hidden_click i this Hall) as H. rewrite Hrun1 in H. exact H. }
  assert (others_collapsed s1 i row1) as Hothers1.
  { intros c child Hne Hc Hp Hh. rewrite Hrec1, list_lookup_alter_ne in Hc by congruence.
    apply (Hothers c child Hne Hc); auto. }
  destruct (click_once s1 i row1 (negb b) Hi1 Hch eq_refl Hinv1 Hothers1)
    as (s2 & Hrun2 & Hrec2 & Hlen2 & Hm2).
  assert (child_rows s1 row1 = child_rows this row) as Hrows.
  { apply child_rows_skeleton; [|reflexivity]. rewrite Hrec1. apply skeleton_alter. }
  exists s1, s2. split; [exact Hrun1|]. split; [exact Hrun2|]. split.
  - rewrite Hrec2, Hrec1, list_alter_alter_eq, negb_involutive.
    apply (alter_fix _ _ _ row Hi). apply set__collapsed_back. exact Hcol.
  - intros Hmarked r. rewrite Hm2, Hrows, Hlen1, !Hm1.
    set (L := child_rows this row) in *.
    destruct (existsb (Nat.eqb r) L) eqn:E.
    + apply existsb_exists in E as (q & Hq & Hrq). apply Nat.eqb_eq in Hrq. subst q.
      pose proof (children_marked_rows this row b r Hmarked Hq) as Hb.
      destruct b; simpl; rewrite Hb; simpl; [|apply andb_false_r].
      apply existsb_exists. exists r. split; [exact Hq|].
      rewrite Nat.eqb_refl. simpl. apply Nat.ltb_lt. apply hidden_marker_exists. exact Hb.
    + assert (existsb (fun q => (r =? q) && (q <? length (t_rows (source this)))) L = false)
        as E'.
      { apply not_true_is_false. intros E2.
        apply existsb_exists in E2 as (q & Hq & Hrq). apply andb_true_iff in Hrq as [Hrq _].
        assert (existsb (Nat.eqb r) L = true) as E3 by (apply existsb_exists; eauto).
        congruence. }
      rewrite E'. destruct b; simpl; rewrite ?andb_true_r, ?orb_false_r; reflexivity.
Qed.

Lemma double_click_restores_area :
  all_hidden Sample.area = true /\
  children_collapsed Sample.area
    (Rec [VString "Area"; VScalar "1"] (Meta 0 "A" "Area" "Area" "" 0 true true (Some true)))
  = true /\
  children_marked Sample.area
    (Rec [VString "Area"; VScalar "1"] (Meta 0 "A" "Area" "Area" "" 0 true true (Some true)))
    true = true /\
  exists s1 s2,
    collapseButton_click 0 Sample.area = (Normal tt, s1) /\
    collapseButton_click 0 s1 = (Normal tt, s2) /\
    records s2 = records Sample.area /\
    forall r, hidden_marker s2 r = hidden_marker Sample.area r.
Proof.
  split; [vm_compute; reflexivity|]. split; [vm_compute; reflexivity|].
  split; [vm_compute; reflexivity|].
  destruct (double_click_restores Sample.area 0
              (Rec [VString "Area"; VScalar "1"]
                   (Meta 0 "A" "Area" "Area" "" 0 true true (Some true))) true)
    as (s1 & s2 & H1 & H2 & H3 & H4); try (vm_compute; reflexivity).
  exists s1, s2. split; [exact H1|]. split; [exact H2|]. split; [exact H3|].
  apply H4. vm_compute. reflexivity.
Defined.

(** ** What building a row does *)

Lemma lookup_row_Normal id this r s :
  lookup_row id this = (Normal r, s) ->
  s = this /\
  exists index, rowheaders this !! id = Some index /\
                at_index (body_rows (t_body (source this))) index = Some r.
Proof.
  unfold lookup_row, bind, get.
  destruct (rowheaders this !! id) as [index|]; [|discriminate].
  destruct (at_index _ index) as [r'|] eqn:E; [|discriminate].
  intros [= <- <-]. eauto.
Qed.

Lemma parseRow_Normal level item this row this' :
  parseRow level item this = (Normal row, this') ->
  exists r x,
    fst (lookup_row (n_id item) this) = Normal r /\
    t_rows (source this) !! r = Some x /\
    is_Some (at_index (r_cells (tag_row level item x)) (column this)) /\
    this' = with_source (with_rows (alter (built_row this level item) r)) this /\
    rmeta row = setupMeta r (n_id item) (n_name item) (last_label (n_name item))
                  (n_parent item) level true
                  (if 0 <? length (n_children item) then Some true else None)
                  (0 <? length (n_children item)).
Proof.
  intros H. unfold parseRow in H.
  apply bind_Normal_run in H as (r & s0 & Hlook & H).
  destruct (lookup_row_Normal _ _ _ _ Hlook) as (-> & index & Hrh & Hbody).
  exists r.
  unfold row_setAttribute, row_classList_add, clearLink, update_row in H.
  repeat (apply bind_Normal_run in H as (? & ? & Hstep & H);
          first [ injection Hstep as <- <-
                | unfold when in Hstep;
                  destruct (0 <? level) eqn:Elevel; injection Hstep as <- <-
                | unfold when in Hstep;
                  destruct (0 <? String.length (n_parent item)) eqn:Eparent;
                  injection Hstep as <- <- ]).
  all: match type of H with
       | bind _ _ ?s = _ =>
           assert (s = with_source (with_rows (alter (tag_row level item) r)) this) as Hs6
       end.
  1,3,5,7: unfold with_source, with_rows; simpl; rewrite ?list_alter_alter_eq;
    unfold tag_row; rewrite Elevel, Eparent; reflexivity.
  all: rewrite Hs6 in H; clear Hs6;
    apply bind_Normal_run in H as ([] & s1 & Hadd & H);
    unfold addCollapseButton, bind, get in Hadd;
    destruct (at_index _ _) as [c|] eqn:Ecell; [|discriminate];
    injection Hadd as <-;
    pose proof (updateCategoryLabel_pure
                  (Rec (map cell_value
                          (row_cells (with_source (with_rows (alter (tag_row level item) r))
                                                  this) r))
                       (setupMeta r (n_id item) (n_name item) (last_label (n_name item))
                          (n_parent item) level true
                          (if 0 <? length (n_children item) then Some true else None)
                          (0 <? length (n_children item))))) as Hpure;
    match type of H with ?u ?rec ?s = _ => specialize (Hpure s) end;
    pose proof (f_equal fst H) as Hval; apply updateCategoryLabel_meta in Hval;
    rewrite H in Hpure; simpl in Hpure.
  all: assert (exists x, t_rows (source this) !! r = Some x) as [x Hx].
  1,3,5,7: unfold row_cells in Ecell; simpl in Ecell;
    rewrite list_lookup_alter_eq in Ecell;
    destruct (t_rows (source this) !! r) as [x|]; [eauto|];
    simpl in Ecell; unfold at_index in Ecell;
    destruct (_ <? 0)%Z; [discriminate|]; rewrite lookup_nil in Ecell; discriminate.
  all: exists x; split; [rewrite Hlook; reflexivity|]; split; [exact Hx|];
    split; [unfold row_cells in Ecell; simpl in Ecell;
            rewrite list_lookup_alter_eq, Hx in Ecell; simpl in Ecell; eauto|];
    split; [|exact Hval].
  all: subst this'; unfold with_source, with_rows, update_row, modify, with_cell; simpl;
    rewrite ?list_alter_alter_eq; reflexivity.
Qed.

Lemma built_app this rows s rows' this' :
  built this rows s -> built s rows' this' -> built this (rows ++ rows') this'.
Proof.
  induction 1 as [|? ? ? ? ? ? ? Hrow _ IH]; intros H'; simpl; [exact H'|].
  econstructor; [exact Hrow|]. apply IH. exact H'.
Qed.

Lemma parseHierarchy_sequenced (hier : list node) :
  Forall sequenced hier ->
  forall level array this rows this',
    parseHierarchy hier level array this = (Normal rows, this') ->
    exists new, rows = array ++ new /\ built this new this'.
Proof.
  induction 1 as [|item hier Hitem _ IH]; intros level array this rows this' Hrun.
  - injection Hrun as <- <-. exists []. rewrite app_nil_r. split; [reflexivity|constructor].
  - cbn [parseHierarchy] in Hrun. apply bind_Normal_run in Hrun as (a & s & Hi & Hrun).
    destruct (Hitem _ _ _ _ _ Hi) as (new1 & -> & Hb1).
    destruct (IH _ _ _ _ _ Hrun) as (new2 & -> & Hb2).
    exists (new1 ++ new2). rewrite <- app_assoc. split; [reflexivity|].
    eapply built_app; eauto.
Qed.

Lemma parseItem_sequenced item : sequenced item.
Proof.
  induction item as [id name parent children IH] using node_ind.
  intros level array this rows this' Hrun.
  rewrite parseItem_unfold in Hrun. apply bind_Normal_run in Hrun as (row & s & Hrow & Hrun).
  destruct (level <? 2).
  - simpl n_children in Hrun.
    destruct (parseHierarchy_sequenced children IH _ _ _ _ _ Hrun) as (new & -> & Hb).
    exists (row :: new). rewrite <- app_assoc. split; [reflexivity|].
    econstructor; eauto.
  - injection Hrun as <- <-. exists [row]. split; [reflexivity|].
    econstructor; [exact Hrow|constructor].
Qed.

Lemma parseHierarchy_built hier this rows this' :
  parseHierarchy hier 0 [] this = (Normal rows, this') -> built this rows this'.
Proof.
  intros Hrun.
  destruct (parseHierarchy_sequenced hier) with
    (level := 0) (array := @nil record) (this := this) (rows := rows) (this' := this')
    as (new & -> & Hb); [|exact Hrun|exact Hb].
  apply Forall_forall. intros item _. apply parseItem_sequenced.
Qed.

(** ** Actions, part by part *)

Lemma preserves_run I acts :
  (forall a, preserves I (perform a)) -> forall this, I this -> I (run acts this).
Proof.
  intros Hp. unfold run. induction acts as [|a acts IH]; intros this H; simpl; [exact H|].
  apply IH. apply Hp. exact H.
Qed.

Section Parts.

Variable I : HierarchyTable -> Prop.
Hypothesis I_hidden : forall i, preserves I (update_record i (with_meta (set__hidden true))).
Hypothesis I_collapsed :
  forall i v, preserves I (update_record i (with_meta (set__collapsed (Some v)))).
Hypothesis I_add :
  forall r c, In c row_classes_set -> preserves I (row_classList_add r c).
Hypothesis I_remove :
  forall r c, In c row_classes_unset -> preserves I (row_classList_remove r c).
Hypothesis I_event : forall tg name, preserves I (dispatchEvent tg name).
Hypothesis I_flat : forall flat, preserves I (set_flat flat).

Ltac part_kept :=
  repeat first
    [ apply I_hidden | apply I_collapsed | apply I_event | apply I_flat
    | apply I_add; unfold row_classes_set; simpl; tauto
    | apply I_remove; unfold row_classes_unset; simpl; tauto
    | apply preserves_pure; first [ apply the_meta_pure | apply the_data_pure | reflexivity ]
    | apply preserves_bind; [|intros ?]
    | apply preserves_when
    | apply preserves_forEach; intros ?
    | apply preserves_if ].

Lemma parts_set_hidden i val : preserves I (set_hidden i val).
Proof using I_hidden I_add I_remove. unfold set_hidden. part_kept. Qed.

Lemma parts_set_collapsed i val : preserves I (set_collapsed i val).
Proof using I_collapsed I_add I_remove I_event. unfold set_collapsed. part_kept. Qed.

Lemma parts_toggleChild i c : preserves I (toggleChild i c).
Proof using I_hidden I_collapsed I_add I_remove I_event.
  unfold toggleChild.
  apply preserves_bind; [apply preserves_pure, the_meta_pure|intros meta].
  apply preserves_if; [|apply parts_set_hidden].
  apply preserves_bind; [apply parts_set_hidden|intros _].
  apply preserves_bind; [apply preserves_pure, the_meta_pure|intros child].
  apply preserves_if; [|apply preserves_pure; reflexivity].
  apply preserves_bind; [apply parts_set_collapsed|intros _].
  apply preserves_pure; reflexivity.
Qed.

Lemma parts_click i : preserves I (collapseButton_click i).
Proof using I_hidden I_collapsed I_add I_remove I_event.
  unfold collapseButton_click, toggleHiddenRows.
  apply preserves_bind; [apply preserves_pure, the_meta_pure|intros meta].
  apply preserves_bind; [apply parts_set_collapsed|intros _].
  apply preserves_bind; [apply preserves_pure, the_meta_pure|intros meta'].
  apply preserves_if; [|apply preserves_pure; reflexivity].
  apply preserves_bind; [apply preserves_pure, the_data_pure|intros d].
  apply preserves_forEach. intros c. apply parts_toggleChild.
Qed.

Lemma parts_uncollapseParents fuel i : preserves I (uncollapseParents fuel i).
Proof using I_collapsed I_add I_remove I_event.
  revert i. induction fuel as [|fuel IH]; intros i; simpl.
  - apply preserves_pure; reflexivity.
  - apply preserves_bind; [apply preserves_pure, the_meta_pure|intros meta].
    apply preserves_if; [|apply preserves_pure; reflexivity].
    apply preserves_bind; [apply preserves_pure, the_data_pure|intros d].
    destruct (position _ _); [|apply preserves_pure; reflexivity].
    apply preserves_bind; [apply preserves_pure, the_meta_pure|intros parent].
    apply preserves_bind; [apply preserves_when, parts_set_collapsed|intros _].
    apply preserves_bind; [|intros _; apply IH].
    apply I_add. unfold row_classes_set. simpl. tauto.
Qed.

Lemma parts_displayChildren fuel i : preserves I (displayChildren fuel i).
Proof using I_add.
  revert i. induction fuel as [|fuel IH]; intros i; simpl.
  - apply preserves_pure; reflexivity.
  - apply preserves_bind; [apply preserves_pure, the_meta_pure|intros meta].
    apply preserves_if; [|apply preserves_pure; reflexivity].
    apply preserves_bind; [apply preserves_pure, the_data_pure|intros d].
    apply preserves_forEach. intros c.
    apply preserves_bind; [apply preserves_pure, the_meta_pure|intros cm].
    apply preserves_bind; [|intros _; apply IH].
    apply I_add. unfold row_classes_set. simpl. tauto.
Qed.

Lemma parts_search fuel str : preserves I (searchRowheaders fuel str).
Proof using I_collapsed I_add I_remove I_event.
  unfold searchRowheaders.
  apply preserves_if; [|apply preserves_pure; reflexivity].
  apply preserves_bind; [apply preserves_pure; reflexivity|intros this].
  apply preserves_bind; [apply preserves_pure, the_data_pure|intros d].
  apply preserves_forEach. intros i.
  apply preserves_bind; [apply preserves_pure, the_meta_pure|intros m].
  apply preserves_bind; [apply I_add; unfold row_classes_set; simpl; tauto|intros _].
  apply preserves_bind; [apply parts_uncollapseParents|intros _].
  apply parts_displayChildren.
Qed.

Lemma parts_perform a : preserves I (perform a).
Proof using I_hidden I_collapsed I_add I_remove I_event I_flat.
  destruct a; simpl.
  - apply parts_click.
  - apply I_flat.
  - apply parts_search.
  - apply parts_set_hidden.
  - apply parts_set_collapsed.
Qed.

End Parts.

(** ** What no action changes *)

Lemma relabel_cases i this :
  snd (relabel i this) = this \/
  exists row row',
    records this !! i = Some row /\
    updateCategoryLabel row this = (Normal row', this) /\
    relabel i this = (Normal tt, with_data (alter (fun _ => row') i <$> data this) this).
Proof.
  unfold relabel, bind, the_record, records.
  destruct (data this) as [d|] eqn:Hd; [|left; reflexivity].
  destruct (d !! i) as [row|] eqn:Hi; [|left; reflexivity].
  pose proof (updateCategoryLabel_pure row this) as Hpure.
  destruct (updateCategoryLabel row this) as [[row'|e|l] s] eqn:Hup; simpl in Hpure; subst s;
    [|left; reflexivity|left; reflexivity].
  right. exists row, row'. split; [reflexivity|]. split; [exact Hup|].
  unfold update_record, modify. rewrite Hd. reflexivity.
Qed.

Lemma preserves_set_flat_parts I :
  (forall flat, preserves I (modify (with_flat flat))) ->
  (forall f, preserves I (source_classList f)) ->
  (forall i, preserves I (relabel i)) ->
  (forall tg name, preserves I (dispatchEvent tg name)) ->
  forall flat, preserves I (set_flat flat).
Proof.
  intros Hflat Hclass Hrelabel Hevent flat. unfold set_flat.
  apply preserves_bind; [apply Hflat|intros _].
  apply preserves_bind; [apply Hclass|intros _].
  apply preserves_bind; [|intros _; apply Hevent].
  apply preserves_bind; [apply preserves_pure; reflexivity|intros this].
  destruct (data this); [|apply preserves_pure; reflexivity].
  apply preserves_forEach. intros i. apply Hrelabel.
Qed.

Lemma map_alter_same {A B} (g : A -> B) (f : A -> A) i (l : list A) :
  (forall x, g (f x) = g x) -> map g (alter f i l) = map g l.
Proof.
  intros H. revert i. induction l as [|x l IH]; intros [|i]; simpl; auto.
  - rewrite H. reflexivity.
  - f_equal. apply IH.
Qed.

Lemma map_alter_at {A B} (g : A -> B) (f : A -> A) i (l : list A) x :
  l !! i = Some x -> g (f x) = g x -> map g (alter f i l) = map g l.
Proof.
  revert i. induction l as [|y l IH]; intros [|i]; simpl; try discriminate.
  - intros [= ->] ->. reflexivity.
  - intros Hi Hx. f_equal. apply IH; assumption.
Qed.

Lemma fixed_part_record i f this :
  (forall row, set__collapsed None (set__hidden true (rmeta (f row))) =
               set__collapsed None (set__hidden true (rmeta row))) ->
  fixed_part (with_data (alter f i <$> data this) this) = fixed_part this.
Proof.
  intros Hf. unfold fixed_part, records. simpl.
  destruct (data this) as [d|]; simpl; [|reflexivity].
  rewrite (map_alter_same _ f); [reflexivity|exact Hf].
Qed.

Lemma fixed_part_classes f r this :
  fixed_part (with_source (with_rows (alter (with_row_classes f) r)) this) = fixed_part this.
Proof.
  unfold fixed_part. simpl. rewrite (map_alter_same _ (with_row_classes f)); reflexivity.
Qed.

Lemma preserves_fixed_relabel v i : preserves (fun s => fixed_part s = v) (relabel i).
Proof.
  intros this H. destruct (relabel_cases i this) as [->|(row & row' & Hi & Hup & ->)];
    [exact H|].
  simpl. rewrite <- H. unfold fixed_part, records. simpl.
  apply records_lookup_data in Hi as (d & Hd & Hi). rewrite Hd. simpl.
  rewrite (map_alter_at _ _ _ _ row Hi); [reflexivity|].
  pose proof (f_equal fst Hup) as Hm. apply updateCategoryLabel_meta in Hm.
  rewrite Hm. reflexivity.
Qed.

Lemma preserves_fixed_perform v a : preserves (fun s => fixed_part s = v) (perform a).
Proof.
  apply parts_perform.
  - intros i this H. simpl. rewrite fixed_part_record; [exact H|reflexivity].
  - intros i val this H. simpl. rewrite fixed_part_record; [exact H|reflexivity].
  - intros r c _ this H. simpl. rewrite fixed_part_classes. exact H.
  - intros r c _ this H. simpl. rewrite fixed_part_classes. exact H.
  - intros tg name this H. exact H.
  - apply preserves_set_flat_parts.
    + intros flat this H. exact H.
    + intros f this H. exact H.
    + apply preserves_fixed_relabel.
    + intros tg name this H. exact H.
Qed.

(** X1.  No click, mode switch, search or assignment to an accessor changes
    the attributes or the cells of a table row, the order of the body, the
    number of rows of [data], or the row reference, id, labels, parent, level
    and [hasChildren] of a row of [data]; neither the forest, the index map nor
    the column. *)
Theorem actions_keep_fixed_part (acts : list action) (this : HierarchyTable) :
  fixed_part (run acts this) = fixed_part this.
Proof.
  apply (preserves_run (fun s => fixed_part s = fixed_part this)).
  - intros a. apply preserves_fixed_perform.
  - reflexivity.
Qed.

(** ** The constructor, step by step *)

Lemma constructor_starts src hier rh hierColumn flat srch :
  (set_flat flat ;;
   modify (with_search (Some (setupSearch (s_enabled srch) (s_immediate srch)
                                          (s_timeout srch) (s_searching srch)
                                          (s_query srch)))))
    (HT src hier rh None hierColumn false None)
  = (Normal tt, started src hier rh hierColumn flat srch).
Proof. destruct flat; reflexivity. Qed.

Lemma forEach_appendChild (d : list record) this :
  forEach (fun row => appendChild (m_row (rmeta row))) d this =
  (Normal tt,
   with_source (fun t => Table (t_classes t) (t_rows t)
                               (append_rows (map (fun row => m_row (rmeta row)) d) <$> t_body t)
                               (t_events t)) this).
Proof.
  revert this. induction d as [|row d IH]; intros this.
  - destruct this as [[? ? [b|] ?] ? ? ? ? ? ?]; reflexivity.
  - simpl forEach. unfold bind. simpl. rewrite IH.
    destruct this as [[? ? [b|] ?] ? ? ? ? ? ?]; reflexivity.
Qed.

(** What [init] does once the rows of [data] are known: [data] is assigned;
    on a table with a [tbody] the body is rearranged, on a table without one
    reading [tbody.firstChild] throws. *)
Lemma init_tail (d : list record) s :
  (modify (with_data (Some d)) ;;
   let* this := get in
   match t_body (source this) with
   | None => throw TypeError
   | Some _ =>
       remove_leading_text ;;
       forEach (fun row => appendChild (m_row (rmeta row))) d
   end) s =
  match t_body (source s) with
  | Some _ =>
      (Normal tt,
       with_source
         (fun t => Table (t_classes t) (t_rows t)
                         ((fun b => append_rows (map (fun row => m_row (rmeta row)) d)
                                                (drop_text b)) <$> t_body t)
                         (t_events t))
         (with_data (Some d) s))
  | None => (Throw TypeError, with_data (Some d) s)
  end.
Proof.
  rewrite (bind_Normal _ _ _ _ _ (eq_refl : modify (with_data (Some d)) s = _)).
  rewrite (bind_Normal _ _ _ _ _ (eq_refl : get (with_data (Some d) s) = (Normal _, _))).
  change (t_body (source (with_data (Some d) s))) with (t_body (source s)).
  destruct (t_body (source s)) as [b|] eqn:Hb; [|reflexivity].
  rewrite (bind_Normal _ _ _ _ _ (eq_refl : remove_leading_text _ = _)).
  rewrite forEach_appendChild. f_equal.
  destruct s as [[? ? b0 ?] ? ? ? ? ? ?]. simpl in Hb. subst b0.
  destruct b as [|[|] b]; reflexivity.
Qed.

Lemma constructor_init src hier rh hierColumn flat srch :
  new_HierarchyTable src hier rh hierColumn flat srch =
  init (started src hier rh hierColumn flat srch).
Proof.
  unfold new_HierarchyTable.
  pose proof (constructor_starts src hier rh hierColumn flat srch) as H.
  apply bind_Normal_run in H as ([] & s & H0 & H1).
  rewrite (bind_Normal _ _ _ _ _ H0). rewrite (bind_Normal _ _ _ _ _ H1). reflexivity.
Qed.

(** The constructor, from the completion of the traversal. *)
Lemma constructor_run src hier rh hierColumn flat srch :
  new_HierarchyTable src hier rh hierColumn flat srch =
  match parseHierarchy hier 0 [] (started src hier rh hierColumn flat srch) with
  | (Normal d, s) =>
      match t_body (source s) with
      | Some _ =>
          (Normal tt,
           with_source
             (fun t => Table (t_classes t) (t_rows t)
                             ((fun b => append_rows (map (fun row => m_row (rmeta row)) d)
                                                    (drop_text b)) <$> t_body t)
                             (t_events t))
             (with_data (Some d) s))
      | None => (Throw TypeError, with_data (Some d) s)
      end
  | (Throw e, s) => (Throw e, s)
  | (Beyond l, s) => (Beyond l, s)
  end.
Proof.
  rewrite constructor_init.
  change (init (started src hier rh hierColumn flat srch))
    with ((let* d := parseHierarchy hier 0 [] in
           modify (with_data (Some d)) ;;
           let* this := get in
           match t_body (source this) with
           | None => throw TypeError
           | Some _ =>
               remove_leading_text ;;
               forEach (fun row => appendChild (m_row (rmeta row))) d
           end)
            (started src hier rh hierColumn flat srch)).
  unfold bind at 1.
  destruct (parseHierarchy hier 0 [] (started src hier rh hierColumn flat srch))
    as [[d|e|l] s]; [|reflexivity|reflexivity].
  apply init_tail.
Qed.

(** The constructor completes normally exactly when the traversal does on a
    table with a [tbody]; the object it leaves is the traversal's, with [data]
    set and the body rearranged. *)
Lemma constructor_Normal src hier rh hierColumn flat srch this' :
  new_HierarchyTable src hier rh hierColumn flat srch = (Normal tt, this') ->
  exists d s,
    parseHierarchy hier 0 [] (started src hier rh hierColumn flat srch) = (Normal d, s) /\
    this' = with_source
              (fun t => Table (t_classes t) (t_rows t)
                              ((fun b => append_rows (map (fun row => m_row (rmeta row)) d)
                                                     (drop_text b)) <$> t_body t)
                              (t_events t))
              (with_data (Some d) s).
Proof.
  rewrite constructor_run. intros H.
  destruct (parseHierarchy hier 0 [] (started src hier rh hierColumn flat srch))
    as [[d|e|l] s]; try discriminate.
  destruct (t_body (source s)); [|discriminate].
  injection H as <-. eauto.
Qed.

(** ** The effects of the traversal on the table *)

Lemma built_row_classes this level item x c :
  classList_contains c (r_classes (built_row this level item x)) =
  classList_contains c (r_classes x) ||
  existsb (String.eqb c) (classes_added level (0 <? length (n_children item))).
Proof.
  unfold built_row, add_button, tag_row, classes_added, with_cell.
  destruct (0 <? level), (0 <? String.length (n_parent item)); simpl;
    rewrite ?classList_contains_add, ?orb_false_r, <- ?orb_assoc; reflexivity.
Qed.

Lemma built_row_cells this level item x :
  length (r_cells (built_row this level item x)) = length (r_cells x).
Proof.
  unfold built_row, add_button, tag_row, with_cell.
  destruct (0 <? level), (0 <? String.length (n_parent item)); simpl;
    rewrite ?length_alter, ?length_clearLink_cells; reflexivity.
Qed.

Lemma built_row_ready this level item x :
  is_Some (at_index (r_cells (tag_row level item x)) (column this)) ->
  exists c, at_index (r_cells (built_row this level item x)) (column this) = Some c /\
            c_nodes c <> [].
Proof.
  intros [c Hc]. unfold built_row, add_button, with_cell. simpl.
  unfold at_index in *. destruct (column this <? 0)%Z; [discriminate|].
  rewrite !list_lookup_alter_eq, Hc. simpl. eexists. split; [reflexivity|discriminate].
Qed.

Lemma cell_ready_true this r :
  cell_ready this r = true <->
  exists c, at_index (row_cells this r) (column this) = Some c /\ c_nodes c <> [].
Proof.
  unfold cell_ready. destruct (at_index _ _) as [c|].
  - destruct (c_nodes c) eqn:E; split.
    + discriminate.
    + intros (c' & [= <-] & H). congruence.
    + intros _. exists c. rewrite E. split; [reflexivity|discriminate].
    + reflexivity.
  - split; [discriminate|]. intros (c & H & _). discriminate.
Qed.

Lemma parseRow_effects level item this row this' :
  parseRow level item this = (Normal row, this') ->
  frame this' = frame this /\
  m_row (rmeta row) < length (t_rows (source this')) /\
  cell_ready this' (m_row (rmeta row)) = true /\
  (forall r, r <> m_row (rmeta row) ->
             t_rows (source this') !! r = t_rows (source this) !! r) /\
  (forall c r, marker c this' r =
               marker c this r ||
               ((r =? m_row (rmeta row)) &&
                existsb (String.eqb c)
                        (classes_added (m_level (rmeta row)) (m_hasChildren (rmeta row))))).
Proof.
  intros H. destruct (parseRow_Normal _ _ _ _ _ H) as (r & x & _ & Hx & Hcell & -> & Hm).
  rewrite Hm. simpl.
  split; [apply frame_update_row; intros y; apply built_row_cells|].
  split; [rewrite length_alter; apply lookup_lt_Some in Hx; exact Hx|].
  split.
  { apply cell_ready_true. unfold row_cells. simpl. rewrite list_lookup_alter_eq, Hx. simpl.
    apply built_row_ready. exact Hcell. }
  split; [intros r0 Hne; apply list_lookup_alter_ne; congruence|].
  intros c r0. unfold marker, row_classes. simpl. rewrite list_lookup_alter.
  destruct (Nat.eqb_spec r0 r) as [->|Hne].
  - destruct (decide (r = r)); [|congruence]. rewrite Hx. simpl.
    exact (built_row_classes this level item x c).
  - destruct (decide (r = r0)); [congruence|]. simpl. rewrite orb_false_r. reflexivity.
Qed.

Lemma cell_ready_rows this this' r :
  column this' = column this ->
  t_rows (source this') !! r = t_rows (source this) !! r ->
  cell_ready this' r = cell_ready this r.
Proof. unfold cell_ready, row_cells. intros -> ->. reflexivity. Qed.

(** A row of [data] as the traversal makes it. *)
Lemma parseRow_meta level item this row this' :
  parseRow level item this = (Normal row, this') ->
  m_hidden (rmeta row) = true /\
  m_collapsed (rmeta row) = (if m_hasChildren (rmeta row) then Some true else None) /\
  m_name (rmeta row) = last_label (m_flatName (rmeta row)) /\
  m_level (rmeta row) = level /\ m_id (rmeta row) = n_id item /\
  m_parent (rmeta row) = n_parent item.
Proof.
  intros H. destruct (parseRow_Normal _ _ _ _ _ H) as (r & x & _ & _ & _ & _ & Hm).
  rewrite Hm. simpl. auto 10.
Qed.

Lemma built_effects this rows this' :
  built this rows this' ->
  frame this' = frame this /\
  length (t_rows (source this')) = length (t_rows (source this)) /\
  (forall r, cell_ready this r = true -> cell_ready this' r = true) /\
  (forall c r, marker c this' r = marker c this r || adds_class c r rows) /\
  Forall (fun row => m_row (rmeta row) < length (t_rows (source this')) /\
                     cell_ready this' (m_row (rmeta row)) = true /\
                     m_hidden (rmeta row) = true /\
                     m_collapsed (rmeta row) =
                       (if m_hasChildren (rmeta row) then Some true else None) /\
                     m_name (rmeta row) = last_label (m_flatName (rmeta row))) rows.
Proof.
  induction 1 as [this|this level item row s rows this' Hrow Hbuilt IH].
  - repeat split; auto. intros c r. simpl. rewrite orb_false_r. reflexivity.
  - destruct IH as (Hf & Hlen & Hready & Hmark & Hall).
    destruct (parseRow_effects _ _ _ _ _ Hrow) as (Hf1 & Hlt1 & Hready1 & Hrows1 & Hmark1).
    destruct (parseRow_meta _ _ _ _ _ Hrow) as (Hh & Hc & Hn & _).
    assert (length (t_rows (source s)) = length (t_rows (source this))) as Hlen1.
    { unfold frame, cell_counts in Hf1.
      assert (map (fun r => length (r_cells r)) (t_rows (source s)) =
              map (fun r => length (r_cells r)) (t_rows (source this))) as Hc1 by congruence.
      apply (f_equal (@length nat)) in Hc1. rewrite !length_map in Hc1. exact Hc1. }
    assert (column s = column this) as Hcol by (unfold frame in Hf1; congruence).
    split; [congruence|]. split; [congruence|]. split.
    { intros r Hr. apply Hready.
      destruct (decide (r = m_row (rmeta row))) as [->|Hne]; [exact Hready1|].
      rewrite (cell_ready_rows this s r Hcol (Hrows1 r Hne)). exact Hr. }
    split.
    { intros c r. rewrite Hmark, Hmark1. unfold adds_class. simpl.
      rewrite orb_assoc. reflexivity. }
    constructor; [|exact Hall].
    split; [rewrite Hlen; exact Hlt1|]. split; [apply Hready; exact Hready1|]. auto.
Qed.

Lemma parseHierarchy_keeps_data hier level array this :
  data (snd (parseHierarchy hier level array this)) = data this.
Proof.
  apply parseHierarchy_hidden. apply Forall_forall. intros item _. apply parseItem_hidden.
Qed.

(** After construction, however it completed, [data] is [null] or holds the
    rows the traversal built, on the table rows the traversal left. *)
Lemma constructor_built src hier rh hierColumn flat srch :
  let this' := snd (new_HierarchyTable src hier rh hierColumn flat srch) in
  data this' = None \/
  exists d s,
    built (started src hier rh hierColumn flat srch) d s /\
    data this' = Some d /\
    t_rows (source this') = t_rows (source s) /\
    column this' = column s /\ _flat this' = _flat s.
Proof.
  intros this'. subst this'. rewrite constructor_run.
  pose proof (parseHierarchy_keeps_data hier 0 []
                (started src hier rh hierColumn flat srch)) as Hd.
  destruct (parseHierarchy hier 0 [] (started src hier rh hierColumn flat srch))
    as [[d|e|l] s] eqn:Hp; simpl in Hd.
  - right. exists d, s. split; [exact (parseHierarchy_built _ _ _ _ Hp)|].
    destruct (t_body (source s)); simpl; auto.
  - left. exact Hd.
  - left. exact Hd.
Qed.

Lemma adds_hidden_class r rows :
  adds_class "reportal-hidden-row" r rows =
  existsb (fun row => (r =? m_row (rmeta row)) && (0 <? m_level (rmeta row))) rows.
Proof.
  unfold adds_class. induction rows as [|row rows IH]; [reflexivity|].
  cbn [existsb]. rewrite IH. f_equal. f_equal. unfold classes_added.
  destruct (0 <? m_level (rmeta row)), (m_hasChildren (rmeta row)); reflexivity.
Qed.

(** X2.  When construction completes, the table rows that carry the hidden
    marker are those that carried it before and the rows of the rows of [data]
    of level 1 and 2; the row of a root gets no hidden marker. *)
Theorem construction_hides_deeper_rows (src : table) (hier : list node)
    (rh : gmap string Z) (hierColumn : Z) (flat : bool) (srch : searchObj)
    (this' : HierarchyTable) :
  new_HierarchyTable src hier rh hierColumn flat srch = (Normal tt, this') ->
  forall r,
    hidden_marker this' r =
    table_marker "reportal-hidden-row" src r ||
    existsb (fun row => (r =? m_row (rmeta row)) && (0 <? m_level (rmeta row)))
            (records this').
Proof.
  intros H r. destruct (constructor_Normal _ _ _ _ _ _ _ H) as (d & s & Hparse & ->).
  apply parseHierarchy_built in Hparse.
  destruct (built_effects _ _ _ Hparse) as (_ & _ & _ & Hmark & _).
  change (hidden_marker (with_source _ (with_data (Some d) s)) r)
    with (marker "reportal-hidden-row" s r).
  rewrite Hmark, adds_hidden_class. reflexivity.
Qed.

Lemma construction_hides_deeper_rows_area :
  new_HierarchyTable Sample.area_table Sample.area_forest Sample.area_index 0 false
    default_search = (Normal tt, Sample.area) /\
  forall r,
    hidden_marker Sample.area r =
    table_marker "reportal-hidden-row" Sample.area_table r ||
    existsb (fun row => (r =? m_row (rmeta row)) && (0 <? m_level (rmeta row)))
            (records Sample.area).
Proof.
  split; [vm_compute; reflexivity|].
  apply (construction_hides_deeper_rows Sample.area_table Sample.area_forest
           Sample.area_index 0 false default_search).
  vm_compute. reflexivity.
Defined.

Lemma fixed_part_run acts this : fixed_part (run acts this) = fixed_part this.
Proof.
  apply (preserves_run (fun s => fixed_part s = fixed_part this)).
  - intros a. apply preserves_fixed_perform.
  - reflexivity.
Qed.

Lemma fixed_part_cells s s' r :
  fixed_part s' = fixed_part s -> row_cells s' r = row_cells s r.
Proof.
  unfold fixed_part. intros H. injection H as Hrows _ _ _ _ _ _.
  unfold row_cells.
  apply (f_equal (fun l => l !! r)) in Hrows. rewrite !list_lookup_fmap in Hrows.
  destruct (t_rows (source s') !! r), (t_rows (source s) !! r); simpl in Hrows;
    try discriminate; [|reflexivity].
  injection Hrows as _ ->. reflexivity.
Qed.

Lemma fixed_part_length s s' :
  fixed_part s' = fixed_part s ->
  length (t_rows (source s')) = length (t_rows (source s)).
Proof.
  unfold fixed_part. intros H. injection H as Hrows _ _ _ _ _ _.
  apply (f_equal length) in Hrows. rewrite !length_map in Hrows. exact Hrows.
Qed.

Lemma fixed_part_row_refs s s' :
  fixed_part s' = fixed_part s ->
  map (fun row => m_row (rmeta row)) (records s') =
  map (fun row => m_row (rmeta row)) (records s).
Proof.
  unfold fixed_part. intros H. injection H as _ _ Hrec _ _ _ _.
  apply (f_equal (map m_row)) in Hrec. rewrite !map_map in Hrec. exact Hrec.
Qed.

Lemma fixed_part_ready s s' r :
  fixed_part s' = fixed_part s -> cell_ready s' r = cell_ready s r.
Proof.
  intros H. unfold cell_ready. rewrite (fixed_part_cells _ _ r H).
  unfold fixed_part in H. injection H as _ _ _ _ _ _ ->. reflexivity.
Qed.

Lemma forallb_fmap {A B} (f : A -> B) (p : B -> bool) (l : list A) :
  forallb p (map f l) = forallb (fun x => p (f x)) l.
Proof. induction l as [|x l IH]; simpl; [reflexivity|]. rewrite IH. reflexivity. Qed.

Lemma forallb_pointwise {A} (p q : A -> bool) (l : list A) :
  (forall x, p x = q x) -> forallb p l = forallb q l.
Proof.
  intros H. induction l as [|x l IH]; simpl; [reflexivity|]. rewrite H, IH. reflexivity.
Qed.

Lemma well_built_fixed s s' :
  fixed_part s' = fixed_part s -> well_built s' = well_built s.
Proof.
  intros H. unfold well_built.
  rewrite (fixed_part_length _ _ H).
  transitivity (forallb (fun r => (r <? length (t_rows (source s))) && cell_ready s' r)
                        (map (fun row => m_row (rmeta row)) (records s'))).
  { rewrite forallb_fmap. reflexivity. }
  rewrite (fixed_part_row_refs _ _ H), forallb_fmap.
  apply forallb_pointwise. intros row. rewrite (fixed_part_ready _ _ _ H). reflexivity.
Qed.

Lemma constructor_well_built src hier rh hierColumn flat srch :
  well_built (snd (new_HierarchyTable src hier rh hierColumn flat srch)) = true.
Proof.
  destruct (constructor_built src hier rh hierColumn flat srch)
    as [Hd|(d & s & Hbuilt & Hd & Hrows & Hcol & _)].
  - unfold well_built, records. rewrite Hd. reflexivity.
  - destruct (built_effects _ _ _ Hbuilt) as (_ & _ & _ & _ & Hall).
    unfold well_built, records. rewrite Hd, Hrows.
    apply forallb_forall. intros row Hin.
    rewrite Forall_forall in Hall. destruct (Hall row) as (Hlt & Hready & _).
    { apply list_elem_of_In. exact Hin. }
    apply andb_true_intro. split; [apply Nat.ltb_lt; exact Hlt|].
    rewrite <- Hready. apply cell_ready_rows; [exact Hcol|]. rewrite Hrows. reflexivity.
Qed.

(** X3.  Whatever the table, the forest, the index map and the column, and
    whether or not construction completes, after construction and after any
    sequence of actions every row of [data] refers to a row that exists in the
    table, whose hierarchy cell exists and has a child node. *)
Theorem rows_always_well_built (src : table) (hier : list node) (rh : gmap string Z)
    (hierColumn : Z) (flat : bool) (srch : searchObj) (acts : list action) :
  well_built (run acts (snd (new_HierarchyTable src hier rh hierColumn flat srch))) = true.
Proof.
  rewrite (well_built_fixed _ _ (fixed_part_run acts _)).
  apply constructor_well_built.
Qed.

Lemma updateCategoryLabel_labelled row this :
  (column this < 4294967296)%Z ->
  cell_ready this (m_row (rmeta row)) = true ->
  updateCategoryLabel row this = (Normal (labelled (_flat this) (column this) row), this).
Proof.
  intros Hcol Hready. unfold cell_ready in Hready.
  destruct (at_index (row_cells this (m_row (rmeta row))) (column this)) as [c|] eqn:Hc;
    [|discriminate].
  assert (c_nodes c <> []) as Hn by (destruct (c_nodes c); [discriminate|congruence]).
  unfold updateCategoryLabel, bind, get.
  assert (0 <= column this)%Z as H0.
  { pose proof (proj1 (at_index_Some _ _) (ex_intro _ c Hc)). lia. }
  rewrite item_small, Hc by lia.
  destruct (first_link (c_nodes c)); simpl; [reflexivity|].
  destruct (item_last (c_nodes c) Hn) as [n ->]. reflexivity.
Qed.

Lemma alter_const_at {A} (f : A -> A) i (l : list A) x :
  l !! i = Some x -> alter (fun _ => f x) i l = alter f i l.
Proof.
  revert i. induction l as [|y l IH]; intros [|i]; simpl; try discriminate.
  - intros [= ->]. reflexivity.
  - intros Hi. f_equal. apply IH. exact Hi.
Qed.

Lemma relabel_ready i this d row :
  (column this < 4294967296)%Z ->
  data this = Some d -> d !! i = Some row ->
  cell_ready this (m_row (rmeta row)) = true ->
  relabel i this =
  (Normal tt, with_data (Some (alter (labelled (_flat this) (column this)) i d)) this).
Proof.
  intros Hcol Hd Hi Hready. unfold relabel.
  rewrite (bind_Normal _ _ _ row this) by (unfold the_record; rewrite Hd, Hi; reflexivity).
  rewrite (bind_Normal _ _ _ _ _ (updateCategoryLabel_labelled row this Hcol Hready)).
  unfold update_record, modify. rewrite Hd. simpl.
  rewrite (alter_const_at (labelled (_flat this) (column this)) i d row Hi). reflexivity.
Qed.

Lemma relabel_loop idx : forall this d,
  (column this < 4294967296)%Z ->
  data this = Some d ->
  Forall (fun i => i < length d) idx ->
  Forall (fun row => cell_ready this (m_row (rmeta row)) = true) d ->
  forEach relabel idx this =
  (Normal tt,
   with_data (Some (fold_left (fun d i => alter (labelled (_flat this) (column this)) i d)
                              idx d)) this).
Proof.
  induction idx as [|i idx IH]; intros this d Hcol Hd Hidx Hready.
  - simpl. unfold ret. destruct this. simpl in Hd. subst. reflexivity.
  - inversion Hidx as [|? ? Hi Hrest]; subst.
    destruct (lookup_lt_is_Some_2 d i Hi) as [row Hrow].
    simpl forEach.
    rewrite (bind_Normal _ _ _ _ _
               (relabel_ready i this d row Hcol Hd Hrow
                  (proj1 (Forall_forall _ _) Hready row (list_elem_of_lookup_2 _ _ _ Hrow)))).
    rewrite (IH _ (alter (labelled (_flat this) (column this)) i d)).
    + reflexivity.
    + exact Hcol.
    + reflexivity.
    + rewrite length_alter. exact Hrest.
    + apply Forall_alter; [exact Hready|]. intros x _ Hx. exact Hx.
Qed.

Lemma alter_all {A} (f : A -> A) (post : list A) : forall pre,
  fold_left (fun d i => alter f i d) (seq (length pre) (length post)) (pre ++ post) =
  pre ++ map f post.
Proof.
  induction post as [|x post IH]; intros pre; [reflexivity|].
  simpl. rewrite alter_app_r_alt by lia. rewrite Nat.sub_diag. simpl.
  specialize (IH (pre ++ [f x])). rewrite length_app, Nat.add_1_r in IH.
  rewrite <- !app_assoc in IH. exact IH.
Qed.

Lemma set_flat_Normal flat this :
  (column this < 4294967296)%Z ->
  well_built this = true ->
  set_flat flat this = (Normal tt, flat_view flat this).
Proof.
  intros Hcol Hwb. unfold set_flat.
  rewrite (bind_Normal _ _ _ _ _ (eq_refl : modify (with_flat flat) this = _)).
  rewrite (bind_Normal _ _ _ _ _ (eq_refl : source_classList _ _ = _)).
  set (s := with_source _ (with_flat flat this)).
  destruct (data this) as [d|] eqn:Hd.
  - assert (forEach relabel (seq 0 (length d)) s =
            (Normal tt, with_data (Some (map (labelled flat (column this)) d)) s)) as Hloop.
    { rewrite (relabel_loop _ s d).
      - change (_flat s) with flat. change (column s) with (column this).
        pose proof (alter_all (labelled flat (column this)) d []) as Hall.
        simpl in Hall. rewrite Hall. reflexivity.
      - exact Hcol.
      - exact Hd.
      - apply Forall_forall. intros i Hi. apply elem_of_seq in Hi. lia.
      - apply Forall_forall. intros row Hin.
        unfold well_built, records in Hwb. rewrite Hd in Hwb.
        rewrite forallb_forall in Hwb. specialize (Hwb row (proj1 (list_elem_of_In _ _) Hin)).
        apply andb_prop in Hwb as [_ Hready]. exact Hready. }
    erewrite bind_Normal.
    2:{ unfold bind at 1, get. change (data s) with (data this). rewrite Hd. exact Hloop. }
    unfold dispatchEvent, modify, flat_view. rewrite Hd. subst s. destruct flat; reflexivity.
  - erewrite bind_Normal.
    2:{ unfold bind at 1, get. change (data s) with (data this). rewrite Hd. reflexivity. }
    subst s. unfold dispatchEvent, modify, flat_view, with_source, with_flat. simpl.
    rewrite Hd. destruct flat; reflexivity.
Qed.

(** ** The traversal writes to rows of the table only *)

Section Building.

Variable I : HierarchyTable -> Prop.
Hypothesis I_row : forall r f, preserves I (update_row r f).

Opaque updateCategoryLabel.
Lemma building_parseRow level item : preserves I (parseRow level item).
Proof using I_row.
  unfold parseRow, lookup_row, addCollapseButton, row_setAttribute, row_classList_add,
    clearLink.
  split_preserves;
    repeat match goal with
           | |- preserves _ (match ?x with _ => _ end) => destruct x
           end;
    split_preserves;
    first [ apply I_row
          | apply preserves_pure, updateCategoryLabel_pure
          | apply preserves_pure; reflexivity ].
Qed.
Transparent updateCategoryLabel.

Lemma building_parseHierarchy hier :
  Forall (fun item => forall level array, preserves I (parseItem level item array)) hier ->
  forall level array, preserves I (parseHierarchy hier level array).
Proof using Type.
  induction 1 as [|item hier Hitem _ IH]; intros level array; simpl.
  - apply preserves_pure; reflexivity.
  - apply preserves_bind; [apply Hitem|intros a; apply IH].
Qed.

Lemma building_parseItem item : forall level array, preserves I (parseItem level item array).
Proof using I_row.
  induction item as [id name parent children IH] using node_ind.
  intros level array this H. rewrite parseItem_unfold. revert this H.
  apply preserves_bind; [apply building_parseRow|intros row]. simpl n_children.
  destruct (level <? 2).
  - apply building_parseHierarchy. exact IH.
  - apply preserves_pure; reflexivity.
Qed.

Lemma building_traversal hier level array : preserves I (parseHierarchy hier level array).
Proof using I_row.
  apply building_parseHierarchy. apply Forall_forall. intros item _. apply building_parseItem.
Qed.

End Building.

Lemma outside_rows_update_row r f :
  forall v, preserves (fun s => outside_rows s = v) (update_row r f).
Proof.
  intros v this H. unfold outside_rows in *. simpl. rewrite length_alter. exact H.
Qed.

(** X4.  The traversal, however it completes, writes to rows of the table
    only: the fields of the object ([data] included), the classes of the
    table, the order of its body, the events dispatched and the number of rows
    are after it what they were before. *)
Theorem traversal_writes_rows_only (hier : list node) (level : nat)
    (array : list record) (this : HierarchyTable) :
  outside_rows (snd (parseHierarchy hier level array this)) = outside_rows this.
Proof.
  apply (building_traversal (fun s => outside_rows s = outside_rows this)).
  - intros r f. apply outside_rows_update_row.
  - reflexivity.
Qed.

Lemma traversal_outside hier this :
  outside_rows (snd (parseHierarchy hier 0 [] this)) = outside_rows this.
Proof.
  apply (building_traversal (fun s => outside_rows s = outside_rows this)).
  - intros r f. apply outside_rows_update_row.
  - reflexivity.
Qed.

(** On a table without a [tbody] the selector finds no row: the first node
    of a traversal fails, nothing is written. *)
Lemma no_body_no_row item rest level array this :
  t_body (source this) = None ->
  parseHierarchy (item :: rest) level array this = (Throw TypeError, this).
Proof.
  intros Hb. simpl parseHierarchy. apply bind_Throw.
  rewrite parseItem_unfold. apply bind_Throw.
  unfold parseRow. apply bind_Throw.
  unfold lookup_row, bind, get. simpl.
  destruct (rowheaders this !! n_id item) as [index|]; [|reflexivity].
  rewrite Hb. unfold body_rows, at_index.
  destruct (index <? 0)%Z; [reflexivity|]. rewrite lookup_nil. reflexivity.
Qed.

(** The configuration of the object and the size of the table after
    construction, however it completed. *)
Lemma constructor_frame src hier rh hierColumn flat srch :
  let this' := snd (new_HierarchyTable src hier rh hierColumn flat srch) in
  hierarchy this' = hier /\ rowheaders this' = rh /\ column this' = hierColumn /\
  _flat this' = flat /\ length (t_rows (source this')) = length (t_rows src).
Proof.
  intros this'. subst this'. rewrite constructor_run.
  pose proof (traversal_outside hier (started src hier rh hierColumn flat srch)) as Hout.
  destruct (parseHierarchy hier 0 [] (started src hier rh hierColumn flat srch))
    as [[d|e|l] s]; simpl in Hout; unfold outside_rows in Hout; simpl in Hout;
    injection Hout as Hh Hr _ Hc Hf _ _ _ _ Hl;
    [destruct (t_body (source s))|..]; simpl; auto.
Qed.

(** Construction that does not complete: the traversal failed, or it built
    the rows of an empty forest on a table without a [tbody]. *)
Lemma constructor_failure src hier rh hierColumn flat srch :
  fst (new_HierarchyTable src hier rh hierColumn flat srch) <> Normal tt ->
  let this' := snd (new_HierarchyTable src hier rh hierColumn flat srch) in
  data this' = match t_body src, hier with
               | None, [] => Some []
               | _, _ => None
               end /\
  t_body (source this') = t_body src.
Proof.
  intros Hne this'. subst this'. revert Hne. rewrite constructor_run.
  pose proof (traversal_outside hier (started src hier rh hierColumn flat srch)) as Hout.
  destruct (parseHierarchy hier 0 [] (started src hier rh hierColumn flat srch))
    as [[d|e|l] s] eqn:Hp; simpl in Hout; unfold outside_rows in Hout; simpl in Hout;
    injection Hout as _ _ Hd _ _ _ _ Hb _ _.
  - destruct (t_body (source s)) eqn:Hbs; [intros Hne; exfalso; apply Hne; reflexivity|].
    intros _. simpl. rewrite Hbs, <- Hb. split; [|reflexivity].
    destruct hier as [|item rest].
    + injection Hp as <- _. reflexivity.
    + rewrite (no_body_no_row item rest 0 []
                 (started src (item :: rest) rh hierColumn flat srch) (eq_sym Hb)) in Hp.
      discriminate.
  - intros _. simpl. split; [|exact Hb]. rewrite Hd.
    destruct (t_body src), hier; try reflexivity. discriminate.
  - intros _. simpl. split; [|exact Hb]. rewrite Hd.
    destruct (t_body src), hier; try reflexivity. discriminate.
Qed.

(** X5.  When construction does not complete, the object keeps the
    configuration it was given and the assigned mode, and the table keeps its
    body as it was, leading text node included, and its number of rows: no row
    is moved, added or removed (rows may already be tagged).  [data] is
    [null], except on a table without a [tbody] built from an empty forest:
    there [data] is assigned the empty array before [init] fails. *)
Theorem failed_construction_keeps_table (src : table) (hier : list node)
    (rh : gmap string Z) (hierColumn : Z) (flat : bool) (srch : searchObj) :
  fst (new_HierarchyTable src hier rh hierColumn flat srch) <> Normal tt ->
  let this' := snd (new_HierarchyTable src hier rh hierColumn flat srch) in
  data this' = match t_body src, hier with
               | None, [] => Some []
               | _, _ => None
               end /\
  hierarchy this' = hier /\ rowheaders this' = rh /\ column this' = hierColumn /\
  _flat this' = flat /\
  t_body (source this') = t_body src /\
  length (t_rows (source this')) = length (t_rows src).
Proof.
  intros Hne this'.
  destruct (constructor_failure _ _ _ _ _ _ Hne) as [Hd Hb].
  destruct (constructor_frame src hier rh hierColumn flat srch) as (Hh & Hr & Hc & Hf & Hl).
  fold this' in Hd, Hb, Hh, Hr, Hc, Hf, Hl. auto 10.
Qed.

Lemma failed_construction_keeps_table_region :
  fst (new_HierarchyTable Sample.region_table Sample.region_forest Sample.region_index (-1)
         true default_search) <> Normal tt /\
  let this' := snd (new_HierarchyTable Sample.region_table Sample.region_forest
                      Sample.region_index (-1) true default_search) in
  data this' = None /\
  hierarchy this' = Sample.region_forest /\ rowheaders this' = Sample.region_index /\
  column this' = (-1)%Z /\ _flat this' = true /\
  t_body (source this') = t_body Sample.region_table /\
  length (t_rows (source this')) = length (t_rows Sample.region_table).
Proof.
  assert (fst (new_HierarchyTable Sample.region_table Sample.region_forest
                 Sample.region_index (-1) true default_search) <> Normal tt) as H.
  { vm_compute. discriminate. }
  split; [exact H|].
  exact (failed_construction_keeps_table Sample.region_table Sample.region_forest
           Sample.region_index (-1) true default_search H).
Defined.

(** ** The hierarchy column of the arrays *)

Lemma array_get_set l i v : (0 <= i)%Z -> at_index (array_set l i v) i = Some v.
Proof.
  intros Hi. unfold at_index, array_set.
  destruct (Z.ltb_spec i 0); [lia|].
  destruct (Nat.ltb_spec (Z.to_nat i) (length l)).
  - apply list_lookup_insert_eq. assumption.
  - rewrite lookup_app_r by lia. rewrite lookup_app_r by (rewrite length_replicate; lia).
    rewrite length_replicate, Nat.sub_diag. reflexivity.
Qed.

Lemma updateCategoryLabel_Normal row this row' this' :
  updateCategoryLabel row this = (Normal row', this') ->
  row' = labelled (_flat this) (column this) row.
Proof.
  unfold updateCategoryLabel, bind, get.
  destruct (NodeList_item _ _); [|discriminate].
  destruct (first_link _); simpl.
  - intros [= <- _]. reflexivity.
  - destruct (NodeList_item _ _); simpl; [|discriminate]. intros [= <- _]. reflexivity.
Qed.

Opaque updateCategoryLabel.
Lemma parseRow_label level item this row this' :
  parseRow level item this = (Normal row, this') ->
  at_index (cells row) (column this) =
  Some (VString (if _flat this then m_flatName (rmeta row) else m_name (rmeta row))).
Proof.
  intros H.
  destruct (parseRow_effects _ _ _ _ _ H) as (Hframe & _).
  destruct (parseRow_Normal _ _ _ _ _ H) as (r & x & _ & _ & Hcell & _ & _).
  apply at_index_Some in Hcell.
  unfold parseRow in H.
  repeat (apply bind_Normal_run in H as (? & ? & _ & H)).
  match type of H with
  | updateCategoryLabel ?rec ?s = _ => pose proof (updateCategoryLabel_pure rec s) as Hpure
  end.
  rewrite H in Hpure. simpl in Hpure. rewrite <- Hpure in H.
  apply updateCategoryLabel_Normal in H. subst row.
  assert (column this' = column this) as -> by (unfold frame in Hframe; congruence).
  assert (_flat this' = _flat this) as -> by (unfold frame in Hframe; congruence).
  unfold labelled. simpl cells. rewrite array_get_set by lia. reflexivity.
Qed.
Transparent updateCategoryLabel.

Lemma built_labels this rows this' :
  built this rows this' ->
  Forall (fun row => at_index (cells row) (column this) =
                     Some (VString (if _flat this then m_flatName (rmeta row)
                                    else m_name (rmeta row)))) rows.
Proof.
  induction 1 as [this|this level item row s rows this' Hrow Hrest IH]; [constructor|].
  destruct (parseRow_effects _ _ _ _ _ Hrow) as (Hframe & _).
  constructor; [exact (parseRow_label _ _ _ _ _ Hrow)|].
  assert (column s = column this) as <- by (unfold frame in Hframe; congruence).
  assert (_flat s = _flat this) as <- by (unfold frame in Hframe; congruence).
  exact IH.
Qed.

Lemma constructor_labels src hier rh hierColumn flat srch :
  labels_current (snd (new_HierarchyTable src hier rh hierColumn flat srch)).
Proof.
  destruct (constructor_built src hier rh hierColumn flat srch)
    as [Hd|(d & s & Hbuilt & Hd & _ & Hcol & Hflat)].
  - unfold labels_current, records. rewrite Hd. constructor.
  - pose proof (built_labels _ _ _ Hbuilt) as Hlab.
    destruct (built_effects _ _ _ Hbuilt) as (Hframe & _).
    unfold labels_current, records. rewrite Hd, Hcol, Hflat.
    assert (column s = column (started src hier rh hierColumn flat srch)) as ->
      by (unfold frame in Hframe; congruence).
    assert (_flat s = _flat (started src hier rh hierColumn flat srch)) as ->
      by (unfold frame in Hframe; congruence).
    exact Hlab.
Qed.

Lemma constructor_column src hier rh hierColumn flat srch :
  column (snd (new_HierarchyTable src hier rh hierColumn flat srch)) = hierColumn.
Proof. apply (constructor_frame src hier rh hierColumn flat srch). Qed.

Lemma labelled_table_record i f :
  (forall row, cells (f row) = cells row /\
               set__collapsed None (set__hidden true (rmeta (f row))) =
               set__collapsed None (set__hidden true (rmeta row))) ->
  preserves labelled_table (update_record i f).
Proof.
  intros Hf this (Hcol & Hwb & Hlab). simpl. split; [exact Hcol|]. split.
  - rewrite (well_built_fixed this); [exact Hwb|].
    apply fixed_part_record. intros row. apply Hf.
  - unfold labels_current, records in *. simpl.
    destruct (data this) as [d|]; simpl; [|constructor].
    apply Forall_alter; [exact Hlab|]. intros row _ Hrow.
    destruct (Hf row) as [-> Hm]. rewrite Hrow.
    assert (m_flatName (rmeta (f row)) = m_flatName (rmeta row)) as ->.
    { apply (f_equal m_flatName) in Hm. exact Hm. }
    assert (m_name (rmeta (f row)) = m_name (rmeta row)) as ->.
    { apply (f_equal m_name) in Hm. exact Hm. }
    reflexivity.
Qed.

Lemma labelled_table_classes r f :
  preserves labelled_table (update_row r (with_row_classes f)).
Proof.
  intros this (Hcol & Hwb & Hlab). simpl. split; [exact Hcol|]. split; [|exact Hlab].
  rewrite (well_built_fixed this); [exact Hwb|]. apply fixed_part_classes.
Qed.

Lemma labelled_table_set_flat flat : preserves labelled_table (set_flat flat).
Proof.
  intros this (Hcol & Hwb & Hlab). rewrite (set_flat_Normal flat this Hcol Hwb). simpl.
  split; [exact Hcol|]. split.
  - rewrite <- Hwb. apply well_built_fixed.
    unfold fixed_part, flat_view, records. simpl.
    destruct (data this) as [d|]; simpl; [|reflexivity].
    rewrite map_map. reflexivity.
  - assert (0 < length (records this) -> (0 <= column this)%Z) as H0.
    { intros Hlen. unfold well_built in Hwb.
      destruct (records this) as [|row d]; [simpl in Hlen; lia|].
      simpl in Hwb. apply andb_prop in Hwb as [Hrow _]. apply andb_prop in Hrow as [_ Hready].
      unfold cell_ready in Hready.
      destruct (at_index _ (column this)) as [c|] eqn:Hc; [|discriminate].
      pose proof (proj1 (at_index_Some _ _) (ex_intro _ c Hc)). lia. }
    unfold labels_current, flat_view, records in *. simpl.
    destruct (data this) as [d|]; simpl; [|constructor].
    apply Forall_forall. intros row' Hin. apply list_elem_of_fmap in Hin as (row & -> & Hin).
    unfold labelled. simpl. apply array_get_set. apply H0.
    destruct d; [inversion Hin|simpl; lia].
Qed.

Lemma labelled_table_perform a : preserves labelled_table (perform a).
Proof.
  apply parts_perform.
  - intros i. apply labelled_table_record. intros row. split; reflexivity.
  - intros i v. apply labelled_table_record. intros row. split; reflexivity.
  - intros r c _. apply labelled_table_classes.
  - intros r c _. apply labelled_table_classes.
  - intros tg name this H. exact H.
  - apply labelled_table_set_flat.
Qed.

(** X6.  With a hierarchy column index below 2^32, after construction
    (completed or not) and after any sequence of actions, the array of every
    row of [data] holds, in the hierarchy column, the label of the current
    mode: [flatName] in flat mode, [name] in tree mode. *)
Theorem labels_follow_mode (src : table) (hier : list node) (rh : gmap string Z)
    (hierColumn : Z) (flat : bool) (srch : searchObj) (acts : list action) :
  (hierColumn < 4294967296)%Z ->
  labels_current (run acts (snd (new_HierarchyTable src hier rh hierColumn flat srch))).
Proof.
  intros Hcol.
  apply (preserves_run labelled_table acts labelled_table_perform).
  split; [rewrite constructor_column; exact Hcol|].
  split; [apply constructor_well_built|apply constructor_labels].
Qed.

Lemma labels_follow_mode_area :
  (0 < 4294967296)%Z /\
  labels_current
    (run [Click 0; SetFlat true; Search 5 "a"]
         (snd (new_HierarchyTable Sample.area_table Sample.area_forest Sample.area_index 0
                 false default_search))).
Proof.
  split; [lia|].
  apply (labels_follow_mode Sample.area_table Sample.area_forest Sample.area_index 0 false
           default_search [Click 0; SetFlat true; Search 5 "a"]).
  lia.
Defined.

(** X7.  On a table whose rows of [data] are well built, with a column index
    below 2^32, an assignment to [flat] completes normally: the mode is stored,
    the table carries the flat-view class exactly in flat mode, one event of
    the mode is dispatched on the table, every array is relabelled in the
    hierarchy column and nothing else of the arrays, the rows of the table and
    the body changes. *)
Theorem flat_assignment_relabels (flat : bool) (this : HierarchyTable) :
  (column this < 4294967296)%Z ->
  well_built this = true ->
  exists this',
    set_flat flat this = (Normal tt, this') /\
    _flat this' = flat /\
    classList_contains "reportal-heirarchy-flat-view" (t_classes (source this')) = flat /\
    t_events (source this') =
      t_events (source this) ++
      [(if flat then "reportal-table-hierarchy-flat-view"
        else "reportal-table-hierarchy-tree-view", OnTable)] /\
    records this' = map (labelled flat (column this)) (records this) /\
    t_rows (source this') = t_rows (source this) /\
    t_body (source this') = t_body (source this).
Proof.
  intros Hcol Hwb. exists (flat_view flat this).
  split; [apply set_flat_Normal; assumption|].
  split; [reflexivity|]. split.
  { unfold flat_view. simpl. destruct flat.
    - rewrite classList_contains_add, String.eqb_refl. apply orb_true_r.
    - rewrite classList_contains_remove, String.eqb_refl. apply andb_false_r. }
  split; [reflexivity|]. split; [|split; reflexivity].
  unfold flat_view, records. simpl. destruct (data this); reflexivity.
Qed.

Lemma flat_assignment_relabels_area :
  (column Sample.area_expanded < 4294967296)%Z /\
  well_built Sample.area_expanded = true /\
  exists this',
    set_flat true Sample.area_expanded = (Normal tt, this') /\
    _flat this' = true /\
    classList_contains "reportal-heirarchy-flat-view" (t_classes (source this')) = true /\
    t_events (source this') =
      t_events (source Sample.area_expanded) ++
      [("reportal-table-hierarchy-flat-view", OnTable)] /\
    records this' =
      map (labelled true (column Sample.area_expanded)) (records Sample.area_expanded) /\
    t_rows (source this') = t_rows (source Sample.area_expanded) /\
    t_body (source this') = t_body (source Sample.area_expanded).
Proof.
  split; [vm_compute; reflexivity|]. split; [vm_compute; reflexivity|].
  apply (flat_assignment_relabels true Sample.area_expanded);
    vm_compute; reflexivity.
Defined.

(** ** The order of the body after construction *)

Lemma filter_twice {A} (p q pq : A -> bool) (l : list A) :
  (forall x, pq x = q x && p x) ->
  List.filter p (List.filter q l) = List.filter pq l.
Proof.
  intros H. induction l as [|x l IH]; simpl; [reflexivity|].
  rewrite H. destruct (q x); simpl; [destruct (p x)|]; rewrite ?IH; reflexivity.
Qed.

Lemma other_than_fresh rs r : ~ In r rs -> other_than rs (BRow r) = true.
Proof.
  intros H. simpl. apply negb_true_iff. apply not_true_is_false. intros E.
  apply existsb_exists in E as (r' & Hin & Heq). apply Nat.eqb_eq in Heq. subst r'. auto.
Qed.

Lemma append_rows_NoDup rs : forall b,
  List.NoDup rs ->
  append_rows rs b = List.filter (other_than rs) b ++ map BRow rs.
Proof.
  induction rs as [|r rs IH]; intros b Hnd.
  - simpl. unfold append_rows. simpl.
    induction b as [|n b IHb]; simpl; [reflexivity|].
    destruct n; simpl; rewrite app_nil_r in *; f_equal; exact IHb.
  - inversion Hnd as [|? ? Hr Hrs]; subst.
    change (append_rows (r :: rs) b) with (append_rows rs (append_row b r)).
    rewrite (IH _ Hrs). unfold append_row.
    rewrite List.filter_app.
    change (List.filter (other_than rs) [BRow r])
      with (if other_than rs (BRow r) then [BRow r] else []).
    rewrite (other_than_fresh rs r Hr). rewrite <- app_assoc.
    change (map BRow (r :: rs)) with ([BRow r] ++ map BRow rs). f_equal.
    apply filter_twice. intros [|r']; simpl; [reflexivity|].
    rewrite negb_orb, Nat.eqb_sym. reflexivity.
Qed.

Lemma constructor_Normal_body src hier rh hierColumn flat srch this' :
  new_HierarchyTable src hier rh hierColumn flat srch = (Normal tt, this') ->
  exists b, t_body src = Some b.
Proof.
  rewrite constructor_run. intros H.
  pose proof (traversal_outside hier (started src hier rh hierColumn flat srch)) as Hout.
  destruct (parseHierarchy hier 0 [] (started src hier rh hierColumn flat srch))
    as [[d|e|l] s]; try discriminate.
  unfold outside_rows in Hout. simpl in Hout. injection Hout as _ _ _ _ _ _ _ Hb _ _.
  destruct (t_body (source s)) as [b|]; [|discriminate].
  exists b. symmetry. exact Hb.
Qed.

(** X8.  When construction completes and the rows of [data] refer to distinct
    rows of the table, the table has a body and this body is afterwards, in
    this order: its former nodes without a leading text node and without the
    rows of [data], then the rows of [data] in the order of [data]. *)
Theorem construction_orders_body (src : table) (hier : list node) (rh : gmap string Z)
    (hierColumn : Z) (flat : bool) (srch : searchObj) (this' : HierarchyTable) :
  new_HierarchyTable src hier rh hierColumn flat srch = (Normal tt, this') ->
  List.NoDup (map (fun row => m_row (rmeta row)) (records this')) ->
  exists b,
    t_body src = Some b /\
    t_body (source this') =
    Some (List.filter (other_than (map (fun row => m_row (rmeta row)) (records this')))
                      (drop_text b) ++
          map BRow (map (fun row => m_row (rmeta row)) (records this'))).
Proof.
  intros H. destruct (constructor_Normal_body _ _ _ _ _ _ _ H) as [b Hb].
  destruct (constructor_Normal _ _ _ _ _ _ _ H) as (d & s & Hparse & ->).
  apply parseHierarchy_built in Hparse.
  destruct (built_effects _ _ _ Hparse) as (Hframe & _).
  assert (t_body (source s) = t_body src) as Hbody
    by (unfold frame in Hframe; simpl in Hframe; congruence).
  unfold records. simpl. intros Hnd. exists b. split; [exact Hb|].
  rewrite Hbody, Hb. simpl. f_equal. apply append_rows_NoDup. exact Hnd.
Qed.

Lemma construction_orders_body_area :
  new_HierarchyTable Sample.area_table Sample.area_forest Sample.area_index 0 false
    default_search = (Normal tt, Sample.area) /\
  List.NoDup (map (fun row => m_row (rmeta row)) (records Sample.area)) /\
  exists b,
    t_body Sample.area_table = Some b /\
    t_body (source Sample.area) =
    Some (List.filter (other_than (map (fun row => m_row (rmeta row)) (records Sample.area)))
                      (drop_text b) ++
          map BRow (map (fun row => m_row (rmeta row)) (records Sample.area))).
Proof.
  assert (List.NoDup (map (fun row => m_row (rmeta row)) (records Sample.area))) as Hnd.
  { vm_compute. repeat constructor; simpl; intuition discriminate. }
  split; [vm_compute; reflexivity|]. split; [exact Hnd|].
  apply (construction_orders_body Sample.area_table Sample.area_forest Sample.area_index 0
           false default_search); [vm_compute; reflexivity|exact Hnd].
Defined.

(** ** Classes of the rows under the actions *)

Lemma marker_set_flat c flat this r :
  marker c (snd (set_flat flat this)) r = marker c this r.
Proof.
  unfold marker, row_classes. rewrite set_flat_keeps_rows. reflexivity.
Qed.

Lemma eqb_not_In c (l : list string) c' : ~ In c l -> In c' l -> String.eqb c c' = false.
Proof.
  intros Hc Hc'. apply String.eqb_neq. intros ->. auto.
Qed.

Lemma preserves_marker_other c r v a :
  ~ In c row_classes_set ->
  preserves (fun s => marker c s r = v) (perform a).
Proof.
  intros Hc.
  assert (~ In c row_classes_unset) as Hc'.
  { intros H. apply Hc. unfold row_classes_unset, row_classes_set in *. simpl in *. tauto. }
  apply parts_perform.
  - intros i this H. exact H.
  - intros i val this H. exact H.
  - intros r' c' Hin this H. simpl. rewrite marker_add, (eqb_not_In c _ c' Hc Hin).
    simpl. rewrite orb_false_r. exact H.
  - intros r' c' Hin this H. simpl. rewrite marker_remove, (eqb_not_In c _ c' Hc' Hin).
    simpl. rewrite andb_true_r. exact H.
  - intros tg name this H. exact H.
  - intros flat this H. rewrite marker_set_flat. exact H.
Qed.

Lemma preserves_marker_kept c r a :
  ~ In c row_classes_unset ->
  preserves (fun s => marker c s r = true) (perform a).
Proof.
  intros Hc. apply parts_perform.
  - intros i this H. exact H.
  - intros i val this H. exact H.
  - intros r' c' Hin this H. simpl. rewrite marker_add, H. reflexivity.
  - intros r' c' Hin this H. simpl. rewrite marker_remove, (eqb_not_In c _ c' Hc Hin).
    simpl. rewrite andb_true_r. exact H.
  - intros tg name this H. exact H.
  - intros flat this H. rewrite marker_set_flat. exact H.
Qed.

(** X9.  No sequence of actions removes the search highlight from a row: a
    row that carries [matched-search] carries it after any clicks, searches,
    mode switches and assignments, however each of them completes. *)
Theorem highlight_never_removed (acts : list action) (this : HierarchyTable) (r : nat) :
  highlighted this r = true -> highlighted (run acts this) r = true.
Proof.
  intros H.
  apply (preserves_run (fun s => marker "matched-search" s r = true)); [|exact H].
  intros a. apply preserves_marker_kept.
  unfold row_classes_unset. simpl. intros [E|[E|[E|[]]]]; discriminate.
Qed.

Lemma highlight_never_removed_area :
  highlighted (run [Search 5 "a"] Sample.area) 0 = true /\
  highlighted (run [Search 5 "zzz"; Click 0; SetFlat true; SetCollapsed 1 true]
                   (run [Search 5 "a"] Sample.area)) 0 = true.
Proof.
  assert (highlighted (run [Search 5 "a"] Sample.area) 0 = true) as H
    by (vm_compute; reflexivity).
  split; [exact H|].
  exact (highlight_never_removed [Search 5 "zzz"; Click 0; SetFlat true; SetCollapsed 1 true]
           (run [Search 5 "a"] Sample.area) 0 H).
Defined.

(** X10.  The actions write four row classes only: for any other class (the
    level classes, [reportal-no-children], classes of the page), whether a row
    carries it is the same after any sequence of actions as before. *)
Theorem actions_write_four_classes (acts : list action) (this : HierarchyTable)
    (c : string) (r : nat) :
  ~ In c ["reportal-hidden-row"; "reportal-collapsed-row"; "reportal-uncollapsed-row";
          "matched-search"] ->
  classList_contains c (row_classes (run acts this) r) =
  classList_contains c (row_classes this r).
Proof.
  intros Hc.
  apply (preserves_run (fun s => marker c s r = marker c this r)); [|reflexivity].
  intros a. apply preserves_marker_other. exact Hc.
Qed.

Lemma actions_write_four_classes_area :
  ~ In "level1" ["reportal-hidden-row"; "reportal-collapsed-row"; "reportal-uncollapsed-row";
                 "matched-search"] /\
  classList_contains "level1"
    (row_classes (run [Click 0; Search 5 "a"; SetHidden 1 false] Sample.area) 1) =
  classList_contains "level1" (row_classes Sample.area 1).
Proof.
  assert (~ In "level1" ["reportal-hidden-row"; "reportal-collapsed-row";
                         "reportal-uncollapsed-row"; "matched-search"]) as H.
  { simpl. intros [E|[E|[E|[E|[]]]]]; discriminate. }
  split; [exact H|].
  exact (actions_write_four_classes [Click 0; Search 5 "a"; SetHidden 1 false]
           Sample.area "level1" 1 H).
Defined.

(** ** Clicks *)

(** X11.  The button of a row without children works as a plain switch: a
    click completes normally, assigns the negation of the row's [collapsed]
    (so [true] on the first click, from [undefined]) through the setter, and
    changes no other row of [data] and no hidden marker. *)
Theorem leaf_click_switches_collapsed (i : nat) (this : HierarchyTable) (row : record) :
  records this !! i = Some row ->
  m_hasChildren (rmeta row) = false ->
  exists this',
    collapseButton_click i this = (Normal tt, this') /\
    records this' =
      alter (with_meta (set__collapsed (Some (negb (truthy (m_collapsed (rmeta row)))))))
            i (records this) /\
    (forall r, hidden_marker this' r = hidden_marker this r) /\
    (forall r, highlighted this' r = highlighted this r).
Proof.
  intros Hi Hleaf. unfold collapseButton_click.
  rewrite (bind_Normal _ _ _ _ _ (the_meta_ok _ _ _ Hi)).
  destruct (set_collapsed_spec i (negb (truthy (m_collapsed (rmeta row)))) this row Hi)
    as (s0 & Hrun0 & Hrec0 & _ & Hm0 & Hh0).
  rewrite (bind_Normal _ _ _ _ _ Hrun0).
  set (row0 := with_meta (set__collapsed (Some (negb (truthy (m_collapsed (rmeta row))))))
                         row) in *.
  assert (records s0 !! i = Some row0) as Hi0.
  { rewrite Hrec0, list_lookup_alter_eq, Hi. reflexivity. }
  unfold toggleHiddenRows. rewrite (bind_Normal _ _ _ _ _ (the_meta_ok _ _ _ Hi0)).
  replace (m_hasChildren (rmeta row0)) with false by (symmetry; exact Hleaf).
  exists s0. auto.
Qed.

Lemma leaf_click_switches_collapsed_area :
  records Sample.area !! 3 = Some (Rec [VString "West"; VScalar "4"]
                                       (Meta 3 "D" "Area/West" "West" "A" 1 false true None)) /\
  exists this',
    collapseButton_click 3 Sample.area = (Normal tt, this') /\
    records this' =
      alter (with_meta (set__collapsed (Some (negb (truthy None))))) 3 (records Sample.area) /\
    (forall r, hidden_marker this' r = hidden_marker Sample.area r) /\
    (forall r, highlighted this' r = highlighted Sample.area r).
Proof.
  assert (records Sample.area !! 3 =
          Some (Rec [VString "West"; VScalar "4"]
                    (Meta 3 "D" "Area/West" "West" "A" 1 false true None))) as H
    by (vm_compute; reflexivity).
  split; [exact H|].
  exact (leaf_click_switches_collapsed 3 Sample.area _ H eq_refl).
Defined.

Lemma toggleChild_cascade i c this row child :
  records this !! i = Some row ->
  truthy (m_collapsed (rmeta row)) = true ->
  records this !! c = Some child ->
  m_hidden (rmeta child) = true ->
  m_hasChildren (rmeta child) = true ->
  truthy (m_collapsed (rmeta child)) = false ->
  exists this', toggleChild i c this = (Throw ReferenceError, this').
Proof.
  intros Hi Ht Hc Hh Hhas Hcol. unfold toggleChild.
  rewrite (bind_Normal _ _ _ _ _ (the_meta_ok _ _ _ Hi)), Ht.
  destruct (set_hidden_spec c true this child Hc) as (s1 & Hrun & Hrec & _).
  rewrite (alter_fix _ _ _ _ Hc (set__hidden_fix _ Hh)) in Hrec.
  rewrite (bind_Normal _ _ _ _ _ Hrun).
  assert (records s1 !! c = Some child) as Hc1 by (rewrite Hrec; exact Hc).
  rewrite (bind_Normal _ _ _ _ _ (the_meta_ok _ _ _ Hc1)).
  rewrite Hhas, Hcol. simpl.
  destruct (set_collapsed_spec c true s1 child Hc1) as (s2 & Hrun2 & _).
  rewrite (bind_Normal _ _ _ _ _ Hrun2). eexists. reflexivity.
Qed.

Lemma cascade_loop i cs :
  forall this row,
    records this !! i = Some row ->
    truthy (m_collapsed (rmeta row)) = true ->
    (forall c, In c cs -> exists child,
       records this !! c = Some child /\ m_hidden (rmeta child) = true) ->
    (exists c child, In c cs /\ records this !! c = Some child /\
       m_hasChildren (rmeta child) = true /\ truthy (m_collapsed (rmeta child)) = false) ->
    exists this', forEach (toggleChild i) cs this = (Throw ReferenceError, this').
Proof.
  induction cs as [|c cs IH]; intros this row Hi Ht Hall (c0 & child0 & Hin & Hc0 & Hhas & Hcol).
  - destruct Hin.
  - destruct (Hall c (or_introl eq_refl)) as (child & Hc & Hh).
    simpl forEach.
    destruct (m_hasChildren (rmeta child) && negb (truthy (m_collapsed (rmeta child))))
      eqn:Hcasc.
    + apply andb_prop in Hcasc as [Hhas' Hcol']. apply negb_true_iff in Hcol'.
      destruct (toggleChild_cascade i c this row child Hi Ht Hc Hh Hhas' Hcol') as (s & Hrun).
      exists s. apply (bind_Throw _ _ _ _ _ Hrun).
    + assert (m_hasChildren (rmeta child) = true ->
              truthy (m_collapsed (rmeta child)) = true) as Hset.
      { intros E. rewrite E in Hcasc. simpl in Hcasc. apply negb_false_iff in Hcasc.
        exact Hcasc. }
      destruct (toggleChild_hide i c this row child Hi Ht Hc Hh Hset)
        as (s1 & Hrun & Hrec & _).
      rewrite (bind_Normal _ _ _ _ _ Hrun).
      apply (IH s1 row).
      * rewrite Hrec. exact Hi.
      * exact Ht.
      * intros c' Hc'. rewrite Hrec. apply Hall. right. exact Hc'.
      * exists c0, child0. rewrite Hrec.
        destruct Hin as [<-|Hin]; [|auto].
        rewrite Hc in Hc0. injection Hc0 as <-.
        rewrite Hset in Hcol by exact Hhas. discriminate.
Qed.

Lemma positions_complete {A} (p : A -> bool) l : forall k j x,
  l !! j = Some x -> p x = true -> In (k + j) (positions p l k).
Proof.
  induction l as [|y l IH]; intros k j x Hj Hp; [rewrite lookup_nil in Hj; discriminate|].
  destruct j as [|j]; simpl in *.
  - injection Hj as ->. rewrite Hp, Nat.add_0_r. left. reflexivity.
  - replace (k + S j) with (S k + j) by lia.
    destruct (p y); [right|]; eapply IH; eauto.
Qed.

(** X12.  Collapsing a row by a click fails whenever one of its children has
    children and is not collapsed: the click ends in a ReferenceError (the
    cascade refers to a variable that does not exist), for every table and
    every such pair of rows, all rows reading [hidden] as they always do. *)
Theorem collapse_over_expanded_child_throws (this : HierarchyTable) (i c : nat)
    (row child : record) :
  all_hidden this = true ->
  records this !! i = Some row ->
  m_hasChildren (rmeta row) = true ->
  truthy (m_collapsed (rmeta row)) = false ->
  c <> i ->
  records this !! c = Some child ->
  is_child_of row child = true ->
  m_hasChildren (rmeta child) = true ->
  truthy (m_collapsed (rmeta child)) = false ->
  fst (collapseButton_click i this) = Throw ReferenceError.
Proof.
  intros Hall Hi Hch Hcol Hne Hc Hparent Hhas Hccol.
  apply all_hidden_inv in Hall.
  unfold collapseButton_click.
  rewrite (bind_Normal _ _ _ _ _ (the_meta_ok _ _ _ Hi)), Hcol. simpl negb.
  destruct (set_collapsed_spec i true this row Hi) as (s0 & Hrun0 & Hrec0 & _).
  rewrite (bind_Normal _ _ _ _ _ Hrun0).
  set (row0 := with_meta (set__collapsed (Some true)) row).
  assert (records s0 !! i = Some row0) as Hi0.
  { rewrite Hrec0, list_lookup_alter_eq, Hi. reflexivity. }
  assert (records s0 !! c = Some child) as Hc0.
  { rewrite Hrec0, list_lookup_alter_ne by congruence. exact Hc. }
  assert (hidden_inv s0) as Hinv0.
  { pose proof (preserves_hidden_set_collapsed i true this Hall) as H.
    rewrite Hrun0 in H. exact H. }
  unfold toggleHiddenRows.
  rewrite (bind_Normal _ _ _ _ _ (the_meta_ok _ _ _ Hi0)).
  replace (m_hasChildren (rmeta row0)) with true by (symmetry; exact Hch).
  rewrite (bind_Normal _ _ _ _ _ (the_data_ok _ _ _ Hi0)).
  change (fun row1 : record => String.eqb (m_parent (rmeta row1)) (m_id (rmeta row0)))
    with (is_child_of row0).
  destruct (cascade_loop i (positions (is_child_of row0) (records s0) 0) s0 row0 Hi0 eq_refl)
    as (s1 & Hrun1).
  - intros c' Hc'. apply positions_lookup in Hc' as (_ & child' & Hc' & _).
    rewrite Nat.sub_0_r in Hc'. exists child'. split; [exact Hc'|].
    eapply hidden_inv_lookup; eauto.
  - exists c, child. split; [|auto].
    apply (positions_complete (is_child_of row0) (records s0) 0 c child Hc0). exact Hparent.
  - rewrite Hrun1. reflexivity.
Qed.

Lemma collapse_over_expanded_child_throws_area :
  fst (collapseButton_click 0 Sample.area_expanded) = Throw ReferenceError.
Proof.
  apply (collapse_over_expanded_child_throws Sample.area_expanded 0 1
           (Rec [VString "Area"; VScalar "1"]
                (Meta 0 "A" "Area" "Area" "" 0 true true (Some false)))
           (Rec [VString "East"; VScalar "2"]
                (Meta 1 "B" "Area/East" "East" "A" 1 true true (Some false))));
    first [ vm_compute; reflexivity | discriminate ].
Defined.

(** ** Searches and look-ups that fail *)

(** X13.  A search stops at the first matched row whose parent id is the id
    of no row of [data]: that row is highlighted, the search then fails with a
    TypeError and no later match is highlighted or expanded. *)
Theorem search_unknown_parent_TypeError (fuel : nat) (str : string)
    (this : HierarchyTable) (i : nat) (rest : list nat) (row : record) :
  literal_pattern str = true ->
  matched_rows this str (records this) = i :: rest ->
  records this !! i = Some row ->
  (0 <? String.length (m_parent (rmeta row))) = true ->
  position (fun r => String.eqb (m_id (rmeta r)) (m_parent (rmeta row))) (records this)
    = None ->
  searchRowheaders (S fuel) str this =
  (Throw TypeError,
   snd (row_classList_add (m_row (rmeta row)) "matched-search" this)).
Proof.
  intros Hlit Hmatch Hi Hparent Hpos. unfold searchRowheaders. rewrite Hlit.
  rewrite (bind_Normal _ _ _ _ _ (eq_refl : get this = (Normal this, this))).
  rewrite (bind_Normal _ _ _ _ _ (the_data_ok _ _ _ Hi)).
  rewrite Hmatch. simpl forEach.
  destruct (highlight_spec (m_row (rmeta row)) this) as (s1 & Hrun & Hdata & _).
  assert (records s1 = records this) as Hrec by (unfold records; rewrite Hdata; reflexivity).
  assert (records s1 !! i = Some row) as Hi1 by (rewrite Hrec; exact Hi).
  rewrite Hrun. simpl snd.
  apply bind_Throw.
  rewrite (bind_Normal _ _ _ _ _ (the_meta_ok _ _ _ Hi)).
  rewrite (bind_Normal _ _ _ _ _ Hrun).
  apply bind_Throw. simpl uncollapseParents.
  rewrite (bind_Normal _ _ _ _ _ (the_meta_ok _ _ _ Hi1)), Hparent.
  rewrite (bind_Normal _ _ _ _ _ (the_data_ok _ _ _ Hi1)).
  rewrite Hrec, Hpos. reflexivity.
Qed.

Lemma search_unknown_parent_TypeError_orphan :
  searchRowheaders 3 "north" orphan =
  (Throw TypeError, snd (row_classList_add 1 "matched-search" orphan)).
Proof.
  apply (search_unknown_parent_TypeError 2 "north" orphan 0 []
           (Rec [VString "North"; VScalar "7"]
                (Meta 1 "B" "Region/North" "North" "A" 0 false true None)));
    vm_compute; reflexivity.
Defined.

(** X14.  When the id of the first node of the forest is no key of the index
    map, or its index is the position of no row of the body, construction
    fails with a TypeError before anything is written to a row: the rows of
    the table are those it was given and [data] is [null]. *)
Theorem unknown_first_row_TypeError (src : table) (item : node) (rest : list node)
    (rh : gmap string Z) (hierColumn : Z) (flat : bool) (srch : searchObj) :
  match rh !! n_id item with
  | None => True
  | Some index => at_index (body_rows (t_body src)) index = None
  end ->
  exists this',
    new_HierarchyTable src (item :: rest) rh hierColumn flat srch = (Throw TypeError, this') /\
    t_rows (source this') = t_rows src /\ t_body (source this') = t_body src /\
    data this' = None.
Proof.
  intros Hlook. exists (started src (item :: rest) rh hierColumn flat srch).
  split; [|split; [reflexivity|split; reflexivity]].
  rewrite constructor_run.
  assert (parseHierarchy (item :: rest) 0 []
            (started src (item :: rest) rh hierColumn flat srch) =
          (Throw TypeError, started src (item :: rest) rh hierColumn flat srch)) as ->;
    [|reflexivity].
  simpl parseHierarchy. apply bind_Throw.
  rewrite parseItem_unfold. apply bind_Throw.
  unfold parseRow. apply bind_Throw.
  unfold lookup_row, bind, get. simpl.
  destruct (rh !! n_id item) as [index|]; [|reflexivity].
  rewrite Hlook. reflexivity.
Qed.

Lemma unknown_first_row_TypeError_region :
  exists this',
    new_HierarchyTable Sample.region_table (Node "Z" "Zone" "" [] :: Sample.region_forest)
      Sample.region_index 0 false default_search = (Throw TypeError, this') /\
    t_rows (source this') = t_rows Sample.region_table /\
    t_body (source this') = t_body Sample.region_table /\
    data this' = None.
Proof.
  apply (unknown_first_row_TypeError Sample.region_table (Node "Z" "Zone" "" [])
           Sample.region_forest Sample.region_index 0 false default_search).
  vm_compute. exact Logic.I.
Defined.

(** ** The label of a level *)

Lemma split_nonempty sep s : split sep s <> [].
Proof.
  destruct s as [|c s]; simpl; [discriminate|].
  destruct (Ascii.eqb c sep); [discriminate|]. destruct (split sep s); discriminate.
Qed.

Lemma split_app sep a b :
  split sep (a +:+ String sep b) = split sep a ++ split sep b.
Proof.
  induction a as [|c a IH]; simpl.
  - rewrite Ascii.eqb_refl. reflexivity.
  - destruct (Ascii.eqb c sep); [rewrite IH; reflexivity|].
    rewrite IH. pose proof (split_nonempty sep a) as Ha.
    destruct (split sep a) as [|seg segs]; [congruence|reflexivity].
Qed.

Lemma hd_rev_app {A} (d : A) (l l' : list A) :
  l' <> [] -> hd d (rev (l ++ l')) = hd d (rev l').
Proof.
  intros H. rewrite rev_app_distr.
  destruct (rev l') as [|x xs] eqn:E; [|reflexivity].
  apply (f_equal (@rev A)) in E. rewrite rev_involutive in E. simpl in E. congruence.
Qed.

(** X15.  The label of a level is taken after the last slash: a path in front
    of a name, whatever it is, does not change the label computed from it. *)
Theorem last_label_drops_path (path name : string) :
  last_label (path +:+ String "/" name) = last_label name.
Proof.
  unfold last_label. rewrite split_app, hd_rev_app; [reflexivity|apply split_nonempty].
Qed.

Lemma occurs_split sep s : Forall (fun seg => occurs sep seg = false) (split sep s).
Proof.
  induction s as [|c s IH]; simpl.
  - constructor; [reflexivity|constructor].
  - destruct (Ascii.eqb c sep) eqn:E.
    + constructor; [reflexivity|exact IH].
    + destruct (split sep s) as [|seg segs]; [constructor; [simpl; rewrite E|]; constructor|].
      inversion IH; subst. constructor; [simpl; rewrite E; assumption|assumption].
Qed.

Lemma occurs_trim_start c s : occurs c s = false -> occurs c (trim_start s) = false.
Proof.
  induction s as [|c' s IH]; simpl; [auto|].
  intros H. apply orb_false_elim in H as [Hc Hs].
  destruct (is_space c'); [auto|]. simpl. rewrite Hc, Hs. reflexivity.
Qed.

Lemma occurs_trim_end c s : occurs c s = false -> occurs c (trim_end s) = false.
Proof.
  induction s as [|c' s IH]; simpl; [auto|].
  intros H. apply orb_false_elim in H as [Hc Hs]. specialize (IH Hs).
  destruct (trim_end s) as [|c'' t].
  - destruct (is_space c'); simpl; [reflexivity|]. rewrite Hc. reflexivity.
  - simpl in *. rewrite Hc. exact IH.
Qed.

Lemma last_label_no_slash (flatName : string) :
  occurs "/" (last_label flatName) = false.
Proof.
  unfold last_label, trim. apply occurs_trim_end, occurs_trim_start.
  pose proof (occurs_split "/" flatName) as H.
  apply Forall_rev in H. destruct (rev (split "/" flatName)) as [|seg segs]; [reflexivity|].
  inversion H; subst. assumption.
Qed.

Lemma constructor_names src hier rh hierColumn flat srch :
  Forall (fun row => m_name (rmeta row) = last_label (m_flatName (rmeta row)))
         (records (snd (new_HierarchyTable src hier rh hierColumn flat srch))).
Proof.
  destruct (constructor_built src hier rh hierColumn flat srch)
    as [Hd|(d & s & Hbuilt & Hd & _)].
  - unfold records. rewrite Hd. constructor.
  - destruct (built_effects _ _ _ Hbuilt) as (_ & _ & _ & _ & Hall).
    unfold records. rewrite Hd. eapply Forall_impl; [exact Hall|].
    intros row (_ & _ & _ & _ & Hn). exact Hn.
Qed.

(** X16.  After construction (completed or not) and after any sequence of
    actions, the [name] of every row of [data] is the label of the last level
    of its [flatName], and holds no slash. *)
Theorem names_are_last_labels (src : table) (hier : list node) (rh : gmap string Z)
    (hierColumn : Z) (flat : bool) (srch : searchObj) (acts : list action) :
  Forall (fun row => m_name (rmeta row) = last_label (m_flatName (rmeta row)) /\
                     occurs "/" (m_name (rmeta row)) = false)
         (records (run acts (snd (new_HierarchyTable src hier rh hierColumn flat srch)))).
Proof.
  set (this := snd (new_HierarchyTable src hier rh hierColumn flat srch)).
  pose proof (fixed_part_run acts this) as Hfix.
  unfold fixed_part in Hfix. injection Hfix as _ _ Hrec _ _ _ _.
  pose proof (constructor_names src hier rh hierColumn flat srch) as Hnames.
  fold this in Hnames.
  assert (Forall (fun m => m_name m = last_label (m_flatName m))
                 (map (fun row => set__collapsed None (set__hidden true (rmeta row)))
                      (records this))) as H.
  { apply Forall_fmap. eapply Forall_impl; [exact Hnames|]. intros row Hn. exact Hn. }
  rewrite <- Hrec in H. apply Forall_fmap in H.
  eapply Forall_impl; [exact H|]. intros row Hn. simpl in Hn.
  split; [exact Hn|]. rewrite Hn. apply last_label_no_slash.
Qed.

(** ** The search object *)

Lemma classList_contains_toggle c l :
  classList_contains c (classList_toggle c l) = negb (classList_contains c l).
Proof.
  unfold classList_toggle. destruct (classList_contains c l) eqn:E.
  - rewrite classList_contains_remove, E, String.eqb_refl. reflexivity.
  - rewrite classList_contains_add, E, String.eqb_refl. reflexivity.
Qed.

(** X17.  The [searching] setter of the search object completes normally,
    leaves the flag at the assigned value and toggles the searching class of
    the table exactly when the value differs from the current flag: the class
    is flipped relative to what the table carried, not set from the value. *)
Theorem searching_setter_toggles (val : bool) (this : HierarchyTable) (s : searchObj) :
  search this = Some s ->
  exists this',
    set_searching val this = (Normal tt, this') /\
    s_searching <$> search this' = Some val /\
    classList_contains "reportal-hierarchy-searching" (t_classes (source this')) =
      xorb (classList_contains "reportal-hierarchy-searching" (t_classes (source this)))
           (xorb (s_searching s) val) /\
    data this' = data this /\ t_rows (source this') = t_rows (source this).
Proof.
  intros Hs. unfold set_searching, bind, get. rewrite Hs.
  destruct (Bool.eqb (s_searching s) val) eqn:E.
  - apply Bool.eqb_prop in E. subst val. exists this. split; [reflexivity|].
    rewrite Hs. simpl. rewrite xorb_nilpotent, xorb_false_r. auto.
  - apply Bool.eqb_false_iff in E. eexists. split; [reflexivity|]. simpl.
    rewrite classList_contains_toggle.
    split; [reflexivity|]. split; [|auto].
    destruct (s_searching s), val; try congruence; simpl;
      rewrite ?xorb_true_r; reflexivity.
Qed.

Lemma searching_setter_toggles_region :
  search Sample.region = Some default_search /\
  exists this',
    set_searching true Sample.region = (Normal tt, this') /\
    s_searching <$> search this' = Some true /\
    classList_contains "reportal-hierarchy-searching" (t_classes (source this')) =
      xorb (classList_contains "reportal-hierarchy-searching"
                               (t_classes (source Sample.region)))
           (xorb (s_searching default_search) true) /\
    data this' = data Sample.region /\
    t_rows (source this') = t_rows (source Sample.region).
Proof.
  assert (search Sample.region = Some default_search) as H by (vm_compute; reflexivity).
  split; [exact H|].
  exact (searching_setter_toggles true Sample.region default_search H).
Defined.

Lemma preserves_relabel_table (I : table -> option searchObj -> Prop) i :
  preserves (fun s => I (source s) (search s)) (relabel i).
Proof.
  intros this H.
  destruct (relabel_cases i this) as [->|(row & row' & _ & _ & ->)]; exact H.
Qed.

Lemma set_flat_table flat this :
  t_classes (source (snd (set_flat flat this))) =
    (if flat then classList_add "reportal-heirarchy-flat-view" (t_classes (source this))
     else classList_remove "reportal-heirarchy-flat-view" (t_classes (source this))) /\
  search (snd (set_flat flat this)) = search this.
Proof.
  unfold set_flat.
  rewrite (bind_Normal _ _ _ _ _ (eq_refl : modify (with_flat flat) this = _)).
  rewrite (bind_Normal _ _ _ _ _ (eq_refl : source_classList _ _ = _)).
  match goal with
  | |- t_classes (source (snd (bind ?m ?k ?s0))) = ?X /\ _ = ?Y =>
      apply (preserves_bind (fun st => t_classes (source st) = X /\ search st = Y) m k)
  end.
  - apply preserves_bind; [apply preserves_pure; reflexivity|intros s].
    destruct (data s); [|apply preserves_pure; reflexivity].
    apply preserves_forEach. intros i.
    apply (preserves_relabel_table (fun t o => t_classes t = _ /\ o = _)).
  - intros _ s H. exact H.
  - destruct flat; split; reflexivity.
Qed.

Lemma preserves_search_object v b a :
  preserves (fun s => search s = v /\
                      classList_contains "reportal-hierarchy-searching"
                                         (t_classes (source s)) = b)
            (perform a).
Proof.
  apply parts_perform.
  - intros i this H. exact H.
  - intros i val this H. exact H.
  - intros r c _ this H. exact H.
  - intros r c _ this H. exact H.
  - intros tg name this H. exact H.
  - intros flat this [Hs Hc]. destruct (set_flat_table flat this) as [-> ->].
    split; [exact Hs|]. rewrite <- Hc.
    destruct flat.
    + rewrite classList_contains_add. apply orb_false_r.
    + rewrite classList_contains_remove. apply andb_true_r.
Qed.

(** X18.  No action touches the search object or the searching class of the
    table: a search by [searchRowheaders], like a click or a mode switch,
    leaves [search.searching], [search.query] and the other fields of the
    search object, and whether the table carries
    [reportal-hierarchy-searching], as they were. *)
Theorem actions_leave_search_object (acts : list action) (this : HierarchyTable) :
  search (run acts this) = search this /\
  classList_contains "reportal-hierarchy-searching" (t_classes (source (run acts this))) =
  classList_contains "reportal-hierarchy-searching" (t_classes (source this)).
Proof.
  apply (preserves_run
           (fun s => search s = search this /\
                     classList_contains "reportal-hierarchy-searching"
                                        (t_classes (source s)) =
                     classList_contains "reportal-hierarchy-searching"
                                        (t_classes (source this)))).
  - intros a. apply preserves_search_object.
  - split; reflexivity.
Qed.

(** ** The classes of a row follow its [collapsed] flag *)

Section Setters.

Variable I : HierarchyTable -> Prop.
Hypothesis S_hidden : forall i val, preserves I (set_hidden i val).
Hypothesis S_collapsed : forall i val, preserves I (set_collapsed i val).
Hypothesis S_mark : forall r, preserves I (row_classList_add r "matched-search").
Hypothesis S_flat : forall flat, preserves I (set_flat flat).

Lemma setters_toggleChild i c : preserves I (toggleChild i c).
Proof using S_hidden S_collapsed.
  unfold toggleChild.
  apply preserves_bind; [apply preserves_pure, the_meta_pure|intros meta].
  apply preserves_if; [|apply S_hidden].
  apply preserves_bind; [apply S_hidden|intros _].
  apply preserves_bind; [apply preserves_pure, the_meta_pure|intros child].
  apply preserves_if; [|apply preserves_pure; reflexivity].
  apply preserves_bind; [apply S_collapsed|intros _].
  apply preserves_pure; reflexivity.
Qed.

Lemma setters_click i : preserves I (collapseButton_click i).
Proof using S_hidden S_collapsed.
  unfold collapseButton_click, toggleHiddenRows.
  apply preserves_bind; [apply preserves_pure, the_meta_pure|intros meta].
  apply preserves_bind; [apply S_collapsed|intros _].
  apply preserves_bind; [apply preserves_pure, the_meta_pure|intros meta'].
  apply preserves_if; [|apply preserves_pure; reflexivity].
  apply preserves_bind; [apply preserves_pure, the_data_pure|intros d].
  apply preserves_forEach. intros c. apply setters_toggleChild.
Qed.

Lemma setters_uncollapseParents fuel i : preserves I (uncollapseParents fuel i).
Proof using S_collapsed S_mark.
  revert i. induction fuel as [|fuel IH]; intros i; simpl.
  - apply preserves_pure; reflexivity.
  - apply preserves_bind; [apply preserves_pure, the_meta_pure|intros meta].
    apply preserves_if; [|apply preserves_pure; reflexivity].
    apply preserves_bind; [apply preserves_pure, the_data_pure|intros d].
    destruct (position _ _); [|apply preserves_pure; reflexivity].
    apply preserves_bind; [apply preserves_pure, the_meta_pure|intros parent].
    apply preserves_bind; [apply preserves_when, S_collapsed|intros _].
    apply preserves_bind; [apply S_mark|intros _; apply IH].
Qed.

Lemma setters_displayChildren fuel i : preserves I (displayChildren fuel i).
Proof using S_mark.
  revert i. induction fuel as [|fuel IH]; intros i; simpl.
  - apply preserves_pure; reflexivity.
  - apply preserves_bind; [apply preserves_pure, the_meta_pure|intros meta].
    apply preserves_if; [|apply preserves_pure; reflexivity].
    apply preserves_bind; [apply preserves_pure, the_data_pure|intros d].
    apply preserves_forEach. intros c.
    apply preserves_bind; [apply preserves_pure, the_meta_pure|intros cm].
    apply preserves_bind; [apply S_mark|intros _; apply IH].
Qed.

Lemma setters_search fuel str : preserves I (searchRowheaders fuel str).
Proof using S_collapsed S_mark.
  unfold searchRowheaders.
  apply preserves_if; [|apply preserves_pure; reflexivity].
  apply preserves_bind; [apply preserves_pure; reflexivity|intros this].
  apply preserves_bind; [apply preserves_pure, the_data_pure|intros d].
  apply preserves_forEach. intros i.
  apply preserves_bind; [apply preserves_pure, the_meta_pure|intros m].
  apply preserves_bind; [apply S_mark|intros _].
  apply preserves_bind; [apply setters_uncollapseParents|intros _].
  apply setters_displayChildren.
Qed.

Lemma setters_perform a : preserves I (perform a).
Proof using S_hidden S_collapsed S_mark S_flat.
  destruct a; simpl.
  - apply setters_click.
  - apply S_flat.
  - apply setters_search.
  - apply S_hidden.
  - apply S_collapsed.
Qed.

End Setters.

Lemma fixed_part_row_refs_eq s s' :
  fixed_part s' = fixed_part s -> row_refs s' = row_refs s.
Proof. apply fixed_part_row_refs. Qed.

Lemma collapse_marked_same s s' :
  map (fun row => (m_row (rmeta row), m_collapsed (rmeta row))) (records s') =
  map (fun row => (m_row (rmeta row), m_collapsed (rmeta row))) (records s) ->
  (forall r, marker "reportal-collapsed-row" s' r = marker "reportal-collapsed-row" s r) ->
  (forall r, marker "reportal-uncollapsed-row" s' r =
             marker "reportal-uncollapsed-row" s r) ->
  collapse_marked s' = collapse_marked s.
Proof.
  intros Hkeys Hc Hu. unfold collapse_marked.
  transitivity (forallb (fun p => collapse_class_ok s' (fst p) (snd p))
                        (map (fun row => (m_row (rmeta row), m_collapsed (rmeta row)))
                             (records s'))).
  { rewrite forallb_fmap. reflexivity. }
  rewrite Hkeys, forallb_fmap. apply forallb_pointwise. intros row. simpl.
  unfold collapse_class_ok. unfold marker in Hc, Hu. rewrite Hc, Hu. reflexivity.
Qed.

Lemma tidy_same s s' :
  fixed_part s' = fixed_part s ->
  map (fun row => m_collapsed (rmeta row)) (records s') =
  map (fun row => m_collapsed (rmeta row)) (records s) ->
  (forall r, marker "reportal-collapsed-row" s' r = marker "reportal-collapsed-row" s r) ->
  (forall r, marker "reportal-uncollapsed-row" s' r =
             marker "reportal-uncollapsed-row" s r) ->
  tidy s -> tidy s'.
Proof.
  intros Hfix Hcol Hc Hu (Hwb & Hnd & Hm).
  split; [rewrite (well_built_fixed s s' Hfix); exact Hwb|].
  pose proof (fixed_part_row_refs_eq s s' Hfix) as Hrefs.
  split; [rewrite Hrefs; exact Hnd|].
  rewrite <- Hm. apply collapse_marked_same; [|exact Hc|exact Hu].
  unfold row_refs in Hrefs.
  apply list_eq. intros j. rewrite !list_lookup_fmap.
  apply (f_equal (fun l => l !! j)) in Hrefs. apply (f_equal (fun l => l !! j)) in Hcol.
  rewrite !list_lookup_fmap in Hrefs. rewrite !list_lookup_fmap in Hcol.
  destruct (records s' !! j), (records s !! j); simpl in *; congruence.
Qed.

Lemma the_meta_cases {A} i (k : meta -> M A) this :
  (exists row, records this !! i = Some row /\ bind (the_meta i) k this = k (rmeta row) this) \/
  snd (bind (the_meta i) k this) = this.
Proof.
  destruct (records this !! i) as [row|] eqn:Hi.
  - left. exists row. split; [reflexivity|]. apply bind_Normal, the_meta_ok. exact Hi.
  - right. unfold bind, the_meta. unfold records in Hi.
    destruct (data this) as [d|]; [|reflexivity]. rewrite Hi. reflexivity.
Qed.

Lemma collapsed_list_record i f this :
  (forall row, m_collapsed (rmeta (f row)) = m_collapsed (rmeta row)) ->
  map (fun row => m_collapsed (rmeta row))
      (records (with_data (alter f i <$> data this) this)) =
  map (fun row => m_collapsed (rmeta row)) (records this).
Proof.
  intros Hf. unfold records. simpl. destruct (data this) as [d|]; [|reflexivity].
  simpl. apply map_alter_same. exact Hf.
Qed.

Lemma tidy_set_hidden i val : preserves tidy (set_hidden i val).
Proof.
  intros this H. unfold set_hidden.
  destruct (the_meta_cases i
              (fun m => update_record i (with_meta (set__hidden true)) ;;
                        (if val then row_classList_add (m_row m) "reportal-hidden-row"
                         else row_classList_remove (m_row m) "reportal-hidden-row")) this)
    as [(row & Hi & Hrun)|Hsame]; [rewrite Hrun|rewrite Hsame; exact H].
  apply (tidy_same this); [| | | |exact H].
  - destruct val; simpl; rewrite fixed_part_classes; apply fixed_part_record; reflexivity.
  - destruct val; simpl;
      apply (collapsed_list_record i (with_meta (set__hidden true))); reflexivity.
  - intros r. destruct val; simpl; rewrite ?marker_add, ?marker_remove; simpl;
      rewrite ?orb_false_r, ?andb_true_r; reflexivity.
  - intros r. destruct val; simpl; rewrite ?marker_add, ?marker_remove; simpl;
      rewrite ?orb_false_r, ?andb_true_r; reflexivity.
Qed.

Lemma tidy_mark r : preserves tidy (row_classList_add r "matched-search").
Proof.
  intros this H. apply (tidy_same this); [| | | |exact H].
  - simpl. apply fixed_part_classes.
  - reflexivity.
  - intros r'. simpl. rewrite marker_add. simpl. apply orb_false_r.
  - intros r'. simpl. rewrite marker_add. simpl. apply orb_false_r.
Qed.

Lemma collapsed_list_relabel v i :
  preserves (fun s => map (fun row => m_collapsed (rmeta row)) (records s) = v) (relabel i).
Proof.
  intros this H. destruct (relabel_cases i this) as [->|(row & row' & Hi & Hup & ->)];
    [exact H|].
  simpl. rewrite <- H. unfold records. simpl.
  apply records_lookup_data in Hi as (d & Hd & Hi). rewrite Hd. simpl.
  apply (map_alter_at _ _ _ _ row Hi).
  pose proof (f_equal fst Hup) as Hm. apply updateCategoryLabel_meta in Hm.
  rewrite Hm. reflexivity.
Qed.

Lemma tidy_set_flat flat : preserves tidy (set_flat flat).
Proof.
  intros this H. apply (tidy_same this); [| | | |exact H].
  - exact (preserves_fixed_perform (fixed_part this) (SetFlat flat) this eq_refl).
  - apply (preserves_set_flat_parts
             (fun s => map (fun row => m_collapsed (rmeta row)) (records s) =
                       map (fun row => m_collapsed (rmeta row)) (records this))).
    + intros f s Hs. exact Hs.
    + intros f s Hs. exact Hs.
    + intros i. apply collapsed_list_relabel.
    + intros tg name s Hs. exact Hs.
    + reflexivity.
  - intros r. apply marker_set_flat.
  - intros r. apply marker_set_flat.
Qed.

Lemma well_built_row this i row :
  well_built this = true -> records this !! i = Some row ->
  (m_row (rmeta row) <? length (t_rows (source this))) = true.
Proof.
  intros Hwb Hi. unfold well_built in Hwb. rewrite forallb_forall in Hwb.
  specialize (Hwb row (proj1 (list_elem_of_In _ _) (list_elem_of_lookup_2 _ _ _ Hi))).
  apply andb_prop in Hwb as [Hlt _]. exact Hlt.
Qed.

Lemma tidy_set_collapsed i val : preserves tidy (set_collapsed i val).
Proof.
  intros this H.
  pose proof (preserves_fixed_perform (fixed_part this) (SetCollapsed i val) this eq_refl)
    as Hfix. simpl in Hfix.
  destruct H as (Hwb & Hnd & Hm).
  split; [rewrite (well_built_fixed this _ Hfix); exact Hwb|].
  split; [rewrite (fixed_part_row_refs_eq this _ Hfix); exact Hnd|].
  clear Hfix. unfold set_collapsed.
  destruct (the_meta_cases i
              (fun m => update_record i (with_meta (set__collapsed (Some val))) ;;
                        (if val
                         then row_classList_add (m_row m) "reportal-collapsed-row" ;;
                              row_classList_remove (m_row m) "reportal-uncollapsed-row" ;;
                              dispatchEvent (OnRow (m_row m))
                                            "reportal-table-hierarchy-collapsed"
                         else row_classList_add (m_row m) "reportal-uncollapsed-row" ;;
                              row_classList_remove (m_row m) "reportal-collapsed-row" ;;
                              dispatchEvent (OnRow (m_row m))
                                            "reportal-table-hierarchy-uncollapsed")) this)
    as [(row & Hi & Hrun)|Hsame]; [rewrite Hrun|rewrite Hsame; exact Hm].
  pose proof (well_built_row this i row Hwb Hi) as Hlt.
  set (r := m_row (rmeta row)) in *.
  assert (forall c r',
            marker c (snd ((update_record i (with_meta (set__collapsed (Some val))) ;;
                            (if val
                             then row_classList_add r "reportal-collapsed-row" ;;
                                  row_classList_remove r "reportal-uncollapsed-row" ;;
                                  dispatchEvent (OnRow r) "reportal-table-hierarchy-collapsed"
                             else row_classList_add r "reportal-uncollapsed-row" ;;
                                  row_classList_remove r "reportal-collapsed-row" ;;
                                  dispatchEvent (OnRow r)
                                                "reportal-table-hierarchy-uncollapsed"))
                             this)) r' =
            if r' =? r
            then (marker c this r' ||
                  String.eqb c (if val then "reportal-collapsed-row"
                                else "reportal-uncollapsed-row")) &&
                 negb (String.eqb c (if val then "reportal-uncollapsed-row"
                                     else "reportal-collapsed-row"))
            else marker c this r') as Hmark.
  { intros c r'. destruct val; simpl; rewrite marker_events, marker_remove, marker_add;
      simpl; rewrite Hlt;
      match goal with
      | |- context [marker c ?s r'] =>
          change (marker c s r') with (marker c this r')
      end;
      destruct (r' =? r), (marker c this r'),
        (String.eqb c "reportal-collapsed-row"),
        (String.eqb c "reportal-uncollapsed-row"); reflexivity. }
  assert (records (snd ((update_record i (with_meta (set__collapsed (Some val))) ;;
                            (if val
                             then row_classList_add r "reportal-collapsed-row" ;;
                                  row_classList_remove r "reportal-uncollapsed-row" ;;
                                  dispatchEvent (OnRow r) "reportal-table-hierarchy-collapsed"
                             else row_classList_add r "reportal-uncollapsed-row" ;;
                                  row_classList_remove r "reportal-collapsed-row" ;;
                                  dispatchEvent (OnRow r)
                                                "reportal-table-hierarchy-uncollapsed"))
                             this)) =
          alter (with_meta (set__collapsed (Some val))) i (records this)) as Hrec.
  { apply records_lookup_data in Hi as (d & Hd & Hi).
    destruct val; unfold records; simpl; rewrite Hd; reflexivity. }
  unfold collapse_marked. rewrite Hrec. apply forallb_forall. intros row' Hin.
  apply list_elem_of_In, list_elem_of_lookup in Hin as [j Hj].
  unfold collapse_class_ok. fold (marker "reportal-collapsed-row").
  change (classList_contains "reportal-collapsed-row" (row_classes ?s ?x))
    with (marker "reportal-collapsed-row" s x).
  change (classList_contains "reportal-uncollapsed-row" (row_classes ?s ?x))
    with (marker "reportal-uncollapsed-row" s x).
  rewrite !Hmark.
  destruct (decide (j = i)) as [->|Hne].
  - rewrite list_lookup_alter_eq, Hi in Hj. injection Hj as <-. simpl.
    fold r. rewrite Nat.eqb_refl. destruct val; simpl;
      rewrite ?orb_true_r, ?andb_true_r, ?andb_false_r; reflexivity.
  - rewrite list_lookup_alter_ne in Hj by congruence.
    assert (m_row (rmeta row') <> r) as Hrow.
    { intros E. apply Hne. apply (NoDup_lookup (row_refs this) j i r).
      - apply NoDup_ListNoDup. exact Hnd.
      - unfold row_refs. rewrite list_lookup_fmap, Hj. simpl. rewrite E. reflexivity.
      - unfold row_refs. rewrite list_lookup_fmap, Hi. reflexivity. }
    apply Nat.eqb_neq in Hrow. rewrite Hrow.
    unfold collapse_marked in Hm. rewrite forallb_forall in Hm.
    apply (Hm row'). apply list_elem_of_In. eapply list_elem_of_lookup_2. exact Hj.
Qed.

Lemma tidy_perform a : preserves tidy (perform a).
Proof.
  apply setters_perform.
  - apply tidy_set_hidden.
  - apply tidy_set_collapsed.
  - apply tidy_mark.
  - apply tidy_set_flat.
Qed.

(** X19.  On a well built table whose rows of [data] refer to distinct table
    rows, the classes follow the [collapsed] flag through every sequence of
    actions, however each completes: if every row of [data] with [collapsed]
    at [true] has a table row with the collapsed class and without the
    uncollapsed class, and the converse for [false], then the same holds after
    the actions. *)
Theorem collapse_classes_follow_flag (acts : list action) (this : HierarchyTable) :
  well_built this = true ->
  List.NoDup (row_refs this) ->
  collapse_marked this = true ->
  collapse_marked (run acts this) = true.
Proof.
  intros Hwb Hnd Hm.
  apply (preserves_run tidy acts tidy_perform this). split; [exact Hwb|]. split; assumption.
Qed.

Lemma collapse_classes_follow_flag_area :
  well_built Sample.area = true /\
  List.NoDup (row_refs Sample.area) /\
  collapse_marked Sample.area = true /\
  collapse_marked (run [Click 0; Click 1; Click 0; Search 4 "port"; SetCollapsed 3 false]
                       Sample.area) = true.
Proof.
  assert (List.NoDup (row_refs Sample.area)) as Hnd.
  { vm_compute. repeat constructor; simpl; intuition discriminate. }
  split; [vm_compute; reflexivity|]. split; [exact Hnd|].
  split; [vm_compute; reflexivity|].
  apply (collapse_classes_follow_flag
           [Click 0; Click 1; Click 0; Search 4 "port"; SetCollapsed 3 false] Sample.area);
    [vm_compute; reflexivity|exact Hnd|vm_compute; reflexivity].
Defined.

(** ** What a search that completes has highlighted *)

Lemma search_step_fixed v fuel i :
  preserves (fun s => fixed_part s = v)
            (let* m := the_meta i in
             row_classList_add (m_row m) "matched-search" ;;
             uncollapseParents fuel i ;;
             displayChildren fuel i).
Proof.
  assert (forall r c, preserves (fun s => fixed_part s = v) (row_classList_add r c)) as Hadd.
  { intros r c this H. simpl. rewrite fixed_part_classes. exact H. }
  assert (forall r c, preserves (fun s => fixed_part s = v) (row_classList_remove r c))
    as Hrem.
  { intros r c this H. simpl. rewrite fixed_part_classes. exact H. }
  apply preserves_bind; [apply preserves_pure, the_meta_pure|intros m].
  apply preserves_bind; [apply Hadd|intros _].
  apply preserves_bind; [|intros _].
  - apply parts_uncollapseParents; auto.
    + intros j val this H. simpl. rewrite fixed_part_record; [exact H|reflexivity].
    + intros tg name this H. exact H.
  - apply parts_displayChildren; auto.
Qed.

Lemma search_step_kept r fuel i :
  preserves (fun s => marker "matched-search" s r = true)
            (let* m := the_meta i in
             row_classList_add (m_row m) "matched-search" ;;
             uncollapseParents fuel i ;;
             displayChildren fuel i).
Proof.
  assert (forall r' c, preserves (fun s => marker "matched-search" s r = true)
                                 (row_classList_add r' c)) as Hadd.
  { intros r' c this H. simpl. rewrite marker_add, H. reflexivity. }
  assert (forall r' c, In c row_classes_unset ->
            preserves (fun s => marker "matched-search" s r = true)
                      (row_classList_remove r' c)) as Hrem.
  { intros r' c Hin this H. simpl. rewrite marker_remove, H.
    unfold row_classes_unset in Hin. simpl in Hin.
    destruct Hin as [<-|[<-|[<-|[]]]]; reflexivity. }
  apply preserves_bind; [apply preserves_pure, the_meta_pure|intros m].
  apply preserves_bind; [apply Hadd|intros _].
  apply preserves_bind; [|intros _].
  - apply parts_uncollapseParents; auto.
    + intros j val this H. exact H.
    + intros tg name this H. exact H.
  - apply parts_displayChildren; auto.
Qed.

Lemma fixed_part_lookup s s' i row :
  fixed_part s' = fixed_part s -> records s !! i = Some row ->
  exists row', records s' !! i = Some row' /\ m_row (rmeta row') = m_row (rmeta row).
Proof.
  intros Hfix Hi. apply fixed_part_row_refs in Hfix.
  apply (f_equal (fun l => l !! i)) in Hfix. rewrite !list_lookup_fmap, Hi in Hfix.
  destruct (records s' !! i) as [row'|]; [|discriminate].
  exists row'. split; [reflexivity|]. simpl in Hfix. congruence.
Qed.

Lemma search_step_marks fuel i this row :
  records this !! i = Some row ->
  (m_row (rmeta row) <? length (t_rows (source this))) = true ->
  marker "matched-search"
         (snd ((let* m := the_meta i in
                row_classList_add (m_row m) "matched-search" ;;
                uncollapseParents fuel i ;;
                displayChildren fuel i) this))
         (m_row (rmeta row)) = true.
Proof.
  intros Hi Hlt. rewrite (bind_Normal _ _ _ _ _ (the_meta_ok _ _ _ Hi)).
  rewrite (bind_Normal _ _ _ _ _
             (eq_refl : row_classList_add (m_row (rmeta row)) "matched-search" this = _)).
  assert (preserves (fun s => marker "matched-search" s (m_row (rmeta row)) = true)
                    (uncollapseParents fuel i ;; displayChildren fuel i)) as Hkeep.
  { assert (forall r' c, preserves (fun s => marker "matched-search" s (m_row (rmeta row)) = true)
                                   (row_classList_add r' c)) as Hadd.
    { intros r' c s H. simpl. rewrite marker_add, H. reflexivity. }
    assert (forall r' c, In c row_classes_unset ->
              preserves (fun s => marker "matched-search" s (m_row (rmeta row)) = true)
                        (row_classList_remove r' c)) as Hrem.
    { intros r' c Hin s H. simpl. rewrite marker_remove, H.
      unfold row_classes_unset in Hin. simpl in Hin.
      destruct Hin as [<-|[<-|[<-|[]]]]; reflexivity. }
    apply preserves_bind; [|intros _].
    - apply parts_uncollapseParents; auto.
      + intros j val s H. exact H.
      + intros tg name s H. exact H.
    - apply parts_displayChildren; auto. }
  apply Hkeep. rewrite marker_add, Nat.eqb_refl, Hlt. simpl. apply orb_true_r.
Qed.

Lemma search_loop fuel l :
  forall s s',
    well_built s = true ->
    forEach (fun i => let* m := the_meta i in
                      row_classList_add (m_row m) "matched-search" ;;
                      uncollapseParents fuel i ;;
                      displayChildren fuel i) l s = (Normal tt, s') ->
    forall i row, In i l -> records s !! i = Some row ->
                  marker "matched-search" s' (m_row (rmeta row)) = true.
Proof.
  induction l as [|i0 l IH]; intros s s' Hwb Hrun i row Hin Hi; [destruct Hin|].
  simpl forEach in Hrun. apply bind_Normal_run in Hrun as ([] & s1 & Hstep & Hrest).
  pose proof (search_step_fixed (fixed_part s) fuel i0 s eq_refl) as Hfix.
  rewrite Hstep in Hfix. simpl in Hfix.
  destruct Hin as [->|Hin].
  - pose proof (search_step_marks fuel i s row Hi (well_built_row s i row Hwb Hi)) as Hmark.
    rewrite Hstep in Hmark. simpl in Hmark.
    pose proof (preserves_forEach
                  (fun st => marker "matched-search" st (m_row (rmeta row)) = true)
                  _ l (search_step_kept (m_row (rmeta row)) fuel) s1 Hmark) as Hkeep.
    rewrite Hrest in Hkeep. exact Hkeep.
  - destruct (fixed_part_lookup s s1 i row Hfix Hi) as (row1 & Hi1 & <-).
    apply (IH s1 s' (eq_trans (well_built_fixed s s1 Hfix) Hwb) Hrest i row1 Hin Hi1).
Qed.

(** X20.  On a well built table, when a search completes normally every row
    that matches the search string carries the highlight class afterwards. *)
Theorem search_highlights_matches (fuel : nat) (str : string)
    (this this' : HierarchyTable) (i : nat) (row : record) :
  well_built this = true ->
  searchRowheaders fuel str this = (Normal tt, this') ->
  In i (matched_rows this str (records this)) ->
  records this !! i = Some row ->
  highlighted this' (m_row (rmeta row)) = true.
Proof.
  intros Hwb Hrun Hin Hi. unfold searchRowheaders in Hrun.
  destruct (literal_pattern str); [|discriminate].
  apply bind_Normal_run in Hrun as (s0 & s & Hget & Hrun). injection Hget as <- <-.
  rewrite (bind_Normal _ _ _ _ _ (the_data_ok _ _ _ Hi)) in Hrun.
  exact (search_loop fuel _ this this' Hwb Hrun i row Hin Hi).
Qed.

Lemma search_highlights_matches_area :
  highlighted (snd (searchRowheaders 4 "port" Sample.area)) 2 = true.
Proof.
  apply (search_highlights_matches 4 "port" Sample.area
           (snd (searchRowheaders 4 "port" Sample.area)) 2
           (Rec [VString "Port"; VScalar "3"]
                (Meta 2 "C" "Area/East/Port" "Port" "B" 2 false true None)));
    vm_compute; first [reflexivity | left; reflexivity].
Defined.

(** ** Edge cases of the construction *)

(** X21.  With an empty forest nothing is built, whatever the table and
    the configuration: [data] is assigned the empty array and no row is
    written or moved.  On a table with a [tbody] construction completes and
    the body only loses a leading text node; on a table without one it fails
    with a TypeError, after the assignment to [data]. *)
Theorem empty_forest_builds_nothing (src : table) (rh : gmap string Z) (hierColumn : Z)
    (flat : bool) (srch : searchObj) :
  exists this',
    new_HierarchyTable src [] rh hierColumn flat srch =
      (match t_body src with Some _ => Normal tt | None => Throw TypeError end, this') /\
    data this' = Some [] /\
    t_rows (source this') = t_rows src /\
    t_body (source this') = drop_text <$> t_body src.
Proof.
  rewrite constructor_run. simpl parseHierarchy. unfold ret.
  change (t_body (source (started src [] rh hierColumn flat srch))) with (t_body src).
  destruct (t_body src) as [b|] eqn:Hb.
  - eexists. split; [reflexivity|]. simpl. rewrite Hb. auto.
  - eexists. split; [reflexivity|]. simpl. rewrite Hb. auto.
Qed.

Lemma filter_same {A} (p : A -> bool) (l : list A) :
  List.filter p (List.filter p l) = List.filter p l.
Proof.
  induction l as [|x l IH]; simpl; [reflexivity|].
  destruct (p x) eqn:E; simpl; rewrite ?E, IH; reflexivity.
Qed.

Lemma filter_other_than_rows rs : List.filter (other_than rs) (map BRow rs) = [].
Proof.
  assert (forall l, (forall r, In r l -> In r rs) ->
                    List.filter (other_than rs) (map BRow l) = []) as H.
  { induction l as [|r l IH]; intros Hl; [reflexivity|]. simpl.
    assert (existsb (Nat.eqb r) rs = true) as ->.
    { apply existsb_exists. exists r. split; [apply Hl; left; reflexivity|apply Nat.eqb_refl]. }
    simpl. apply IH. intros r' Hr'. apply Hl. right. exact Hr'. }
  apply H. auto.
Qed.

Lemma init_settled this d b :
  data this = Some d ->
  List.NoDup (map (fun row => m_row (rmeta row)) d) ->
  t_body (source this) =
    Some (List.filter (other_than (map (fun row => m_row (rmeta row)) d)) b ++
          map BRow (map (fun row => m_row (rmeta row)) d)) ->
  t_body (source this) ≫= head <> Some BText ->
  init this = (Normal tt, this).
Proof.
  intros Hd Hnd Hbody Hhead. unfold init.
  rewrite (bind_Normal _ _ _ _ _ (eq_refl : get this = (Normal this, this))).
  rewrite Hd.
  rewrite (bind_Normal _ _ _ _ _ (eq_refl : ret d this = (Normal d, this))).
  rewrite init_tail. rewrite Hbody. f_equal.
  destruct this as [[cls rows body ev] h rh dat col fl se]. simpl in *. subst dat body.
  unfold with_source, with_data. simpl. f_equal. f_equal. f_equal.
  set (l := List.filter (other_than (map (fun row => m_row (rmeta row)) d)) b ++
            map BRow (map (fun row => m_row (rmeta row)) d)) in *.
  assert (drop_text l = l) as ->.
  { destruct l as [|[|r] l]; try reflexivity. exfalso. apply Hhead. reflexivity. }
  rewrite (append_rows_NoDup _ _ Hnd). subst l.
  rewrite List.filter_app, filter_same, filter_other_than_rows, app_nil_r. reflexivity.
Qed.

(** X22.  Calling [init] again on a table whose construction completed, whose
    rows of [data] refer to distinct table rows and whose body does not start
    with a text node, changes nothing: the traversal is not run again, and
    appending the rows in the order of [data] leaves the body as it is. *)
Theorem init_again_changes_nothing (src : table) (hier : list node) (rh : gmap string Z)
    (hierColumn : Z) (flat : bool) (srch : searchObj) (this' : HierarchyTable) :
  new_HierarchyTable src hier rh hierColumn flat srch = (Normal tt, this') ->
  List.NoDup (row_refs this') ->
  t_body (source this') ≫= head <> Some BText ->
  init this' = (Normal tt, this').
Proof.
  intros H Hnd Hhead.
  destruct (constructor_Normal_body _ _ _ _ _ _ _ H) as [b Hb].
  destruct (constructor_Normal _ _ _ _ _ _ _ H) as (d & s & Hparse & ->).
  unfold row_refs, records in Hnd. simpl in Hnd.
  pose proof (traversal_outside hier (started src hier rh hierColumn flat srch)) as Hout.
  rewrite Hparse in Hout. unfold outside_rows in Hout. simpl in Hout.
  injection Hout as _ _ _ _ _ _ _ Hbs _ _.
  apply (init_settled _ d (drop_text b)); [reflexivity|exact Hnd| |exact Hhead].
  simpl. rewrite Hbs, Hb. simpl. f_equal. apply append_rows_NoDup. exact Hnd.
Qed.

Lemma init_again_changes_nothing_area :
  init Sample.area = (Normal tt, Sample.area).
Proof.
  apply (init_again_changes_nothing Sample.area_table Sample.area_forest Sample.area_index 0
           false default_search).
  - vm_compute. reflexivity.
  - vm_compute. repeat constructor; simpl; intuition discriminate.
  - vm_compute. discriminate.
Defined.

(** ** A walk up the parents that never ends *)

Lemma parent_step_skeleton d d' j :
  skeleton d' = skeleton d -> parent_step d' j = parent_step d j.
Proof.
  intros H. unfold parent_step.
  destruct (d !! j) as [row|] eqn:Hj.
  - destruct (skeleton_lookup _ _ _ _ H Hj) as (row' & -> & Hrow).
    apply unflagged_fields in Hrow as (_ & -> & _).
    destruct (0 <? String.length (m_parent (rmeta row))); [|reflexivity].
    unfold position. rewrite (positions_skeleton _ d d'); auto.
    intros x y Hxy. apply unflagged_fields in Hxy as (-> & _). reflexivity.
  - destruct (d' !! j) as [row'|] eqn:Hj'; [|reflexivity].
    symmetry in H. destruct (skeleton_lookup _ _ _ _ H Hj') as (? & ? & _). congruence.
Qed.

Lemma closed_under_parents_skeleton d d' cyc :
  skeleton d' = skeleton d -> closed_under_parents d' cyc = closed_under_parents d cyc.
Proof.
  intros H. unfold closed_under_parents. apply forallb_pointwise. intros j.
  rewrite (parent_step_skeleton d d' j H). reflexivity.
Qed.

(** X23.  When the parent ids lead in a circle -- from every row of a list
    the walk up the parents goes to a row of the list -- the walk from any row
    of the list never returns: whatever the depth allowed, it is still going
    up when the depth is used up. *)
Theorem parent_cycle_never_returns (cyc : list nat) (fuel : nat) :
  forall (this : HierarchyTable) (i : nat),
    closed_under_parents (records this) cyc = true ->
    In i cyc ->
    fst (uncollapseParents fuel i this) = Beyond OutOfFuel.
Proof.
  induction fuel as [|fuel IH]; intros this i Hclosed Hin; [reflexivity|].
  pose proof Hclosed as Hall. unfold closed_under_parents in Hall.
  rewrite forallb_forall in Hall. specialize (Hall i Hin).
  unfold parent_step in Hall.
  destruct (records this !! i) as [row|] eqn:Hi; [|discriminate].
  destruct (0 <? String.length (m_parent (rmeta row))) eqn:Hparent; [|discriminate].
  destruct (position _ (records this)) as [p|] eqn:Hpos; [|discriminate].
  apply existsb_exists in Hall as (p' & Hp' & Heq). apply Nat.eqb_eq in Heq. subst p'.
  simpl uncollapseParents.
  rewrite (bind_Normal _ _ _ _ _ (the_meta_ok _ _ _ Hi)), Hparent.
  rewrite (bind_Normal _ _ _ _ _ (the_data_ok _ _ _ Hi)), Hpos.
  destruct (position_Some _ _ _ Hpos) as (parent & Hp & _).
  rewrite (bind_Normal _ _ _ _ _ (the_meta_ok _ _ _ Hp)).
  destruct (uncollapse_one this p parent Hp) as (s1 & Hrun1 & Hsk1 & _).
  rewrite (bind_Normal _ _ _ _ _ Hrun1).
  destruct (highlight_spec (m_row (rmeta parent)) s1) as (s2 & Hrun2 & Hdata2 & _).
  rewrite (bind_Normal _ _ _ _ _ Hrun2).
  apply IH; [|exact Hp'].
  assert (records s2 = records s1) as -> by (unfold records; rewrite Hdata2; reflexivity).
  rewrite (closed_under_parents_skeleton _ _ _ Hsk1). exact Hclosed.
Qed.

Lemma parent_cycle_never_returns_looped :
  fst (uncollapseParents 50 0 looped) = Beyond OutOfFuel.
Proof.
  apply (parent_cycle_never_returns [0] 50 looped 0).
  - vm_compute. reflexivity.
  - left. reflexivity.
Defined.

(** * SignificantChangesAlerts *)

Lemma bind_run {S A B} (m : JS S A) (k : A -> JS S B) s a s' :
  m s = (Normal a, s') -> bind m k s = k a s'.
Proof. unfold bind. intros ->. reflexivity. Qed.

Lemma bind_stop {S A B} (m : JS S A) (k : A -> JS S B) s e s' :
  m s = (Throw e, s') -> bind m k s = (Throw e, s').
Proof. unfold bind. intros ->. reflexivity. Qed.

Lemma last_nonempty {A} (l : list A) x : last l = Some x -> exists y, head l = Some y.
Proof. destruct l as [|y l]; [discriminate|]. eauto. Qed.

Lemma markedCells_last t p :
  In p (Alerts.markedCells t) -> last (fst p) = Some (snd p).
Proof.
  unfold Alerts.markedCells. intros H.
  apply in_flat_map in H as (s & _ & H). apply in_flat_map in H as (row & _ & H).
  destruct (last row) as [c|] eqn:E; [|destruct H].
  destruct (Alerts.selected _ c); [|destruct H].
  destruct H as [<-|[]]. exact E.
Qed.

Lemma getData_loop (l : list (list Alerts.acell * Alerts.acell)) :
  (forall p, In p l -> exists first, head (fst p) = Some first) ->
  forall s,
    forEach (fun p : list Alerts.acell * Alerts.acell =>
               match head (fst p) with
               | None => throw TypeError
               | Some first =>
                   modify (fun this =>
                     Alerts.Widget (Alerts.w_table this) (Alerts.w_container this)
                       (Alerts.w_alerts this ++
                        [Alerts.Alert (Alerts.category_text (Alerts.a_innerText first))
                                      (Alerts.changes_text (Alerts.a_classes (snd p)))
                                      (Alerts.a_firstElementChild first)]))
               end) l s =
    (Normal tt,
     Alerts.Widget (Alerts.w_table s) (Alerts.w_container s)
                   (Alerts.w_alerts s ++ flat_map Alerts.alert_of l)).
Proof.
  induction l as [|p l IH]; intros Hl s.
  - simpl. rewrite app_nil_r. destruct s. reflexivity.
  - destruct (Hl p (or_introl eq_refl)) as [first Hfirst].
    simpl forEach. unfold bind at 1. rewrite Hfirst. simpl.
    rewrite IH by (intros q Hq; apply Hl; right; exact Hq). simpl.
    unfold Alerts.alert_of at 2. rewrite Hfirst. rewrite <- app_assoc. reflexivity.
Qed.

Lemma getDataFromTable_run t k al :
  Alerts.getDataFromTable (Alerts.Widget (Some t) k al) =
  (Normal tt, Alerts.Widget (Some t) k (al ++ Alerts.alerts_of t)).
Proof.
  unfold Alerts.getDataFromTable. unfold bind at 1. unfold get.
  cbn -[forEach Alerts.markedCells Alerts.alerts_of].
  rewrite getData_loop; [reflexivity|].
  intros p Hp. apply (last_nonempty _ (snd p)). apply (markedCells_last t). exact Hp.
Qed.

Lemma alerts_of_length t : length (Alerts.alerts_of t) = length (Alerts.markedCells t).
Proof.
  unfold Alerts.alerts_of.
  assert (forall l, (forall p, In p l -> exists first, head (fst p) = Some first) ->
                    length (flat_map Alerts.alert_of l) = length l) as H.
  { induction l as [|p l IH]; intros Hl; [reflexivity|].
    destruct (Hl p (or_introl eq_refl)) as [first Hfirst].
    simpl. unfold Alerts.alert_of at 1. rewrite Hfirst. simpl. f_equal.
    apply IH. intros q Hq. apply Hl. right. exact Hq. }
  apply H. intros p Hp. apply (last_nonempty _ (snd p)). apply (markedCells_last t). exact Hp.
Qed.

Lemma append_assoc (a b c : string) : (a +:+ b) +:+ c = a +:+ (b +:+ c).
Proof.
  induction a as [|x a IH]; [reflexivity|].
  change (String x ((a +:+ b) +:+ c) = String x (a +:+ (b +:+ c))).
  rewrite IH. reflexivity.
Qed.

Lemma append_empty (a : string) : a +:+ EmptyString = a.
Proof.
  induction a as [|x a IH]; [reflexivity|].
  change (String x (a +:+ EmptyString) = String x a). rewrite IH. reflexivity.
Qed.

Lemma createCards_loop (al : list Alerts.alert) :
  forall t b al0,
    forEach (fun alertItem =>
               let* this := get in
               match Alerts.w_container this with
               | None => throw TypeError
               | Some k =>
                   modify (fun this =>
                     Alerts.Widget (Alerts.w_table this)
                       (Some (Alerts.Box (Alerts.className k +:+ " alerts-content")
                                         (Alerts.cards k ++ [Alerts.card_of alertItem])))
                       (Alerts.w_alerts this))
               end) al (Alerts.Widget t (Some b) al0) =
    (Normal tt,
     Alerts.Widget t
       (Some (Alerts.Box (Alerts.className b +:+
                          Alerts.repeated (length al) " alerts-content")
                         (Alerts.cards b ++ map Alerts.card_of al)))
       al0).
Proof.
  induction al as [|a al IH]; intros t b al0.
  - simpl. rewrite append_empty, app_nil_r. destruct b. reflexivity.
  - simpl forEach. unfold bind at 1. unfold bind at 1. simpl.
    rewrite IH. simpl. rewrite append_assoc, <- app_assoc. reflexivity.
Qed.

Lemma createCards_run t b al :
  Alerts.createCards (Alerts.Widget t (Some b) al) =
  (Normal tt,
   Alerts.Widget t
     (Some (Alerts.Box (Alerts.className b +:+
                        Alerts.repeated (length al) " alerts-content")
                       (Alerts.cards b ++ map Alerts.card_of al)))
     al).
Proof.
  unfold Alerts.createCards. unfold bind at 1. unfold get.
  cbn -[forEach Alerts.repeated].
  apply createCards_loop.
Qed.

Lemma reduce_max_spec h n :
  match Alerts.reduce_max h n with
  | None => n = 0
  | Some m => m < n /\ forall i, i < n -> h i <= h m
  end.
Proof.
  unfold Alerts.reduce_max. destruct n as [|n]; [reflexivity|].
  simpl seq.
  assert (forall k first,
            first < 1 + k /\ (forall i, i < 1 + k -> h i <= h first) ->
            forall len,
              let m := fold_left (fun res cur => if h res <? h cur then cur else res)
                                 (seq (1 + k) len) first in
              m < 1 + k + len /\ forall i, i < 1 + k + len -> h i <= h m) as Hloop.
  { intros k first H len. revert k first H.
    induction len as [|len IH]; intros k first [Hlt Hmax]; simpl.
    - split; [lia|]. intros i Hi. apply Hmax. lia.
    - destruct (Nat.ltb_spec (h first) (h (S k))) as [Hlt'|Hge].
      + destruct (IH (S k) (S k)) as [H1 H2].
        { split; [lia|]. intros i Hi.
          destruct (decide (i = S k)) as [->|Hne]; [lia|].
          specialize (Hmax i). simpl in Hmax. lia. }
        simpl in H1, H2. split; [lia|]. intros i Hi. apply H2. lia.
      + destruct (IH (S k) first) as [H1 H2].
        { split; [lia|]. intros i Hi.
          destruct (decide (i = S k)) as [->|Hne]; [lia|].
          apply Hmax. simpl. lia. }
        simpl in H1, H2. split; [lia|]. intros i Hi. apply H2. lia. }
  destruct (Hloop 0 0) with (len := n) as [H1 H2].
  { split; [lia|]. intros i Hi. replace i with 0 by lia. lia. }
  simpl in H1, H2. split; [lia|]. intros i Hi. apply H2. lia.
Qed.

Lemma new_alerts_run t b hcat hchg :
  let cs := Alerts.cards b ++ map Alerts.card_of (Alerts.alerts_of t) in
  let cls := Alerts.className b +:+
             Alerts.repeated (length (Alerts.alerts_of t)) " alerts-content" in
  Alerts.new_SignificantChangesAlerts (Some t) (Some b) hcat hchg =
  match Alerts.reduce_max hcat (length cs), Alerts.reduce_max hchg (length cs) with
  | Some m, Some m' =>
      (Normal tt,
       Alerts.Widget (Some t)
         (Some (Alerts.Box cls
                  (map (Alerts.set_changes_height (pretty (hchg m') +:+ "px"))
                       (map (Alerts.set_category_height (pretty (hcat m) +:+ "px")) cs))))
         (Alerts.alerts_of t))
  | _, _ =>
      (Throw TypeError,
       Alerts.Widget (Some t) (Some (Alerts.Box cls cs)) (Alerts.alerts_of t))
  end.
Proof.
  intros cs cls. unfold Alerts.new_SignificantChangesAlerts.
  rewrite (bind_run _ _ _ _ _ (getDataFromTable_run t (Some b) [])).
  rewrite app_nil_l.
  rewrite (bind_run _ _ _ _ _ (createCards_run (Some t) b (Alerts.alerts_of t))).
  fold cs cls. unfold Alerts.setCardsHeight. unfold bind at 1. unfold get.
  cbn [Alerts.w_container Alerts.cards Alerts.className].
  pose proof (reduce_max_spec hcat (length cs)) as H1.
  pose proof (reduce_max_spec hchg (length cs)) as H2.
  destruct (Alerts.reduce_max hcat (length cs)) as [m|].
  - unfold bind at 1, modify. cbn [Alerts.w_table Alerts.w_alerts Alerts.cards
                                     Alerts.className].
    rewrite length_map.
    destruct (Alerts.reduce_max hchg (length cs)) as [m'|]; [reflexivity|].
    destruct H1 as [H1 _]. lia.
  - destruct (Alerts.reduce_max hchg (length cs)); reflexivity.
Qed.

(** X24.  On a table without a marked cell and a container without cards (or
    no container), the constructor fails with a TypeError: no card is made,
    and the heights are then computed by a [reduce] without initial value on
    an empty array. *)
Theorem alerts_without_marks_TypeError (t : list Alerts.asection) (k : option Alerts.box)
    (hcat hchg : nat -> nat) :
  Alerts.markedCells t = [] ->
  match k with Some b => Alerts.cards b = [] | None => True end ->
  Alerts.new_SignificantChangesAlerts (Some t) k hcat hchg =
  (Throw TypeError, Alerts.Widget (Some t) k []).
Proof.
  intros Hmarks Hk.
  assert (Alerts.alerts_of t = []) as Hal by (unfold Alerts.alerts_of; rewrite Hmarks; reflexivity).
  destruct k as [b|].
  - pose proof (new_alerts_run t b hcat hchg) as Hrun. cbv zeta in Hrun.
    rewrite Hal, Hk in Hrun. simpl in Hrun. rewrite append_empty in Hrun.
    rewrite Hrun. destruct b as [cls cs]. simpl in Hk. subst cs. reflexivity.
  - unfold Alerts.new_SignificantChangesAlerts.
    rewrite (bind_run _ _ _ _ _ (getDataFromTable_run t None [])).
    rewrite app_nil_l, Hal. reflexivity.
Qed.

Lemma alerts_without_marks_TypeError_plain :
  Alerts.new_SignificantChangesAlerts
    (Some [Alerts.ASection true
             [[Alerts.ACell true [] "Area | East" (Some 1);
               Alerts.ACell true ["plain"] "3" None]]])
    (Some (Alerts.Box "alerts" [])) (fun _ => 20) (fun _ => 30) =
  (Throw TypeError,
   Alerts.Widget
     (Some [Alerts.ASection true
              [[Alerts.ACell true [] "Area | East" (Some 1);
                Alerts.ACell true ["plain"] "3" None]]])
     (Some (Alerts.Box "alerts" [])) []).
Proof.
  apply (alerts_without_marks_TypeError
           [Alerts.ASection true
              [[Alerts.ACell true [] "Area | East" (Some 1);
                Alerts.ACell true ["plain"] "3" None]]]
           (Some (Alerts.Box "alerts" [])) (fun _ => 20) (fun _ => 30));
    reflexivity.
Defined.

(** X25.  With a table and a container that together give at least one card,
    the constructor completes: one alert is pushed and one card appended for
    every marked cell, in document order, after the cards the container had;
    the class name of the container gets [ alerts-content] appended once per
    alert. *)
Theorem one_card_per_marked_cell (t : list Alerts.asection) (b : Alerts.box)
    (hcat hchg : nat -> nat) :
  0 < length (Alerts.cards b) + length (Alerts.markedCells t) ->
  exists b',
    Alerts.new_SignificantChangesAlerts (Some t) (Some b) hcat hchg =
      (Normal tt, Alerts.Widget (Some t) (Some b') (Alerts.alerts_of t)) /\
    length (Alerts.alerts_of t) = length (Alerts.markedCells t) /\
    Alerts.className b' =
      Alerts.className b +:+
      Alerts.repeated (length (Alerts.markedCells t)) " alerts-content" /\
    map Alerts.card_content (Alerts.cards b') =
      map Alerts.card_content (Alerts.cards b) ++
      map (fun a => (Alerts.categoryText a, Alerts.changesText a, Alerts.drilldownRef a))
          (Alerts.alerts_of t).
Proof.
  intros Hn. pose proof (new_alerts_run t b hcat hchg) as Hrun. cbv zeta in Hrun.
  pose proof (alerts_of_length t) as Hlen.
  pose proof (reduce_max_spec hcat
                (length (Alerts.cards b ++ map Alerts.card_of (Alerts.alerts_of t)))) as H1.
  pose proof (reduce_max_spec hchg
                (length (Alerts.cards b ++ map Alerts.card_of (Alerts.alerts_of t)))) as H2.
  rewrite length_app, length_map, Hlen in H1, H2.
  rewrite length_app, length_map, Hlen in Hrun.
  destruct (Alerts.reduce_max hcat _) as [m|]; [|lia].
  destruct (Alerts.reduce_max hchg _) as [m'|]; [|lia].
  eexists. split; [exact Hrun|]. split; [exact Hlen|]. split; [reflexivity|].
  cbn [Alerts.cards]. rewrite !map_map. rewrite map_app, map_map. reflexivity.
Qed.

Lemma one_card_per_marked_cell_sample :
  exists b',
    Alerts.new_SignificantChangesAlerts
      (Some [Alerts.ASection true
               [[Alerts.ACell true [] "Area | East" (Some 1);
                 Alerts.ACell true ["decreasingS"; "increasingC"] "3" None]]])
      (Some (Alerts.Box "alerts" [])) (fun _ => 20) (fun _ => 30) =
      (Normal tt,
       Alerts.Widget
         (Some [Alerts.ASection true
                  [[Alerts.ACell true [] "Area | East" (Some 1);
                    Alerts.ACell true ["decreasingS"; "increasingC"] "3" None]]])
         (Some b')
         (Alerts.alerts_of
            [Alerts.ASection true
               [[Alerts.ACell true [] "Area | East" (Some 1);
                 Alerts.ACell true ["decreasingS"; "increasingC"] "3" None]]])) /\
    Alerts.className b' = "alerts alerts-content".
Proof.
  destruct (one_card_per_marked_cell
              [Alerts.ASection true
                 [[Alerts.ACell true [] "Area | East" (Some 1);
                   Alerts.ACell true ["decreasingS"; "increasingC"] "3" None]]]
              (Alerts.Box "alerts" []) (fun _ => 20) (fun _ => 30))
    as (b' & Hrun & _ & Hcls & _).
  - simpl. lia.
  - exists b'. split; [exact Hrun|exact Hcls].
Defined.

(** X26.  When the constructor completes, every card of the container has
    the same height on its category part and the same height on its changes
    part: the largest [clientHeight] among the category parts, and among the
    changes parts, followed by [px]. *)
Theorem cards_get_largest_height (t : list Alerts.asection) (b : Alerts.box)
    (hcat hchg : nat -> nat) (w : Alerts.widget) :
  Alerts.new_SignificantChangesAlerts (Some t) (Some b) hcat hchg = (Normal tt, w) ->
  exists b' m m',
    Alerts.w_container w = Some b' /\
    m < length (Alerts.cards b') /\ m' < length (Alerts.cards b') /\
    (forall i, i < length (Alerts.cards b') -> hcat i <= hcat m /\ hchg i <= hchg m') /\
    Forall (fun c => Alerts.category_height c = Some (pretty (hcat m) +:+ "px") /\
                     Alerts.changes_height c = Some (pretty (hchg m') +:+ "px"))
           (Alerts.cards b').
Proof.
  intros Hrun. rewrite (new_alerts_run t b hcat hchg) in Hrun. cbv zeta in Hrun.
  pose proof (reduce_max_spec hcat
                (length (Alerts.cards b ++ map Alerts.card_of (Alerts.alerts_of t)))) as H1.
  pose proof (reduce_max_spec hchg
                (length (Alerts.cards b ++ map Alerts.card_of (Alerts.alerts_of t)))) as H2.
  destruct (Alerts.reduce_max hcat _) as [m|]; [|discriminate].
  destruct (Alerts.reduce_max hchg _) as [m'|]; [|discriminate].
  injection Hrun as <-. destruct H1 as [H1 H1'], H2 as [H2 H2'].
  eexists _, m, m'. split; [reflexivity|]. cbn [Alerts.cards].
  rewrite !length_map. split; [exact H1|]. split; [exact H2|]. split; [auto|].
  apply Forall_forall. intros c Hc.
  apply list_elem_of_fmap in Hc as (c1 & -> & Hc).
  apply list_elem_of_fmap in Hc as (c0 & -> & _). split; reflexivity.
Qed.

Lemma cards_get_largest_height_sample :
  exists b' m m',
    Alerts.w_container
      (snd (Alerts.new_SignificantChangesAlerts
              (Some [Alerts.ASection true
                       [[Alerts.ACell true [] "Area | East" (Some 1);
                         Alerts.ACell true ["decreasingS"; "increasingC"] "3" None];
                        [Alerts.ACell true [] "Area | West" None;
                         Alerts.ACell true ["increasingS"] "4" None]]])
              (Some (Alerts.Box "alerts" [])) (fun i => 20 + i) (fun i => 30 - i))) =
      Some b' /\
    m < length (Alerts.cards b') /\ m' < length (Alerts.cards b') /\
    (forall i, i < length (Alerts.cards b') ->
               20 + i <= 20 + m /\ 30 - i <= 30 - m') /\
    Forall (fun c => Alerts.category_height c = Some (pretty (20 + m) +:+ "px") /\
                     Alerts.changes_height c = Some (pretty (30 - m') +:+ "px"))
           (Alerts.cards b').
Proof.
  apply (cards_get_largest_height
           [Alerts.ASection true
              [[Alerts.ACell true [] "Area | East" (Some 1);
                Alerts.ACell true ["decreasingS"; "increasingC"] "3" None];
               [Alerts.ACell true [] "Area | West" None;
                Alerts.ACell true ["increasingS"] "4" None]]]
           (Alerts.Box "alerts" []) (fun i => 20 + i) (fun i => 30 - i)).
  vm_compute. reflexivity.
Defined.

(** ** A search run twice *)

Lemma ahead_refl s : ahead s s.
Proof. unfold ahead. tauto. Qed.

Lemma ahead_trans s1 s2 s3 : ahead s1 s2 -> ahead s2 s3 -> ahead s1 s3.
Proof.
  intros (Hs & Hd & Hf & Hl & Hc & Hh) (Hs' & Hd' & Hf' & Hl' & Hc' & Hh').
  unfold ahead. repeat split; try congruence; try tauto; auto.
Qed.

Lemma replays_ret : replays (ret tt).
Proof.
  intros s s' [= <-]. split; [apply ahead_refl|]. intros s'' _. reflexivity.
Qed.

Lemma replays_bind (m1 m2 : M unit) :
  replays m1 -> replays m2 -> replays (m1 ;; m2).
Proof.
  intros H1 H2 s s' Hrun.
  apply bind_Normal_run in Hrun as ([] & s1 & Hrun1 & Hrun2).
  destruct (H1 _ _ Hrun1) as [Ha1 Hr1]. destruct (H2 _ _ Hrun2) as [Ha2 Hr2].
  split; [exact (ahead_trans _ _ _ Ha1 Ha2)|].
  intros s'' Ha.
  rewrite (bind_Normal _ _ _ _ _ (Hr1 s'' (ahead_trans _ _ _ Ha2 Ha))).
  apply Hr2. exact Ha.
Qed.

Lemma replays_forEach {A} (f : A -> M unit) (l : list A) :
  (forall x, replays (f x)) -> replays (forEach f l).
Proof.
  intros Hf. induction l as [|x l IH]; simpl.
  - apply replays_ret.
  - apply replays_bind; auto.
Qed.

Lemma replays_throw e : replays (throw e).
Proof. intros s s' H. discriminate. Qed.

Lemma replays_beyond l : replays (beyond l).
Proof. intros s s' H. discriminate. Qed.

Lemma the_meta_Normal i s m s0 :
  the_meta i s = (Normal m, s0) ->
  s0 = s /\ exists row, records s !! i = Some row /\ m = rmeta row.
Proof.
  unfold the_meta, records. destruct (data s) as [d|]; [|discriminate].
  destruct (d !! i) as [row|] eqn:Hi; [|discriminate].
  intros [= <- <-]. split; [reflexivity|]. exists row. auto.
Qed.

Lemma unflagged_meta row row' :
  unflagged row' = unflagged row ->
  set__collapsed None (rmeta row') = set__collapsed None (rmeta row).
Proof.
  unfold unflagged, with_meta. intros H.
  exact (f_equal rmeta H).
Qed.

Lemma ahead_lookup s s' i row :
  ahead s s' -> records s !! i = Some row ->
  exists row', records s' !! i = Some row' /\ unflagged row' = unflagged row.
Proof. intros (Hs & _) Hi. exact (skeleton_lookup _ _ _ _ Hs Hi). Qed.

(** A read of a [meta] whose use does not depend on [collapsed]. *)
Lemma replays_the_meta i (k : meta -> M unit) :
  (forall m, replays (k m)) ->
  (forall m m', set__collapsed None m' = set__collapsed None m -> k m' = k m) ->
  replays (let* m := the_meta i in k m).
Proof.
  intros Hk Hext s s' Hrun.
  apply bind_Normal_run in Hrun as (m & s0 & Hmeta & Hrun).
  apply the_meta_Normal in Hmeta as (-> & row & Hi & ->).
  destruct (Hk _ _ _ Hrun) as [Ha Hr]. split; [exact Ha|].
  intros s'' Ha'.
  destruct (ahead_lookup s s'' i row (ahead_trans _ _ _ Ha Ha') Hi) as (row' & Hi' & Hrow).
  rewrite (bind_Normal _ _ _ _ _ (the_meta_ok _ _ _ Hi')).
  rewrite (Hext (rmeta row) (rmeta row') (unflagged_meta _ _ Hrow)).
  apply Hr. exact Ha'.
Qed.

(** A read of [data] whose use does not depend on [collapsed]. *)
Lemma replays_the_data (k : list record -> M unit) :
  (forall d, replays (k d)) ->
  (forall d d', skeleton d' = skeleton d -> k d' = k d) ->
  replays (let* d := the_data in k d).
Proof.
  intros Hk Hext s s' Hrun.
  apply bind_Normal_run in Hrun as (d & s0 & Hdata & Hrun).
  assert (s0 = s /\ data s = Some d) as [-> Hd].
  { unfold the_data in Hdata. destruct (data s); [|discriminate].
    injection Hdata as <- <-. auto. }
  destruct (Hk _ _ _ Hrun) as [Ha Hr]. split; [exact Ha|].
  intros s'' Ha'.
  pose proof (ahead_trans _ _ _ Ha Ha') as (Hsk & Hnone & _).
  destruct (data s'') as [d''|] eqn:Hd''.
  - rewrite (bind_Normal _ _ _ d'' s'') by (unfold the_data; rewrite Hd''; reflexivity).
    unfold records in Hsk. rewrite Hd, Hd'' in Hsk.
    rewrite (Hext d d'' Hsk). apply Hr. exact Ha'.
  - rewrite (proj1 Hnone eq_refl) in Hd. discriminate.
Qed.

Lemma alter_absent {A} (f : A -> A) i (l : list A) : l !! i = None -> alter f i l = l.
Proof.
  revert i. induction l as [|x l IH]; intros [|i]; simpl; try discriminate; auto.
  intros H. f_equal. apply IH. exact H.
Qed.

Lemma mark_idle r s :
  (r < length (t_rows (source s)) -> highlighted s r = true) ->
  row_classList_add r "matched-search" s = (Normal tt, s).
Proof.
  intros H. unfold row_classList_add, update_row, modify. f_equal.
  destruct s as [[cls rows body ev] h rh dat col fl se].
  unfold with_source, with_rows. simpl in *. f_equal. f_equal.
  unfold highlighted, row_classes in H. simpl in H.
  destruct (rows !! r) as [x|] eqn:Hr.
  - apply (alter_fix _ _ _ x Hr).
    specialize (H (proj1 (lookup_lt_is_Some _ _) (ex_intro _ x Hr))).
    destruct x as [attrs classes cells]. unfold with_row_classes. simpl in *.
    unfold classList_add. rewrite H. reflexivity.
  - apply alter_absent. exact Hr.
Qed.

Lemma replays_mark r : replays (row_classList_add r "matched-search").
Proof.
  intros s s' Hrun.
  destruct (highlight_spec r s) as (s1 & Hrun1 & Hdata & Hlen & _ & Hh).
  rewrite Hrun in Hrun1. injection Hrun1 as <-.
  assert (records s' = records s) as Hrec by (unfold records; rewrite Hdata; reflexivity).
  assert (_flat s' = _flat s) as Hflat by (injection Hrun as <-; reflexivity).
  split.
  - unfold ahead. rewrite Hrec, Hdata. repeat split; auto.
    + intros j. unfold collapsed_at. rewrite Hrec. auto.
    + intros r' Hr'. rewrite Hh, Hr'. reflexivity.
  - intros s'' (_ & _ & _ & Hlen'' & _ & Hh''). apply mark_idle. intros Hlt.
    apply Hh''. rewrite Hh, Nat.eqb_refl.
    assert ((r <? length (t_rows (source s))) = true) as -> by (apply Nat.ltb_lt; lia).
    apply orb_true_r.
Qed.

Lemma set_collapsed_outside i val s :
  _flat (snd (set_collapsed i val s)) = _flat s /\
  (data (snd (set_collapsed i val s)) = None <-> data s = None).
Proof.
  apply (parts_set_collapsed
           (fun st => _flat st = _flat s /\ (data st = None <-> data s = None))).
  - intros j v st [Hf Hd]. simpl. split; [exact Hf|]. rewrite <- Hd.
    destruct (data st); simpl; split; intros; congruence.
  - intros r c _ st H. exact H.
  - intros r c _ st H. exact H.
  - intros tg name st H. exact H.
  - split; [reflexivity|tauto].
Qed.

Lemma collapsed_at_lookup s p parent :
  records s !! p = Some parent -> collapsed_at s p = m_collapsed (rmeta parent).
Proof. unfold collapsed_at. intros ->. reflexivity. Qed.

(** The parent found by [uncollapseParents]: expanded if it reads as
    collapsed, then whatever follows. *)
Lemma replays_uncollapse p (k : meta -> M unit) :
  (forall m, replays (k m)) ->
  (forall m m', set__collapsed None m' = set__collapsed None m -> k m' = k m) ->
  replays (let* parent := the_meta p in
           when (truthy (m_collapsed parent)) (set_collapsed p false) ;; k parent).
Proof.
  intros Hk Hext s s' Hrun.
  apply bind_Normal_run in Hrun as (m & s0 & Hmeta & Hrun).
  apply the_meta_Normal in Hmeta as (-> & parent & Hp & ->).
  apply bind_Normal_run in Hrun as ([] & s1 & Hrun1 & Hrun2).
  destruct (uncollapse_one s p parent Hp) as (s1' & Hrun1' & Hsk & Hlen & _ & Hh & Hc & Hp1).
  rewrite Hrun1 in Hrun1'. injection Hrun1' as <-.
  assert (ahead s s1) as Ha1.
  { assert (_flat s1 = _flat s /\ (data s1 = None <-> data s = None)) as [Hf Hd].
    { unfold when in Hrun1. destruct (truthy (m_collapsed (rmeta parent))).
      - pose proof (set_collapsed_outside p false s) as H. rewrite Hrun1 in H. exact H.
      - injection Hrun1 as <-. tauto. }
    unfold ahead. repeat split; try tauto; auto.
    intros r Hr. rewrite Hh. exact Hr. }
  destruct (Hk _ _ _ Hrun2) as [Ha2 Hr2].
  split; [exact (ahead_trans _ _ _ Ha1 Ha2)|].
  intros s'' Ha.
  pose proof (ahead_trans _ _ _ Ha2 Ha) as Ha1''.
  destruct (ahead_lookup s s'' p parent (ahead_trans _ _ _ Ha1 Ha1'') Hp)
    as (parent'' & Hp'' & Hrow).
  rewrite (bind_Normal _ _ _ _ _ (the_meta_ok _ _ _ Hp'')).
  assert (truthy (m_collapsed (rmeta parent'')) = false) as ->.
  { apply not_true_is_false. intros Ht.
    destruct Ha1'' as (_ & _ & _ & _ & Hc'' & _).
    rewrite <- (collapsed_at_lookup s'' p parent'' Hp'') in Ht.
    apply Hc'' in Ht. congruence. }
  simpl when.
  rewrite (bind_Normal _ _ _ _ _ (eq_refl : ret tt s'' = (Normal tt, s''))).
  rewrite (Hext (rmeta parent) (rmeta parent'') (unflagged_meta _ _ Hrow)).
  apply Hr2. exact Ha.
Qed.

Lemma position_skeleton (p : record -> bool) d d' :
  (forall x y, unflagged x = unflagged y -> p x = p y) ->
  skeleton d' = skeleton d -> position p d' = position p d.
Proof. intros Hp H. unfold position. rewrite (positions_skeleton p d d' 0 Hp H). reflexivity. Qed.

Lemma replays_uncollapseParents fuel : forall i, replays (uncollapseParents fuel i).
Proof.
  induction fuel as [|fuel IH]; intros i; [apply replays_beyond|].
  simpl uncollapseParents. apply replays_the_meta.
  - intros m. destruct (0 <? String.length (m_parent m)); [|apply replays_ret].
    apply replays_the_data.
    + intros d. destruct (position _ d) as [p|]; [|apply replays_throw].
      apply (replays_uncollapse p
               (fun parent => row_classList_add (m_row parent) "matched-search" ;;
                              uncollapseParents fuel p)).
      * intros parent. apply replays_bind; [apply replays_mark|apply IH].
      * intros [? ? ? ? ? ? ? ? ?] [? ? ? ? ? ? ? ? ?] [= -> -> -> -> -> -> -> ->].
        reflexivity.
    + intros d d' Hsk.
      rewrite (position_skeleton _ d d'); [reflexivity| |exact Hsk].
      intros x y Hxy. apply unflagged_fields in Hxy as (-> & _). reflexivity.
  - intros [? ? ? ? ? ? ? ? ?] [? ? ? ? ? ? ? ? ?] [= -> -> -> -> -> -> -> ->].
    reflexivity.
Qed.

Lemma replays_displayChildren fuel : forall i, replays (displayChildren fuel i).
Proof.
  induction fuel as [|fuel IH]; intros i; [apply replays_beyond|].
  simpl displayChildren. apply replays_the_meta.
  - intros m. destruct (m_hasChildren m); [|apply replays_ret].
    apply replays_the_data.
    + intros d. apply replays_forEach. intros c. apply replays_the_meta.
      * intros cm. apply replays_bind; [apply replays_mark|apply IH].
      * intros [? ? ? ? ? ? ? ? ?] [? ? ? ? ? ? ? ? ?] [= -> -> -> -> -> -> -> ->].
        reflexivity.
    + intros d d' Hsk.
      rewrite (positions_skeleton _ d d' 0); [reflexivity| |exact Hsk].
      intros x y Hxy. apply unflagged_fields in Hxy as (_ & -> & _). reflexivity.
  - intros [? ? ? ? ? ? ? ? ?] [? ? ? ? ? ? ? ? ?] [= -> -> -> -> -> -> -> ->].
    reflexivity.
Qed.

Lemma unflagged_names row row' :
  unflagged row' = unflagged row ->
  m_flatName (rmeta row') = m_flatName (rmeta row) /\ m_name (rmeta row') = m_name (rmeta row).
Proof.
  destruct row as [c [? ? ? ? ? ? ? ? ?]], row' as [c' [? ? ? ? ? ? ? ? ?]].
  unfold unflagged, with_meta, set__collapsed. simpl. intros [= -> -> -> -> -> -> -> ->].
  auto.
Qed.

Lemma matched_rows_ahead s s' str :
  ahead s s' -> matched_rows s' str (records s') = matched_rows s str (records s).
Proof.
  intros (Hsk & _ & Hf & _). unfold matched_rows. rewrite Hf.
  apply positions_skeleton; [|exact Hsk].
  intros x y Hxy. apply unflagged_names in Hxy as [-> ->]. reflexivity.
Qed.

(** X27.  A search is idempotent: when [searchRowheaders] completes, running
    it again with the same string completes and changes nothing -- no class,
    no [collapsed] flag, no event. *)
Theorem search_twice_changes_nothing (fuel : nat) (str : string)
    (this this' : HierarchyTable) :
  searchRowheaders fuel str this = (Normal tt, this') ->
  searchRowheaders fuel str this' = (Normal tt, this').
Proof.
  intros Hrun. unfold searchRowheaders in *.
  destruct (literal_pattern str); [|discriminate].
  apply bind_Normal_run in Hrun as (s0 & s & Hget & Hrun). injection Hget as <- <-.
  apply bind_Normal_run in Hrun as (d & s & Hdata & Hrun).
  assert (s = this /\ data this = Some d) as [-> Hd].
  { unfold the_data in Hdata. destruct (data this); [|discriminate].
    injection Hdata as <- <-. auto. }
  assert (replays (forEach (fun i => let* m := the_meta i in
                                     row_classList_add (m_row m) "matched-search" ;;
                                     uncollapseParents fuel i ;;
                                     displayChildren fuel i)
                           (matched_rows this str d))) as Hloop.
  { apply replays_forEach. intros i. apply replays_the_meta.
    - intros m. apply replays_bind; [apply replays_mark|].
      apply replays_bind; [apply replays_uncollapseParents|apply replays_displayChildren].
    - intros [? ? ? ? ? ? ? ? ?] [? ? ? ? ? ? ? ? ?] [= -> -> -> -> -> -> -> ->].
      reflexivity. }
  destruct (Hloop _ _ Hrun) as [Ha Hr].
  rewrite (bind_Normal _ _ _ _ _ (eq_refl : get this' = (Normal this', this'))).
  pose proof Ha as (_ & Hnone & _).
  destruct (data this') as [d'|] eqn:Hd'.
  - rewrite (bind_Normal _ _ _ d' this') by (unfold the_data; rewrite Hd'; reflexivity).
    pose proof (matched_rows_ahead this this' str Ha) as Hm.
    unfold records in Hm. rewrite Hd, Hd' in Hm. rewrite Hm.
    apply Hr. apply ahead_refl.
  - rewrite (proj1 Hnone eq_refl) in Hd. discriminate.
Qed.

Lemma search_twice_changes_nothing_area :
  searchRowheaders 4 "port" (snd (searchRowheaders 4 "port" Sample.area)) =
  (Normal tt, snd (searchRowheaders 4 "port" Sample.area)).
Proof.
  apply (search_twice_changes_nothing 4 "port" Sample.area).
  vm_compute. reflexivity.
Defined.

(** ** The last assignment to [flat] decides the labels *)

Lemma array_set_overwrite l i v v' :
  array_set (array_set l i v') i v = array_set l i v.
Proof.
  unfold array_set. destruct (Z.ltb_spec i 0); [reflexivity|].
  destruct (Nat.ltb_spec (Z.to_nat i) (length l)) as [Hlt|Hge].
  - rewrite length_insert.
    destruct (Nat.ltb_spec (Z.to_nat i) (length l)); [|lia].
    apply list_insert_insert_eq.
  - rewrite !length_app, length_replicate. simpl length.
    destruct (Nat.ltb_spec (Z.to_nat i) (length l + (Z.to_nat i - length l + 1))); [|lia].
    rewrite insert_app_r_alt by lia.
    rewrite insert_app_r_alt by (rewrite length_replicate; lia).
    rewrite length_replicate, Nat.sub_diag. reflexivity.
Qed.

Lemma labelled_twice b b' col row :
  labelled b col (labelled b' col row) = labelled b col row.
Proof. unfold labelled. simpl. rewrite array_set_overwrite. reflexivity. Qed.

Lemma flat_view_records b this :
  records (flat_view b this) = map (labelled b (column this)) (records this).
Proof. unfold flat_view, records. simpl. destruct (data this); reflexivity. Qed.

Lemma flat_view_well_built b this :
  (column this < 4294967296)%Z -> well_built this = true ->
  well_built (flat_view b this) = true.
Proof.
  intros Hcol Hwb.
  pose proof (preserves_fixed_perform (fixed_part this) (SetFlat b) this eq_refl) as Hfix.
  simpl in Hfix. rewrite (set_flat_Normal b this Hcol Hwb) in Hfix. simpl in Hfix.
  rewrite (well_built_fixed this _ Hfix). exact Hwb.
Qed.

Lemma run_flats bs : forall this b,
  (column this < 4294967296)%Z -> well_built this = true ->
  records (run (map SetFlat bs ++ [SetFlat b]) this) =
  map (labelled b (column this)) (records this).
Proof.
  induction bs as [|b0 bs IH]; intros this b Hcol Hwb.
  - unfold run. simpl. rewrite (set_flat_Normal b this Hcol Hwb). simpl.
    apply flat_view_records.
  - change (run (map SetFlat (b0 :: bs) ++ [SetFlat b]) this)
      with (run (map SetFlat bs ++ [SetFlat b]) (snd (set_flat b0 this))).
    rewrite (set_flat_Normal b0 this Hcol Hwb). simpl snd.
    rewrite IH; [|exact Hcol|apply flat_view_well_built; assumption].
    rewrite flat_view_records, map_map. simpl column.
    apply map_ext. intros row. apply labelled_twice.
Qed.

(** X28.  On a well built table with a column index below 2^32, the arrays
    after a series of assignments to [flat] are those after the last
    assignment alone: a switch to the other mode and back restores every
    array, and assigning the current mode again changes none. *)
Theorem last_flat_assignment_decides (bs : list bool) (b : bool) (this : HierarchyTable) :
  (column this < 4294967296)%Z ->
  well_built this = true ->
  records (run (map SetFlat bs ++ [SetFlat b]) this) = records (run [SetFlat b] this).
Proof.
  intros Hcol Hwb. rewrite (run_flats bs this b Hcol Hwb).
  symmetry. apply (run_flats [] this b Hcol Hwb).
Qed.

Lemma last_flat_assignment_decides_area :
  records (run (map SetFlat [true; false; false] ++ [SetFlat true]) Sample.area_expanded) =
  records (run [SetFlat true] Sample.area_expanded).
Proof.
  apply (last_flat_assignment_decides [true; false; false] true Sample.area_expanded);
    vm_compute; reflexivity.
Defined.

(** ** The children of a matched row *)

Lemma ahead_highlight s s' r : ahead s s' -> highlighted s r = true -> highlighted s' r = true.
Proof. intros (_ & _ & _ & _ & _ & H). apply H. Qed.

Lemma ahead_length s s' :
  ahead s s' -> length (t_rows (source s')) = length (t_rows (source s)).
Proof. intros (_ & _ & _ & H & _). exact H. Qed.

Lemma mark_highlights r s s' :
  row_classList_add r "matched-search" s = (Normal tt, s') ->
  r < length (t_rows (source s)) -> highlighted s' r = true.
Proof.
  intros Hrun Hlt. destruct (highlight_spec r s) as (s1 & Hrun1 & _ & _ & _ & Hh).
  rewrite Hrun in Hrun1. injection Hrun1 as <-.
  rewrite Hh, Nat.eqb_refl.
  assert ((r <? length (t_rows (source s))) = true) as -> by (apply Nat.ltb_lt; exact Hlt).
  apply orb_true_r.
Qed.

Lemma children_loop fuel cs :
  forall s s',
    forEach (fun child => let* cm := the_meta child in
                          row_classList_add (m_row cm) "matched-search" ;;
                          displayChildren fuel child) cs s = (Normal tt, s') ->
    forall c child,
      In c cs -> records s !! c = Some child ->
      m_row (rmeta child) < length (t_rows (source s)) ->
      highlighted s' (m_row (rmeta child)) = true.
Proof.
  assert (forall c, replays (let* cm := the_meta c in
                             row_classList_add (m_row cm) "matched-search" ;;
                             displayChildren fuel c)) as Hbody.
  { intros c. apply replays_the_meta.
    - intros cm. apply replays_bind; [apply replays_mark|apply replays_displayChildren].
    - intros [? ? ? ? ? ? ? ? ?] [? ? ? ? ? ? ? ? ?] [= -> -> -> -> -> -> -> ->].
      reflexivity. }
  induction cs as [|c0 cs IH]; intros s s' Hrun c child Hin Hc Hlt; [destruct Hin|].
  simpl forEach in Hrun. apply bind_Normal_run in Hrun as ([] & s1 & Hstep & Hrest).
  destruct (Hbody c0 _ _ Hstep) as [Ha1 _].
  destruct (replays_forEach _ cs Hbody _ _ Hrest) as [Ha2 _].
  destruct Hin as [->|Hin].
  - apply (ahead_highlight s1 s' _ Ha2).
    rewrite (bind_Normal _ _ _ _ _ (the_meta_ok _ _ _ Hc)) in Hstep.
    apply bind_Normal_run in Hstep as ([] & sa & Hmark & Hdisp).
    destruct (replays_displayChildren fuel c _ _ Hdisp) as [Ha _].
    apply (ahead_highlight sa s1 _ Ha). exact (mark_highlights _ _ _ Hmark Hlt).
  - destruct (ahead_lookup s s1 c child Ha1 Hc) as (child1 & Hc1 & Hrow).
    apply unflagged_fields in Hrow as (_ & _ & Hr & _). rewrite <- Hr.
    apply (IH s1 s' Hrest c child1 Hin Hc1).
    rewrite Hr, (ahead_length _ _ Ha1). exact Hlt.
Qed.

Lemma displayChildren_marks fuel i s s' row c child :
  displayChildren (S fuel) i s = (Normal tt, s') ->
  records s !! i = Some row ->
  m_hasChildren (rmeta row) = true ->
  records s !! c = Some child ->
  is_child_of row child = true ->
  m_row (rmeta child) < length (t_rows (source s)) ->
  highlighted s' (m_row (rmeta child)) = true.
Proof.
  intros Hrun Hi Hhas Hc Hchild Hlt. simpl displayChildren in Hrun.
  rewrite (bind_Normal _ _ _ _ _ (the_meta_ok _ _ _ Hi)), Hhas in Hrun.
  rewrite (bind_Normal _ _ _ _ _ (the_data_ok _ _ _ Hi)) in Hrun.
  apply (children_loop fuel _ s s' Hrun c child); [|exact Hc|exact Hlt].
  apply (positions_complete _ (records s) 0 c child Hc). exact Hchild.
Qed.

Lemma search_children_loop fuel l :
  forall s s',
    forEach (fun i => let* m := the_meta i in
                      row_classList_add (m_row m) "matched-search" ;;
                      uncollapseParents fuel i ;;
                      displayChildren fuel i) l s = (Normal tt, s') ->
    forall i row c child,
      In i l -> records s !! i = Some row -> m_hasChildren (rmeta row) = true ->
      records s !! c = Some child -> is_child_of row child = true ->
      m_row (rmeta child) < length (t_rows (source s)) ->
      highlighted s' (m_row (rmeta child)) = true.
Proof.
  assert (forall i, replays (let* m := the_meta i in
                             row_classList_add (m_row m) "matched-search" ;;
                             uncollapseParents fuel i ;;
                             displayChildren fuel i)) as Hbody.
  { intros i. apply replays_the_meta.
    - intros m. apply replays_bind; [apply replays_mark|].
      apply replays_bind; [apply replays_uncollapseParents|apply replays_displayChildren].
    - intros [? ? ? ? ? ? ? ? ?] [? ? ? ? ? ? ? ? ?] [= -> -> -> -> -> -> -> ->].
      reflexivity. }
  induction l as [|i0 l IH]; intros s s' Hrun i row c child Hin Hi Hhas Hc Hchild Hlt;
    [destruct Hin|].
  simpl forEach in Hrun. apply bind_Normal_run in Hrun as ([] & s1 & Hstep & Hrest).
  destruct (Hbody i0 _ _ Hstep) as [Ha1 _].
  destruct (replays_forEach _ l Hbody _ _ Hrest) as [Ha2 _].
  destruct Hin as [->|Hin].
  - apply (ahead_highlight s1 s' _ Ha2).
    rewrite (bind_Normal _ _ _ _ _ (the_meta_ok _ _ _ Hi)) in Hstep.
    apply bind_Normal_run in Hstep as ([] & sa & Hmark & Hstep).
    apply bind_Normal_run in Hstep as ([] & sb & Hup & Hdisp).
    destruct (replays_mark _ _ _ Hmark) as [Ha _].
    destruct (replays_uncollapseParents fuel i _ _ Hup) as [Hb _].
    pose proof (ahead_trans _ _ _ Ha Hb) as Hab.
    destruct (ahead_lookup s sb i row Hab Hi) as (rowb & Hib & Hrowb).
    destruct (ahead_lookup s sb c child Hab Hc) as (childb & Hcb & Hchildb).
    apply unflagged_fields in Hrowb as (Hid & _ & _ & _ & Hhasb).
    apply unflagged_fields in Hchildb as (_ & Hpar & Hr & _).
    rewrite <- Hr. destruct fuel as [|fuel]; [discriminate|].
    apply (displayChildren_marks fuel i sb s1 rowb c childb Hdisp Hib); auto.
    + congruence.
    + unfold is_child_of in *. rewrite Hpar, Hid. exact Hchild.
    + rewrite Hr, (ahead_length _ _ Hab). exact Hlt.
  - destruct (ahead_lookup s s1 i row Ha1 Hi) as (row1 & Hi1 & Hrow1).
    destruct (ahead_lookup s s1 c child Ha1 Hc) as (child1 & Hc1 & Hchild1).
    apply unflagged_fields in Hrow1 as (Hid & _ & _ & _ & Hhas1).
    apply unflagged_fields in Hchild1 as (_ & Hpar & Hr & _).
    rewrite <- Hr.
    apply (IH s1 s' Hrest i row1 c child1 Hin Hi1); auto.
    + congruence.
    + unfold is_child_of in *. rewrite Hpar, Hid. exact Hchild.
    + rewrite Hr, (ahead_length _ _ Ha1). exact Hlt.
Qed.

(** X29.  When a search completes normally, the children of every matched
    row that has children are highlighted as well: the table row of each of
    them, if it exists, carries the highlight class afterwards. *)
Theorem search_highlights_children (fuel : nat) (str : string)
    (this this' : HierarchyTable) (i c : nat) (row child : record) :
  searchRowheaders fuel str this = (Normal tt, this') ->
  In i (matched_rows this str (records this)) ->
  records this !! i = Some row ->
  m_hasChildren (rmeta row) = true ->
  records this !! c = Some child ->
  is_child_of row child = true ->
  m_row (rmeta child) < length (t_rows (source this)) ->
  highlighted this' (m_row (rmeta child)) = true.
Proof.
  intros Hrun Hin Hi Hhas Hc Hchild Hlt. unfold searchRowheaders in Hrun.
  destruct (literal_pattern str); [|discriminate].
  apply bind_Normal_run in Hrun as (s0 & s & Hget & Hrun). injection Hget as <- <-.
  rewrite (bind_Normal _ _ _ _ _ (the_data_ok _ _ _ Hi)) in Hrun.
  exact (search_children_loop fuel _ this this' Hrun i row c child Hin Hi Hhas Hc Hchild Hlt).
Qed.

Lemma search_highlights_children_area :
  highlighted (snd (searchRowheaders 4 "east" Sample.area)) 2 = true.
Proof.
  apply (search_highlights_children 4 "east" Sample.area
           (snd (searchRowheaders 4 "east" Sample.area)) 1 2
           (Rec [VString "East"; VScalar "2"]
                (Meta 1 "B" "Area/East" "East" "A" 1 true true (Some true)))
           (Rec [VString "Port"; VScalar "3"]
                (Meta 2 "C" "Area/East/Port" "Port" "B" 2 false true None)));
    vm_compute; first [reflexivity | left; reflexivity | lia].
Defined.
